(** * AI Orchestra: the orchestration service's workflow engine

    A shallow embedding of [src/orchestrator/main.py]: the status records,
    the submission endpoint [run_graph], the background job
    [execute_workflow] with its three strategies ([execute_sequential],
    [execute_parallel], [execute_graph]) and the single-task wrapper
    [execute_task].

    The engine is cooperative: coroutines run until their next [await].
    Each transition of the machine below is one such uninterrupted stretch
    of one coroutine, and the scheduler's choice of which coroutine runs
    next is an explicit argument of [step].

    Timestamps ([created_at], [started_at], [completed_at]) are written by
    the source next to the status writes and read only by the listing
    endpoint [list_workflows], which sorts on [created_at]; the records
    leave them out, and the listing endpoint is modelled on the store's
    values, each paired with its [created_at]. *)

From stdpp Require Import gmap strings list fin_maps pretty sorting.

(** ** Values

    [Dict[str, Any]], [Any] and [Optional[Dict[str, Any]]] of the source:
    the JSON-like values that flow through task inputs, results and
    contexts. *)

#[warnings="-register-all"]
Inductive Value : Type :=
  | VNone
  | VBool (b : bool)
  | VStr (s : string)
  | VDict (d : gmap string Value).

(** ** Models / Schemas *)

(** [AgentTask]: single agent task definition. *)
Record AgentTask : Type := mkAgentTask {
  agent_id : string;
  agent_role : string;
  input_data : Value;
  depends_on : list string
}.

Inductive WorkflowType : Type := Sequential | Parallel | Graph.

(** [WorkflowRequest]: workflow execution request. *)
Record WorkflowRequest : Type := mkWorkflowRequest {
  workflow_id : option string;
  workflow_type : WorkflowType;
  tasks : list AgentTask;
  metadata : Value
}.

(** The [Literal] of [TaskStatus.status]. *)
Inductive TaskState : Type := Pending | Running | Completed | Failed.

(** The [Literal] of [WorkflowStatus.status]. *)
Inductive WorkflowState : Type :=
  WfPending | WfRunning | WfCompleted | WfFailed | WfPartial.

#[global] Instance TaskState_eq_dec : EqDecision TaskState.
Proof. solve_decision. Defined.
#[global] Instance WorkflowState_eq_dec : EqDecision WorkflowState.
Proof. solve_decision. Defined.
#[global] Instance WorkflowType_eq_dec : EqDecision WorkflowType.
Proof. solve_decision. Defined.

(** [TaskStatus]: status of a single task.  [ts_result] is [VNone] while
    the source's [result] is [None]. *)
Record TaskStatus : Type := mkTaskStatus {
  ts_task_id : string;
  ts_agent_id : string;
  ts_agent_role : string;
  ts_status : TaskState;
  ts_result : Value;
  ts_error : option string
}.

(** [WorkflowStatus]: status of an entire workflow. *)
Record WorkflowStatus : Type := mkWorkflowStatus {
  ws_workflow_id : string;
  ws_workflow_type : WorkflowType;
  ws_status : WorkflowState;
  ws_tasks : list TaskStatus;
  ws_metadata : Value
}.

(** Attribute writes on the two mutable records. *)
Definition set_ts_status (s : TaskState) (t : TaskStatus) : TaskStatus :=
  mkTaskStatus (ts_task_id t) (ts_agent_id t) (ts_agent_role t) s
    (ts_result t) (ts_error t).
Definition set_ts_result (r : Value) (t : TaskStatus) : TaskStatus :=
  mkTaskStatus (ts_task_id t) (ts_agent_id t) (ts_agent_role t) (ts_status t)
    r (ts_error t).
Definition set_ts_error (e : string) (t : TaskStatus) : TaskStatus :=
  mkTaskStatus (ts_task_id t) (ts_agent_id t) (ts_agent_role t) (ts_status t)
    (ts_result t) (Some e).
Definition set_ws_status (s : WorkflowState) (w : WorkflowStatus) : WorkflowStatus :=
  mkWorkflowStatus (ws_workflow_id w) (ws_workflow_type w) s (ws_tasks w)
    (ws_metadata w).
Definition set_ws_tasks (ts : list TaskStatus) (w : WorkflowStatus) : WorkflowStatus :=
  mkWorkflowStatus (ws_workflow_id w) (ws_workflow_type w) (ws_status w) ts
    (ws_metadata w).

(** ** In-memory storage and the submission endpoint *)

(** [workflows_store: Dict[str, WorkflowStatus]]. *)
Abbreviation Store := (gmap string WorkflowStatus).

(** The list comprehension of [run_graph]: one pending [TaskStatus] per
    task of the request, with id [f"{workflow_id}-task-{i}"]. *)
Definition initial_task (wid : string) (i : nat) (task : AgentTask) : TaskStatus :=
  mkTaskStatus (wid +:+ "-task-" +:+ pretty i) (agent_id task) (agent_role task)
    Pending VNone None.

(** [workflow_request.workflow_id or str(uuid.uuid4())]: [None] and the
    empty string are both falsy.  [uuid] is the freshly drawn identifier. *)
Definition choose_workflow_id (request : WorkflowRequest) (uuid : string) : string :=
  match workflow_id request with
  | Some wid => if decide (wid = "") then uuid else wid
  | None => uuid
  end.

(** [run_graph]: builds the initial record, stores it under its id and
    queues [execute_workflow] as a background job.  Returns the response,
    the new store and the queued job's arguments. *)
Definition run_graph (workflows_store : Store) (workflow_request : WorkflowRequest)
    (uuid : string) : WorkflowStatus * Store * (string * WorkflowRequest) :=
  let wid := choose_workflow_id workflow_request uuid in
  let workflow_status :=
    mkWorkflowStatus wid (workflow_type workflow_request) WfPending
      (imap (initial_task wid) (tasks workflow_request))
      (metadata workflow_request) in
  (workflow_status, <[wid := workflow_status]> workflows_store,
   (wid, workflow_request)).

(** [get_status]: [None] is the 404 response. *)
Definition get_status (workflows_store : Store) (wid : string) : option WorkflowStatus :=
  workflows_store !! wid.

(** [delete_workflow]: [None] is the 404 response. *)
Definition delete_workflow (workflows_store : Store) (wid : string) : option Store :=
  match workflows_store !! wid with
  | Some _ => Some (delete wid workflows_store)
  | None => None
  end.

(** ** Workflow execution logic *)

(** The exceptions the engine's own code can raise: indexing
    [workflow.tasks] beyond its length, and looking up a missing key of
    [task_events] or [completed_tasks]. *)
Inductive Exn : Type :=
  | IndexError
  | KeyError (key : string).

(** Python's [repr] of a string, as [str(KeyError(key))] prints the
    key: in single quotes, or in double quotes when the key holds a
    single quote and no double quote; the quote in use and the backslash
    are escaped with a backslash, and control characters are written
    [\t], [\n], [\r] or [\xNN].  Characters beyond ASCII are taken to be
    printable ones, which [repr] leaves as they are. *)
Definition single_quote : Ascii.ascii := Ascii.ascii_of_nat 39.
Definition double_quote : Ascii.ascii := Ascii.ascii_of_nat 34.
Definition backslash : Ascii.ascii := Ascii.ascii_of_nat 92.

Fixpoint holds (c : Ascii.ascii) (s : string) : bool :=
  match s with
  | EmptyString => false
  | String c' s' => bool_decide (c' = c) || holds c s'
  end.

Definition hex_digit (n : nat) : Ascii.ascii :=
  Ascii.ascii_of_nat (if decide (n < 10) then 48 + n else 87 + n).

Definition repr_char (quote c : Ascii.ascii) : string :=
  let n := Ascii.nat_of_ascii c in
  if bool_decide (c = quote ∨ c = backslash)
  then String backslash (String c EmptyString)
  else if bool_decide (n = 9) then String backslash "t"
  else if bool_decide (n = 10) then String backslash "n"
  else if bool_decide (n = 13) then String backslash "r"
  else if bool_decide (n < 32 ∨ n = 127)
  then String backslash
         ("x" +:+ String (hex_digit (n / 16))
                    (String (hex_digit (n mod 16)) EmptyString))
  else String c EmptyString.

Fixpoint repr_chars (quote : Ascii.ascii) (s : string) : string :=
  match s with
  | EmptyString => EmptyString
  | String c s' => repr_char quote c +:+ repr_chars quote s'
  end.

Definition repr (s : string) : string :=
  let quote :=
    if holds single_quote s && negb (holds double_quote s)
    then double_quote else single_quote in
  String quote (repr_chars quote s +:+ String quote EmptyString).

(** Python's [str(e)]: the message of an IndexError raised by indexing a
    list, and [repr(key)] for a KeyError. *)
Definition str (e : Exn) : string :=
  match e with
  | IndexError => "list index out of range"
  | KeyError key => repr key
  end.

(** A coroutine of [asyncio.gather]: where it is suspended, or how it
    ended. *)
Inductive Coroutine : Type :=
  | Created                       (* made, not yet run *)
  | Waiting                       (* in the gather of [Event.wait()] *)
  | Executing (context : Value)   (* inside [execute_task]'s [try] *)
  | Done (result : Value)         (* returned *)
  | Faulted (e : Exn).            (* raised; kept by [return_exceptions] *)

Definition finished (c : Coroutine) : bool :=
  match c with
  | Done _ | Faulted _ => true
  | _ => false
  end.

(** Control state of the strategy called inside [execute_workflow]'s
    [try]. *)
Inductive Strategy : Type :=
  | SeqLoop (i : nat) (previous_result : Value)
      (* [execute_sequential], top of iteration [i] *)
  | SeqAwait (i : nat) (previous_result : Value)
      (* [execute_sequential], awaiting [execute_task] of task [i] *)
  | ParGather (coros : list Coroutine)
      (* [execute_parallel], in [asyncio.gather] *)
  | GraphGather (coros : list Coroutine) (completed_tasks : gmap string Value)
      (task_events : gmap string bool)
      (* [execute_graph], in the outer [asyncio.gather]; an event is the
         flag stored under its agent id *)
  | Returned
  | Raised (e : Exn).

Inductive Phase : Type :=
  | Queued                  (* background job not yet started *)
  | Trying (s : Strategy)   (* inside the [try] *)
  | Finished.

(** One execution of [execute_workflow]: the record [workflow] it took
    from the store (a shared object: the store holds the same record, so
    status queries see every write) and its control state. *)
Record Machine : Type := mkMachine {
  workflow : WorkflowStatus;
  phase : Phase
}.

(** Lines 209-216: the status computed after the strategy returned.  When
    the tasks are neither all completed nor any failed, no branch assigns
    and the status stays as it was. *)
Definition all_completed (ts : list TaskStatus) : bool :=
  forallb (λ t, bool_decide (ts_status t = Completed)) ts.
Definition any_failed (ts : list TaskStatus) : bool :=
  existsb (λ t, bool_decide (ts_status t = Failed)) ts.
Definition any_completed (ts : list TaskStatus) : bool :=
  existsb (λ t, bool_decide (ts_status t = Completed)) ts.

Definition aggregate (w : WorkflowStatus) : WorkflowStatus :=
  if all_completed (ws_tasks w) then set_ws_status WfCompleted w
  else if any_failed (ws_tasks w) then
    set_ws_status (if any_completed (ws_tasks w) then WfPartial else WfFailed) w
  else w.

(** Lines 218-224: the [except Exception as e] handler. *)
Definition fail_task (e : Exn) (t : TaskStatus) : TaskStatus :=
  if bool_decide (ts_status t ∈ [Pending; Running])
  then set_ts_error (str e) (set_ts_status Failed t)
  else t.

Definition handle_exception (e : Exn) (w : WorkflowStatus) : WorkflowStatus :=
  set_ws_tasks (fail_task e <$> ws_tasks w) (set_ws_status WfFailed w).

(** [task_events] after the loop of lines 276-277: one unset event per
    agent id. *)
Definition new_task_events (defs : list AgentTask) : gmap string bool :=
  foldl (λ events task_def, <[agent_id task_def := false]> events) ∅ defs.

(** The list comprehension of line 284-287 looks every event up before
    anything is awaited: the first missing key raises. *)
Fixpoint lookup_events (task_events : gmap string bool) (deps : list string)
    : Exn + list bool :=
  match deps with
  | [] => inr []
  | dep_id :: deps =>
      match task_events !! dep_id with
      | None => inl (KeyError dep_id)
      | Some flag =>
          match lookup_events task_events deps with
          | inl e => inl e
          | inr flags => inr (flag :: flags)
          end
      end
  end.

(** The dict comprehension of lines 290-293. *)
Fixpoint dep_results (completed_tasks : gmap string Value) (deps : list string)
    (acc : gmap string Value) : Exn + gmap string Value :=
  match deps with
  | [] => inr acc
  | dep_id :: deps =>
      match completed_tasks !! dep_id with
      | None => inl (KeyError dep_id)
      | Some r => dep_results completed_tasks deps (<[dep_id := r]> acc)
      end
  end.

Section Engine.

(** The body of [execute_task]'s [try] block: the call to the agent.
    [inl result] is its result, [inr msg] an exception raised there,
    with [str(e) = msg].  The source's placeholder body is [mock_agent]
    below. *)
Variable run_agent : AgentTask → Value → Value + string.

(** [execute_task] up to its first [await] (lines 330-331). *)
Definition execute_task_start (task_status : TaskStatus) : TaskStatus :=
  set_ts_status Running task_status.

(** [execute_task] from the [try] body to its [return] (lines 333-363):
    the record after the writes, and the returned value. *)
Definition execute_task_finish (task_status : TaskStatus) (task_def : AgentTask)
    (context : Value) : TaskStatus * Value :=
  match run_agent task_def context with
  | inl result =>
      (set_ts_result result (set_ts_status Completed task_status), result)
  | inr msg =>
      (set_ts_error msg (set_ts_status Failed task_status), VNone)
  end.

Variable workflow_request : WorkflowRequest.

(** Entering the strategy selected by [workflow_request.workflow_type].
    [execute_parallel] indexes [workflow.tasks[i]] for every task while
    it builds its list of coroutines; [execute_graph] only indexes
    inside the coroutines. *)
Definition enter_strategy (w : WorkflowStatus) : Strategy :=
  let defs := tasks workflow_request in
  match workflow_type workflow_request with
  | Sequential => SeqLoop 0 VNone
  | Parallel =>
      if decide (length defs ≤ length (ws_tasks w))
      then ParGather (replicate (length defs) Created)
      else Raised IndexError
  | Graph =>
      GraphGather (replicate (length defs) Created) ∅ (new_task_events defs)
  end.

(** [execute_sequential], one stretch between two suspension points. *)
Definition execute_sequential_loop (i : nat) (previous_result : Value)
    (w : WorkflowStatus) : WorkflowStatus * Strategy :=
  match tasks workflow_request !! i with
  | None => (w, Returned)
  | Some task_def =>
      match ws_tasks w !! i with
      | None => (w, Raised IndexError)
      | Some task_status =>
          (set_ws_tasks (<[i := execute_task_start task_status]> (ws_tasks w)) w,
           SeqAwait i previous_result)
      end
  end.

Definition execute_sequential_resume (i : nat) (previous_result : Value)
    (w : WorkflowStatus) : option (WorkflowStatus * Strategy) :=
  match tasks workflow_request !! i, ws_tasks w !! i with
  | Some task_def, Some task_status =>
      let '(task_status', result) :=
        execute_task_finish task_status task_def previous_result in
      Some (set_ws_tasks (<[i := task_status']> (ws_tasks w)) w,
            if bool_decide (ts_status task_status' = Failed)
               && negb (bool_decide (agent_role task_def = "qa"))
            then Returned
            else SeqLoop (S i) result)
  | _, _ => None
  end.

(** A coroutine of [execute_parallel]: [execute_task(workflow.tasks[i],
    task_def, None)]. *)
Definition execute_parallel_coroutine (i : nat) (coros : list Coroutine)
    (w : WorkflowStatus) : option (WorkflowStatus * Strategy) :=
  match coros !! i, tasks workflow_request !! i, ws_tasks w !! i with
  | Some Created, Some task_def, Some task_status =>
      Some (set_ws_tasks (<[i := execute_task_start task_status]> (ws_tasks w)) w,
            ParGather (<[i := Executing VNone]> coros))
  | Some (Executing context), Some task_def, Some task_status =>
      let '(task_status', result) :=
        execute_task_finish task_status task_def context in
      Some (set_ws_tasks (<[i := task_status']> (ws_tasks w)) w,
            ParGather (<[i := Done result]> coros))
  | _, _, _ => None
  end.

(** [execute_with_deps] from line 295: index the record, then enter
    [execute_task] and run to its first [await]. *)
Definition call_execute_task (i : nat) (context : Value)
    (w : WorkflowStatus) : WorkflowStatus * Coroutine :=
  match ws_tasks w !! i with
  | None => (w, Faulted IndexError)
  | Some task_status =>
      (set_ws_tasks (<[i := execute_task_start task_status]> (ws_tasks w)) w,
       Executing context)
  end.

(** A coroutine [execute_with_deps(task_def, i)] of [execute_graph]. *)
Definition execute_with_deps (i : nat) (coros : list Coroutine)
    (completed_tasks : gmap string Value) (task_events : gmap string bool)
    (w : WorkflowStatus) : option (WorkflowStatus * Strategy) :=
  match coros !! i, tasks workflow_request !! i with
  | Some Created, Some task_def =>
      match depends_on task_def with
      | [] =>
          let '(w', c) := call_execute_task i VNone w in
          Some (w', GraphGather (<[i := c]> coros) completed_tasks task_events)
      | _ :: _ =>
          match lookup_events task_events (depends_on task_def) with
          | inl e =>
              Some (w, GraphGather (<[i := Faulted e]> coros)
                         completed_tasks task_events)
          | inr _ =>
              Some (w, GraphGather (<[i := Waiting]> coros)
                         completed_tasks task_events)
          end
      end
  | Some Waiting, Some task_def =>
      match lookup_events task_events (depends_on task_def) with
      | inr flags =>
          if forallb id flags then
            match dep_results completed_tasks (depends_on task_def) ∅ with
            | inl e =>
                Some (w, GraphGather (<[i := Faulted e]> coros)
                           completed_tasks task_events)
            | inr d =>
                let '(w', c) := call_execute_task i (VDict d) w in
                Some (w', GraphGather (<[i := c]> coros)
                            completed_tasks task_events)
            end
          else None
      | inl _ => None
      end
  | Some (Executing context), Some task_def =>
      match ws_tasks w !! i with
      | Some task_status =>
          let '(task_status', result) :=
            execute_task_finish task_status task_def context in
          Some (set_ws_tasks (<[i := task_status']> (ws_tasks w)) w,
                GraphGather (<[i := Done result]> coros)
                  (<[agent_id task_def := result]> completed_tasks)
                  (<[agent_id task_def := true]> task_events))
      | None => None
      end
  | _, _ => None
  end.

(** [execute_workflow]: one transition.  [pick] is the coroutine the
    event loop resumes; outside a gather it is not looked at.  [None]:
    nothing can run (the job has ended, or [pick] is blocked). *)
Definition step (pick : nat) (m : Machine) : option Machine :=
  let w := workflow m in
  match phase m with
  | Queued =>
      let w' := set_ws_status WfRunning w in
      Some (mkMachine w' (Trying (enter_strategy w')))
  | Trying (SeqLoop i previous_result) =>
      let '(w', s) := execute_sequential_loop i previous_result w in
      Some (mkMachine w' (Trying s))
  | Trying (SeqAwait i previous_result) =>
      '(w', s) ← execute_sequential_resume i previous_result w;
      Some (mkMachine w' (Trying s))
  | Trying (ParGather coros) =>
      if forallb finished coros then Some (mkMachine w (Trying Returned))
      else
        '(w', s) ← execute_parallel_coroutine pick coros w;
        Some (mkMachine w' (Trying s))
  | Trying (GraphGather coros completed_tasks task_events) =>
      if forallb finished coros then Some (mkMachine w (Trying Returned))
      else
        '(w', s) ← execute_with_deps pick coros completed_tasks task_events w;
        Some (mkMachine w' (Trying s))
  | Trying Returned => Some (mkMachine (aggregate w) Finished)
  | Trying (Raised e) => Some (mkMachine (handle_exception e w) Finished)
  | Finished => None
  end.

(** The job under a given schedule: the picks are consumed one per
    transition, and a pick that cannot run is skipped. *)
Fixpoint run (schedule : list nat) (m : Machine) : Machine :=
  match schedule with
  | [] => m
  | pick :: schedule =>
      match step pick m with
      | Some m' => run schedule m'
      | None => run schedule m
      end
  end.

(** [execute_workflow(workflow_id, workflow_request)]: the job takes the
    record out of the store (a missing id raises before the [try], out of
    the job) and runs on it as the event loop schedules it. *)
Definition execute_workflow (workflows_store : Store) (wid : string)
    (schedule : list nat) : Exn + Machine :=
  match workflows_store !! wid with
  | None => inl (KeyError wid)
  | Some w => inr (run schedule (mkMachine w Queued))
  end.

End Engine.

(** The placeholder body of [execute_task]'s [try] in the source (lines
    337-351): it sleeps and builds a success record.  [now] is the
    [datetime.utcnow().isoformat()] of the moment. *)
Definition mock_agent (now : string) (task_def : AgentTask) (context : Value)
    : Value + string :=
  inl (VDict (list_to_map [
    ("agent_id", VStr (agent_id task_def));
    ("agent_role", VStr (agent_role task_def));
    ("input", input_data task_def);
    ("context", context);
    ("output", VDict (list_to_map [
       ("success", VBool true);
       ("message", VStr (agent_role task_def +:+ " agent completed successfully"));
       ("timestamp", VStr now)]))])).

(** An agent bridge on which the calls to the agents listed in [down]
    raise, and every other call behaves as the placeholder. *)
Definition flaky_agent (down : list string) (now : string)
    (task_def : AgentTask) (context : Value) : Value + string :=
  if bool_decide (agent_id task_def ∈ down) then inr "agent unreachable"
  else mock_agent now task_def context.

(** The job as queued by [run_graph]. *)
Definition job (w : WorkflowStatus) : Machine := mkMachine w Queued.

Definition statuses (m : Machine) : list TaskState :=
  ts_status <$> ws_tasks (workflow m).

Definition terminal (s : TaskState) : Prop := s = Completed ∨ s = Failed.

(** The context task [i] is executing with, while it is inside
    [execute_task] under a gather. *)
Definition context_of (m : Machine) (i : nat) : option Value :=
  match phase m with
  | Trying (ParGather coros) | Trying (GraphGather coros _ _) =>
      match coros !! i with
      | Some (Executing context) => Some context
      | _ => None
      end
  | _ => None
  end.

(** How far a coroutine has got. *)
Definition progress (c : Coroutine) : nat :=
  match c with
  | Created => 0
  | Waiting => 1
  | Executing _ => 2
  | Done _ | Faulted _ => 3
  end.

(** The coroutines and events of [execute_graph], while it is in its
    gather. *)
Definition graph_coroutines (m : Machine) : option (list Coroutine) :=
  match phase m with
  | Trying (GraphGather coros _ _) => Some coros
  | _ => None
  end.

Definition graph_events (m : Machine) : option (gmap string bool) :=
  match phase m with
  | Trying (GraphGather _ _ task_events) => Some task_events
  | _ => None
  end.

(** A record list as [run_graph] builds it: every task pending. *)
Definition pristine (w : WorkflowStatus) : Prop :=
  Forall (λ t, ts_status t = Pending) (ws_tasks w).

(** The job started on record [w0] with request [request], after the
    event loop has followed [schedule]. *)
Definition execution (run_agent : AgentTask → Value → Value + string)
    (request : WorkflowRequest) (w0 : WorkflowStatus) (schedule : list nat)
    : Machine :=
  run run_agent request schedule (job w0).

(** ** The Swarms graph executor

    [WorkflowBuilder.execute_graph_workflow] of [swarms_integration.py]
    is a second dependency-driven executor.  [execute_workflow] never
    calls it; it is modelled for contrast with [execute_graph], down to
    its wait loop (lines 200-203).  What follows the wait in a coroutine
    (lines 205-225: the agent is made, its input text is assembled from
    the task and the results of its dependencies, and the agent is run)
    is the function [run_task]; [inr msg] is an exception raised there.
    The outer gather is not modelled. *)

Inductive Poller : Type :=
  | PollCreated                 (* made, not yet run *)
  | PollSleeping                (* in [asyncio.sleep(0.1)] of the loop *)
  | PollDone (result : string)
  | PollFaulted (msg : string).

Record SwarmsState : Type := mkSwarmsState {
  sw_coros : list Poller;
  sw_results : gmap string string
}.

(** [all(dep_id in results for dep_id in task["depends_on"])]. *)
Definition dependencies_met (results : gmap string string)
    (deps : list string) : bool :=
  forallb (λ dep_id, bool_decide (is_Some (results !! dep_id))) deps.

(** One stretch of a coroutine [execute_with_deps(task)] of the Swarms
    executor: the loop test, then either one sleep or the rest of the
    body. *)
Definition swarms_step
    (run_task : AgentTask → gmap string string → string + string)
    (defs : list AgentTask) (i : nat) (s : SwarmsState) : option SwarmsState :=
  match sw_coros s !! i, defs !! i with
  | Some PollCreated, Some task_def | Some PollSleeping, Some task_def =>
      match depends_on task_def with
      | _ :: _ =>
          if negb (dependencies_met (sw_results s) (depends_on task_def))
          then Some (mkSwarmsState (<[i := PollSleeping]> (sw_coros s))
                       (sw_results s))
          else
            match run_task task_def (sw_results s) with
            | inl result =>
                Some (mkSwarmsState (<[i := PollDone result]> (sw_coros s))
                        (<[agent_id task_def := result]> (sw_results s)))
            | inr msg =>
                Some (mkSwarmsState (<[i := PollFaulted msg]> (sw_coros s))
                        (sw_results s))
            end
      | [] =>
          match run_task task_def (sw_results s) with
          | inl result =>
              Some (mkSwarmsState (<[i := PollDone result]> (sw_coros s))
                      (<[agent_id task_def := result]> (sw_results s)))
          | inr msg =>
              Some (mkSwarmsState (<[i := PollFaulted msg]> (sw_coros s))
                      (sw_results s))
          end
      end
  | _, _ => None
  end.

(** ** Example workflows *)

Definition task (id role : string) (deps : list string) : AgentTask :=
  mkAgentTask id role (VDict ∅) deps.

Definition workflow_of (ty : WorkflowType) (defs : list AgentTask)
    : WorkflowRequest :=
  mkWorkflowRequest (Some "wf") ty defs (VDict ∅).

(** The record [run_graph] stores for a request, in an empty store. *)
Definition submitted (request : WorkflowRequest) : WorkflowStatus :=
  (run_graph ∅ request "3f2b8c1e-7a4d-4e9b-9c56-0d1e2f3a4b5c").1.1.

(** The store after [first] and then [second] have been submitted, before
    either job has started. *)
Definition resubmitted (first second : WorkflowRequest) : Store :=
  (run_graph (run_graph ∅ first "6d0f2a9c-51be-4c3d-8e77-a1b2c3d4e5f6").1.2
     second "0b7e4d2f-93a8-4f61-b5c4-f6e5d4c3b2a1").1.2.

(** ** Invariants of one execution

    [w0] is the record as the job found it in the store, [request] the
    request the job was queued with. *)

(** A failed task that the sequential loop went past had the QA role. *)
Definition qa_if_failed (defs : list AgentTask) (j : nat) (t : TaskStatus) : Prop :=
  ts_status t = Failed →
  ∃ task_def, defs !! j = Some task_def ∧ agent_role task_def = "qa".

(** Behind a failed task whose role is not QA, every record is as it was
    before the job started. *)
Definition halted_after_failure (defs : list AgentTask)
    (recs0 recs : list TaskStatus) : Prop :=
  ∀ k task_def t,
    defs !! k = Some task_def → recs !! k = Some t →
    ts_status t = Failed → agent_role task_def ≠ "qa" →
    ∀ j, k < j → recs !! j = recs0 !! j.

Definition sequential_inv (request : WorkflowRequest) (w0 : WorkflowStatus)
    (m : Machine) : Prop :=
  let defs := tasks request in
  let recs := ws_tasks (workflow m) in
  let recs0 := ws_tasks w0 in
  match phase m with
  | Queued => recs = recs0
  | Trying (SeqLoop i _) =>
      (∀ j t, j < i → recs !! j = Some t →
         terminal (ts_status t) ∧ qa_if_failed defs j t) ∧
      (∀ j, i ≤ j → recs !! j = recs0 !! j)
  | Trying (SeqAwait i _) =>
      (∀ j t, j < i → recs !! j = Some t →
         terminal (ts_status t) ∧ qa_if_failed defs j t) ∧
      (∃ t, recs !! i = Some t ∧ ts_status t = Running) ∧
      (∀ j, i < j → recs !! j = recs0 !! j)
  | Trying Returned | Finished => halted_after_failure defs recs0 recs
  | Trying (Raised _) =>
      halted_after_failure defs recs0 recs ∧
      (∀ t, t ∈ recs → terminal (ts_status t))
  | Trying (ParGather _) | Trying (GraphGather _ _ _) => False
  end.

(** A coroutine that has entered [execute_task]. *)
Definition started (c : Coroutine) : Prop :=
  match c with
  | Executing _ | Done _ => True
  | _ => False
  end.

(** What a coroutine's control point says about the record it owns:
    [t0] is the record before the job started, [t] the record now. *)
Definition agrees (c : Coroutine) (t0 t : TaskStatus) : Prop :=
  match c with
  | Created | Waiting | Faulted _ => t = t0
  | Executing _ => ts_status t = Running
  | Done v =>
      (ts_status t = Completed ∧ ts_result t = v) ∨
      (ts_status t = Failed ∧ v = VNone)
  end.

Definition tracks (coros : list Coroutine) (recs0 recs : list TaskStatus) : Prop :=
  ∀ j t, recs !! j = Some t →
    ∃ t0, recs0 !! j = Some t0 ∧
      match coros !! j with
      | Some c => agrees c t0 t
      | None => t = t0
      end.

Definition parallel_inv (request : WorkflowRequest) (w0 : WorkflowStatus)
    (m : Machine) : Prop :=
  let defs := tasks request in
  let recs := ws_tasks (workflow m) in
  let recs0 := ws_tasks w0 in
  match phase m with
  | Queued => recs = recs0
  | Trying (ParGather coros) =>
      length coros = length defs ∧ tracks coros recs0 recs
  | Trying Returned | Trying (Raised _) | Finished => True
  | _ => False
  end.

(** The context handed to [execute_task] by [execute_with_deps]: [None]
    without dependencies, else a dict with one entry per dependency, each
    the value some finished task of that agent id returned. *)
Definition context_from (defs : list AgentTask) (coros : list Coroutine)
    (task_def : AgentTask) (context : Value) : Prop :=
  match depends_on task_def with
  | [] => context = VNone
  | _ :: _ =>
      ∃ d, context = VDict d ∧
        (∀ dep_id, dep_id ∈ depends_on task_def → is_Some (d !! dep_id)) ∧
        (∀ dep_id v, d !! dep_id = Some v →
           ∃ j dep_def, defs !! j = Some dep_def ∧ agent_id dep_def = dep_id ∧
             coros !! j = Some (Done v))
  end.

(** A task that names a dependency no task of the request carries. *)
Definition dangling (defs : list AgentTask) (task_def : AgentTask) : Prop :=
  ∃ dep_id, dep_id ∈ depends_on task_def ∧ dep_id ∉ agent_id <$> defs.

Definition graph_inv (request : WorkflowRequest) (w0 : WorkflowStatus)
    (m : Machine) : Prop :=
  let defs := tasks request in
  let recs := ws_tasks (workflow m) in
  let recs0 := ws_tasks w0 in
  match phase m with
  | Queued => recs = recs0
  | Trying (GraphGather coros completed_tasks task_events) =>
      length coros = length defs ∧
      tracks coros recs0 recs ∧
      (∀ j c, coros !! j = Some c → started c → is_Some (recs !! j)) ∧
      (∀ dep_id, is_Some (task_events !! dep_id) ↔ dep_id ∈ agent_id <$> defs) ∧
      (∀ dep_id, task_events !! dep_id = Some true →
         is_Some (completed_tasks !! dep_id)) ∧
      (∀ dep_id v, completed_tasks !! dep_id = Some v →
         ∃ j dep_def, defs !! j = Some dep_def ∧ agent_id dep_def = dep_id ∧
           coros !! j = Some (Done v)) ∧
      (∀ j task_def c, defs !! j = Some task_def → coros !! j = Some c →
         started c →
         ∀ dep_id, dep_id ∈ depends_on task_def →
           task_events !! dep_id = Some true) ∧
      (∀ j task_def, defs !! j = Some task_def → coros !! j = Some Waiting →
         depends_on task_def ≠ [] ∧
         ∀ dep_id, dep_id ∈ depends_on task_def →
           is_Some (task_events !! dep_id)) ∧
      (∀ j task_def context, defs !! j = Some task_def →
         coros !! j = Some (Executing context) →
         context_from defs coros task_def context)
  | Trying Returned | Finished =>
      ∀ j task_def, defs !! j = Some task_def → dangling defs task_def →
        recs !! j = recs0 !! j
  | _ => False
  end.

(** Inside the [try] the workflow is marked running. *)
Definition running_inv (m : Machine) : Prop :=
  match phase m with
  | Trying _ => ws_status (workflow m) = WfRunning
  | _ => True
  end.

Definition inv (request : WorkflowRequest) (w0 : WorkflowStatus)
    (m : Machine) : Prop :=
  running_inv m ∧
  length (ws_tasks (workflow m)) = length (ws_tasks w0) ∧
  match workflow_type request with
  | Sequential => sequential_inv request w0 m
  | Parallel => parallel_inv request w0 m
  | Graph => graph_inv request w0 m
  end.


(** ** The count of [health_check] *)

(** [health_check]: the [active_workflows] entry of its response. *)
Definition health_check (workflows_store : Store) : nat :=
  size workflows_store.

(** ** The transitions of [step], one rule per case

    [Transition run_agent request pick m m'] lists what [step] does,
    case by case; [step_Transition] below shows that every transition of
    [step] is one of these. *)
Inductive Transition (run_agent : AgentTask → Value → Value + string)
    (request : WorkflowRequest) (pick : nat) : Machine → Machine → Prop :=
  | T_start w :
      Transition run_agent request pick
        (mkMachine w Queued)
        (mkMachine (set_ws_status WfRunning w)
           (Trying (enter_strategy request (set_ws_status WfRunning w))))
  | T_seq_exhausted w i previous_result :
      tasks request !! i = None →
      Transition run_agent request pick
        (mkMachine w (Trying (SeqLoop i previous_result)))
        (mkMachine w (Trying Returned))
  | T_seq_index_error w i previous_result task_def :
      tasks request !! i = Some task_def →
      ws_tasks w !! i = None →
      Transition run_agent request pick
        (mkMachine w (Trying (SeqLoop i previous_result)))
        (mkMachine w (Trying (Raised IndexError)))
  | T_seq_call w i previous_result task_def t :
      tasks request !! i = Some task_def →
      ws_tasks w !! i = Some t →
      Transition run_agent request pick
        (mkMachine w (Trying (SeqLoop i previous_result)))
        (mkMachine (set_ws_tasks (<[i := execute_task_start t]> (ws_tasks w)) w)
           (Trying (SeqAwait i previous_result)))
  | T_seq_return w i previous_result task_def t t' result :
      tasks request !! i = Some task_def →
      ws_tasks w !! i = Some t →
      execute_task_finish run_agent t task_def previous_result = (t', result) →
      Transition run_agent request pick
        (mkMachine w (Trying (SeqAwait i previous_result)))
        (mkMachine (set_ws_tasks (<[i := t']> (ws_tasks w)) w)
           (Trying (if bool_decide (ts_status t' = Failed)
                       && negb (bool_decide (agent_role task_def = "qa"))
                    then Returned else SeqLoop (S i) result)))
  | T_par_join w coros :
      forallb finished coros = true →
      Transition run_agent request pick
        (mkMachine w (Trying (ParGather coros)))
        (mkMachine w (Trying Returned))
  | T_par_call w coros task_def t :
      forallb finished coros = false →
      coros !! pick = Some Created →
      tasks request !! pick = Some task_def →
      ws_tasks w !! pick = Some t →
      Transition run_agent request pick
        (mkMachine w (Trying (ParGather coros)))
        (mkMachine
           (set_ws_tasks (<[pick := execute_task_start t]> (ws_tasks w)) w)
           (Trying (ParGather (<[pick := Executing VNone]> coros))))
  | T_par_return w coros context task_def t t' result :
      forallb finished coros = false →
      coros !! pick = Some (Executing context) →
      tasks request !! pick = Some task_def →
      ws_tasks w !! pick = Some t →
      execute_task_finish run_agent t task_def context = (t', result) →
      Transition run_agent request pick
        (mkMachine w (Trying (ParGather coros)))
        (mkMachine (set_ws_tasks (<[pick := t']> (ws_tasks w)) w)
           (Trying (ParGather (<[pick := Done result]> coros))))
  | T_graph_join w coros completed_tasks task_events :
      forallb finished coros = true →
      Transition run_agent request pick
        (mkMachine w (Trying (GraphGather coros completed_tasks task_events)))
        (mkMachine w (Trying Returned))
  | T_graph_call_free w coros completed_tasks task_events task_def t :
      forallb finished coros = false →
      coros !! pick = Some Created →
      tasks request !! pick = Some task_def →
      depends_on task_def = [] →
      ws_tasks w !! pick = Some t →
      Transition run_agent request pick
        (mkMachine w (Trying (GraphGather coros completed_tasks task_events)))
        (mkMachine
           (set_ws_tasks (<[pick := execute_task_start t]> (ws_tasks w)) w)
           (Trying (GraphGather (<[pick := Executing VNone]> coros)
                      completed_tasks task_events)))
  | T_graph_fault w coros completed_tasks task_events c task_def e :
      forallb finished coros = false →
      coros !! pick = Some c →
      tasks request !! pick = Some task_def →
      (c = Created ∧ depends_on task_def = [] ∧ ws_tasks w !! pick = None ∧
       e = IndexError) ∨
      (c = Created ∧ depends_on task_def ≠ [] ∧
       lookup_events task_events (depends_on task_def) = inl e) ∨
      (c = Waiting ∧
       (∀ dep_id, dep_id ∈ depends_on task_def →
          task_events !! dep_id = Some true) ∧
       dep_results completed_tasks (depends_on task_def) ∅ = inl e) ∨
      (c = Waiting ∧
       (∀ dep_id, dep_id ∈ depends_on task_def →
          task_events !! dep_id = Some true) ∧
       (∃ d, dep_results completed_tasks (depends_on task_def) ∅ = inr d) ∧
       ws_tasks w !! pick = None ∧ e = IndexError) →
      Transition run_agent request pick
        (mkMachine w (Trying (GraphGather coros completed_tasks task_events)))
        (mkMachine w
           (Trying (GraphGather (<[pick := Faulted e]> coros)
                      completed_tasks task_events)))
  | T_graph_wait w coros completed_tasks task_events task_def flags :
      forallb finished coros = false →
      coros !! pick = Some Created →
      tasks request !! pick = Some task_def →
      depends_on task_def ≠ [] →
      lookup_events task_events (depends_on task_def) = inr flags →
      Transition run_agent request pick
        (mkMachine w (Trying (GraphGather coros completed_tasks task_events)))
        (mkMachine w
           (Trying (GraphGather (<[pick := Waiting]> coros)
                      completed_tasks task_events)))
  | T_graph_call w coros completed_tasks task_events task_def d t :
      forallb finished coros = false →
      coros !! pick = Some Waiting →
      tasks request !! pick = Some task_def →
      (∀ dep_id, dep_id ∈ depends_on task_def →
         task_events !! dep_id = Some true) →
      dep_results completed_tasks (depends_on task_def) ∅ = inr d →
      ws_tasks w !! pick = Some t →
      Transition run_agent request pick
        (mkMachine w (Trying (GraphGather coros completed_tasks task_events)))
        (mkMachine
           (set_ws_tasks (<[pick := execute_task_start t]> (ws_tasks w)) w)
           (Trying (GraphGather (<[pick := Executing (VDict d)]> coros)
                      completed_tasks task_events)))
  | T_graph_return w coros completed_tasks task_events context task_def
      t t' result :
      forallb finished coros = false →
      coros !! pick = Some (Executing context) →
      tasks request !! pick = Some task_def →
      ws_tasks w !! pick = Some t →
      execute_task_finish run_agent t task_def context = (t', result) →
      Transition run_agent request pick
        (mkMachine w (Trying (GraphGather coros completed_tasks task_events)))
        (mkMachine (set_ws_tasks (<[pick := t']> (ws_tasks w)) w)
           (Trying (GraphGather (<[pick := Done result]> coros)
                      (<[agent_id task_def := result]> completed_tasks)
                      (<[agent_id task_def := true]> task_events))))
  | T_aggregate w :
      Transition run_agent request pick
        (mkMachine w (Trying Returned))
        (mkMachine (aggregate w) Finished)
  | T_handle w e :
      Transition run_agent request pick
        (mkMachine w (Trying (Raised e)))
        (mkMachine (handle_exception e w) Finished).

(** An upper bound on the transitions the job still has to make: two per
    remaining task of the sequential loop, three minus its progress for
    each coroutine of a gather, one for the end of the job. *)
Definition remaining (request : WorkflowRequest) (m : Machine) : nat :=
  let n := length (tasks request) in
  match phase m with
  | Queued =>
      match workflow_type request with
      | Sequential => 2 * n + 3
      | Parallel | Graph => 3 * n + 3
      end
  | Trying (SeqLoop i _) => 2 * (n - i) + 2
  | Trying (SeqAwait i _) => 2 * (n - i) + 1
  | Trying (ParGather coros) | Trying (GraphGather coros _ _) =>
      sum_list_with (λ c, 3 - progress c) coros + 2
  | Trying Returned | Trying (Raised _) => 1
  | Finished => 0
  end.

(** The picks of a schedule that did run. *)
Fixpoint transitions (run_agent : AgentTask → Value → Value + string)
    (request : WorkflowRequest) (schedule : list nat) (m : Machine) : nat :=
  match schedule with
  | [] => 0
  | pick :: schedule =>
      match step run_agent request pick m with
      | Some m' => S (transitions run_agent request schedule m')
      | None => transitions run_agent request schedule m
      end
  end.

(** What the sequential loop hands to task [i] as context: nothing to the
    first task, else what the task before it returned. *)
Definition chained (recs : list TaskStatus) (i : nat) (previous_result : Value)
    : Prop :=
  match i with
  | 0 => previous_result = VNone
  | S k =>
      ∃ t, recs !! k = Some t ∧
        ((ts_status t = Completed ∧ previous_result = ts_result t) ∨
         (ts_status t = Failed ∧ previous_result = VNone))
  end.



(** The record says what the agent answered to [context]. *)
Definition outcome_of (run_agent : AgentTask → Value → Value + string)
    (task_def : AgentTask) (context : Value) (t : TaskStatus) : Prop :=
  match run_agent task_def context with
  | inl result => ts_status t = Completed ∧ ts_result t = result
  | inr msg => ts_status t = Failed ∧ ts_error t = Some msg
  end.

(** Parallel mode on a record that has a task for every task of the
    request: every coroutine is made, executing with no context, or done
    with its own agent's answer in its record; after the gather every
    task has that answer in its record. *)
Definition parallel_outcomes (run_agent : AgentTask → Value → Value + string)
    (request : WorkflowRequest) (m : Machine) : Prop :=
  let defs := tasks request in
  let recs := ws_tasks (workflow m) in
  match phase m with
  | Trying (ParGather coros) =>
      length defs ≤ length recs ∧
      ∀ i c, coros !! i = Some c →
        match c with
        | Created => True
        | Executing context => context = VNone
        | Done _ =>
            ∃ task_def t, defs !! i = Some task_def ∧ recs !! i = Some t ∧
                          outcome_of run_agent task_def VNone t
        | Waiting | Faulted _ => False
        end
  | Trying Returned | Finished =>
      ∀ i task_def, defs !! i = Some task_def →
        ∃ t, recs !! i = Some t ∧ outcome_of run_agent task_def VNone t
  | Trying (Raised _) => False
  | _ => True
  end.

(** Graph mode: a coroutine that has returned has set its event. *)
Definition fired_when_done (request : WorkflowRequest) (m : Machine) : Prop :=
  match phase m with
  | Trying (GraphGather coros _ task_events) =>
      ∀ i task_def v,
        tasks request !! i = Some task_def → coros !! i = Some (Done v) →
        task_events !! agent_id task_def = Some true
  | _ => True
  end.

(** Every dependency the task declares is the agent id of some task. *)
Definition resolvable (defs : list AgentTask) (task_def : AgentTask) : Prop :=
  ∀ dep_id, dep_id ∈ depends_on task_def → dep_id ∈ agent_id <$> defs.

(** A set of agent ids that keep each other waiting: every task carrying
    one of them declares a dependency that is in the set or that no task
    carries. *)
Definition blocked_closed (defs : list AgentTask) (blocked : gset string)
    : Prop :=
  ∀ j task_def,
    defs !! j = Some task_def → agent_id task_def ∈ blocked →
    ∃ dep_id, dep_id ∈ depends_on task_def ∧
              (dep_id ∈ blocked ∨ dep_id ∉ agent_id <$> defs).

Definition blocked_inv (request : WorkflowRequest) (w0 : WorkflowStatus)
    (blocked : gset string) (m : Machine) : Prop :=
  let defs := tasks request in
  match phase m with
  | Queued => True
  | Trying (GraphGather coros _ task_events) =>
      (∀ dep_id, dep_id ∈ blocked → task_events !! dep_id ≠ Some true) ∧
      (∀ j task_def c,
         defs !! j = Some task_def → agent_id task_def ∈ blocked →
         coros !! j = Some c →
         ¬ started c ∧
         (resolvable defs task_def → c = Created ∨ c = Waiting))
  | Trying Returned | Finished =>
      ∀ j task_def,
        defs !! j = Some task_def → agent_id task_def ∈ blocked →
        ¬ resolvable defs task_def ∧
        ws_tasks (workflow m) !! j = ws_tasks w0 !! j
  | _ => False
  end.

(** A request whose dependencies all resolve and follow a ranking of the
    agent ids: every task depends only on ids of lower rank. *)
Definition well_founded_graph (defs : list AgentTask) (rank : string → nat)
    : Prop :=
  ∀ j task_def,
    defs !! j = Some task_def →
    resolvable defs task_def ∧
    ∀ dep_id, dep_id ∈ depends_on task_def →
      rank dep_id < rank (agent_id task_def).

Definition graph_live (request : WorkflowRequest) (m : Machine) : Prop :=
  let defs := tasks request in
  let recs := ws_tasks (workflow m) in
  match phase m with
  | Trying (GraphGather coros _ _) =>
      length defs ≤ length recs ∧
      ∀ i c, coros !! i = Some c → ∀ e, c ≠ Faulted e
  | Trying Returned | Finished =>
      ∀ i task_def, defs !! i = Some task_def →
        ∃ t, recs !! i = Some t ∧ terminal (ts_status t)
  | _ => True
  end.

(** ** Runs of the Swarms graph executor *)

(** [results = {}] and the coroutines made for the gather (lines 195 and
    229), none of them run yet. *)
Definition swarms_initial (defs : list AgentTask) : SwarmsState :=
  mkSwarmsState (replicate (length defs) PollCreated) ∅.

(** The event loop resumes the coroutines in the order of the schedule;
    a pick that names no coroutine, or one that has ended, is skipped. *)
Fixpoint swarms_run
    (run_task : AgentTask → gmap string string → string + string)
    (defs : list AgentTask) (schedule : list nat) (s : SwarmsState)
    : SwarmsState :=
  match schedule with
  | [] => s
  | i :: schedule =>
      match swarms_step run_task defs i s with
      | Some s' => swarms_run run_task defs schedule s'
      | None => swarms_run run_task defs schedule s
      end
  end.

(** A coroutine of the Swarms executor that is past its wait loop. *)
Definition poll_ended (c : Poller) : Prop :=
  match c with
  | PollDone _ | PollFaulted _ => True
  | PollCreated | PollSleeping => False
  end.

Definition swarms_inv (defs : list AgentTask) (s : SwarmsState) : Prop :=
  length (sw_coros s) = length defs ∧
  (∀ dep_id v, sw_results s !! dep_id = Some v →
     ∃ j dep_def, defs !! j = Some dep_def ∧ agent_id dep_def = dep_id ∧
                  sw_coros s !! j = Some (PollDone v)) ∧
  (∀ j task_def c, defs !! j = Some task_def → sw_coros s !! j = Some c →
     poll_ended c →
     ∀ dep_id, dep_id ∈ depends_on task_def →
       is_Some (sw_results s !! dep_id)).

(** A set of agent ids of which no result is ever recorded: every task
    carrying one of them declares a dependency that is in the set or that
    no task carries, or its agent raises whatever it is given. *)
Definition swarms_blocked
    (run_task : AgentTask → gmap string string → string + string)
    (defs : list AgentTask) (blocked : gset string) : Prop :=
  ∀ j task_def,
    defs !! j = Some task_def → agent_id task_def ∈ blocked →
    (∃ dep_id, dep_id ∈ depends_on task_def ∧
               (dep_id ∈ blocked ∨ dep_id ∉ agent_id <$> defs)) ∨
    (∀ results, ∃ msg, run_task task_def results = inr msg).

(** ** The listing endpoint

    [list_workflows] reads [created_at], which the records above leave
    out, and the order of the dict's values, which a finite map leaves
    out: it is modelled on [list(workflows_store.values())], given as a
    list in the dict's order, each record with its [created_at]. *)

(** The strings of the [Literal] of [WorkflowStatus.status]. *)
Definition status_name (s : WorkflowState) : string :=
  match s with
  | WfPending => "pending"
  | WfRunning => "running"
  | WfCompleted => "completed"
  | WfFailed => "failed"
  | WfPartial => "partial"
  end.

Abbreviation Stamped := (Z * WorkflowStatus)%type.

(** [workflows.sort(key=lambda w: w.created_at, reverse=True)]: Python's
    sort is stable, also with [reverse=True]; the newest comes first and
    records of equal [created_at] keep their order. *)
Fixpoint insert_newest (x : Stamped) (l : list Stamped) : list Stamped :=
  match l with
  | [] => [x]
  | y :: l' =>
      if decide (y.1 ≤ x.1)%Z then x :: y :: l' else y :: insert_newest x l'
  end.

Definition sort_newest_first (l : list Stamped) : list Stamped :=
  foldr insert_newest [] l.

(** The slice [l[:limit]]: a negative [limit] counts from the end. *)
Definition slice_to {A} (l : list A) (limit : Z) : list A :=
  if decide (0 ≤ limit)%Z then take (Z.to_nat limit) l
  else take (length l - Z.to_nat (- limit)) l.

(** [if status:] is false for [None] and for the empty string. *)
Definition status_filter (status : option string) (l : list Stamped)
    : list Stamped :=
  match status with
  | Some s =>
      if decide (s = "") then l
      else filter (λ w, status_name (ws_status w.2) = s) l
  | None => l
  end.

Definition list_workflows (workflows : list Stamped) (status : option string)
    (limit : Z) : list Stamped :=
  slice_to (sort_newest_first (status_filter status workflows)) limit.

(** Newest first. *)
Definition newest_first : relation Stamped := λ a b, (b.1 ≤ a.1)%Z.

(** A stand-in for the body of a Swarms coroutine behind its wait (lines
    205-225): the agent answers with its role, and the calls to the
    agents listed in [down] raise. *)
Definition echo_task (down : list string) (task_def : AgentTask)
    (results : gmap string string) : string + string :=
  if bool_decide (agent_id task_def ∈ down) then inr "agent unreachable"
  else inl (agent_role task_def).

(** A ranking for requests over the agent ids A, B, C, ... : the code of
    the id's first character. *)
Definition rank_by_letter (id : string) : nat :=
  match id with
  | String c _ => Ascii.nat_of_ascii c
  | EmptyString => 0
  end.


(** One transition of the sequential loop on explicit task lists: [Hmode]
    and [Hdefs] give the request's mode and tasks, [H1] and [H2] the
    outcomes of the agent calls, [Hrole] the role the halt test reads. *)
Ltac sequential_step Hmode Hdefs H1 H2 Hrole :=
  unfold step, enter_strategy, execute_sequential_loop, execute_sequential_resume,
    execute_task_finish;
  simpl; rewrite ?Hmode, ?Hdefs; simpl; rewrite ?H1, ?H2; simpl;
  first [ rewrite (bool_decide_eq_false_2 _ Hrole)
        | rewrite (bool_decide_eq_true_2 _ Hrole)
        | idtac ];
  simpl; reflexivity.

(** * Basic facts *)

Lemma ws_tasks_aggregate w : ws_tasks (aggregate w) = ws_tasks w.
Proof.
  unfold aggregate.
  destruct (all_completed _); [done|]. by destruct (any_failed _).
Qed.

Lemma run_graph_pristine store request uuid :
  pristine (run_graph store request uuid).1.1.
Proof.
  unfold pristine, run_graph; simpl.
  generalize (choose_workflow_id request uuid) as wid; intros wid.
  apply Forall_lookup_2. intros i t Hi.
  rewrite list_lookup_imap in Hi.
  destruct (tasks request !! i); simplify_eq/=. done.
Qed.

Lemma pristine_lookup w i t :
  pristine w → ws_tasks w !! i = Some t → ts_status t = Pending.
Proof. intros Hp Hi. exact (Forall_lookup_1 _ _ _ _ Hp Hi). Qed.

Lemma all_completed_spec ts :
  all_completed ts = true ↔ ∀ t, t ∈ ts → ts_status t = Completed.
Proof.
  unfold all_completed. rewrite forallb_forall. split.
  - intros H t Ht. apply list_elem_of_In, H, bool_decide_eq_true in Ht. done.
  - intros H t Ht. apply bool_decide_eq_true, H, list_elem_of_In, Ht.
Qed.

Lemma any_failed_spec ts :
  any_failed ts = true ↔ ∃ t, t ∈ ts ∧ ts_status t = Failed.
Proof.
  unfold any_failed. rewrite existsb_exists. split.
  - intros (t & Ht & Hs). exists t. split; [by apply list_elem_of_In|].
    by apply bool_decide_eq_true in Hs.
  - intros (t & Ht & Hs). exists t. split; [by apply list_elem_of_In|].
    by apply bool_decide_eq_true.
Qed.

Lemma any_completed_spec ts :
  any_completed ts = true ↔ ∃ t, t ∈ ts ∧ ts_status t = Completed.
Proof.
  unfold any_completed. rewrite existsb_exists. split.
  - intros (t & Ht & Hs). exists t. split; [by apply list_elem_of_In|].
    by apply bool_decide_eq_true in Hs.
  - intros (t & Ht & Hs). exists t. split; [by apply list_elem_of_In|].
    by apply bool_decide_eq_true.
Qed.

(** * Events and dependency results *)

Lemma lookup_events_spec (task_events : gmap string bool) deps :
  match lookup_events task_events deps with
  | inl e => ∃ dep_id, e = KeyError dep_id ∧ dep_id ∈ deps ∧
                       task_events !! dep_id = None
  | inr flags => Forall2 (λ dep_id flag, task_events !! dep_id = Some flag) deps flags
  end.
Proof.
  induction deps as [|d deps IH]; simpl; [constructor|].
  destruct (task_events !! d) as [flag|] eqn:Hd.
  - destruct (lookup_events task_events deps) as [e|flags].
    + destruct IH as (dep_id & -> & Hin & Hnone).
      exists dep_id. split_and!; [done| |done]. by apply list_elem_of_further.
    + by constructor.
  - exists d. split_and!; [done| |done]. apply list_elem_of_here.
Qed.

Lemma lookup_events_keys (task_events : gmap string bool) deps flags dep_id :
  lookup_events task_events deps = inr flags →
  dep_id ∈ deps → is_Some (task_events !! dep_id).
Proof.
  intros Hl Hin. pose proof (lookup_events_spec task_events deps) as Hs.
  rewrite Hl in Hs.
  apply list_elem_of_lookup in Hin as [i Hi].
  destruct (Forall2_lookup_l _ _ _ _ _ Hs Hi) as (flag & _ & ->). eauto.
Qed.

Lemma lookup_events_all_set (task_events : gmap string bool) deps flags dep_id :
  lookup_events task_events deps = inr flags →
  forallb id flags = true →
  dep_id ∈ deps → task_events !! dep_id = Some true.
Proof.
  intros Hl Hall Hin. pose proof (lookup_events_spec task_events deps) as Hs.
  rewrite Hl in Hs.
  apply list_elem_of_lookup in Hin as [i Hi].
  destruct (Forall2_lookup_l _ _ _ _ _ Hs Hi) as (flag & Hflag & ->).
  rewrite forallb_forall in Hall.
  assert (flag ∈ flags) as Hf by (apply list_elem_of_lookup; eauto).
  apply list_elem_of_In, Hall in Hf. simpl in Hf. by subst.
Qed.

Lemma lookup_events_set (task_events : gmap string bool) deps :
  (∀ dep_id, dep_id ∈ deps → task_events !! dep_id = Some true) →
  ∃ flags, lookup_events task_events deps = inr flags ∧
           forallb id flags = true.
Proof.
  induction deps as [|d deps IH]; intros Hall; simpl; [by exists []|].
  rewrite (Hall d) by apply list_elem_of_here.
  destruct IH as (flags & -> & Hflags).
  { intros dep_id Hin. apply Hall. by apply list_elem_of_further. }
  exists (true :: flags). split; [done|]. simpl. by rewrite Hflags.
Qed.

Lemma new_task_events_acc defs (acc : gmap string bool) dep_id :
  foldl (λ events task_def, <[agent_id task_def := false]> events) acc defs
    !! dep_id =
  if decide (dep_id ∈ agent_id <$> defs) then Some false else acc !! dep_id.
Proof.
  revert acc. induction defs as [|d defs IH]; intros acc.
  - destruct (decide _) as [Hin|_]; [|done]. by apply elem_of_nil in Hin.
  - cbn [foldl]. rewrite IH, fmap_cons.
    destruct (decide (dep_id ∈ agent_id <$> defs)) as [Hin|Hnin];
      destruct (decide (dep_id ∈ agent_id d :: (agent_id <$> defs)))
        as [Hin'|Hnin']; try done.
    + exfalso. apply Hnin'. by apply list_elem_of_further.
    + apply elem_of_cons in Hin' as [->|?]; [|done].
      by rewrite lookup_insert_eq.
    + rewrite lookup_insert_ne; [done|].
      intros <-. apply Hnin', list_elem_of_here.
Qed.

Lemma new_task_events_lookup defs dep_id :
  new_task_events defs !! dep_id =
  if decide (dep_id ∈ agent_id <$> defs) then Some false else None.
Proof. unfold new_task_events. by rewrite new_task_events_acc, lookup_empty. Qed.

Lemma dep_results_spec (completed_tasks : gmap string Value) deps acc d :
  dep_results completed_tasks deps acc = inr d →
  (∀ dep_id, dep_id ∈ deps ∨ is_Some (acc !! dep_id) → is_Some (d !! dep_id)) ∧
  (∀ dep_id v, d !! dep_id = Some v →
     completed_tasks !! dep_id = Some v ∨ acc !! dep_id = Some v).
Proof.
  revert acc. induction deps as [|dep deps IH]; intros acc; simpl.
  - intros [= <-]. split; [|by auto].
    intros dep_id [Hin|Hs]; [|done]. by apply elem_of_nil in Hin.
  - destruct (completed_tasks !! dep) as [r|] eqn:Hr; [|done].
    intros Hd. destruct (IH _ Hd) as [Hdom Hval]. split.
    + intros dep_id Hor. apply Hdom.
      destruct (decide (dep_id = dep)) as [->|Hne].
      * right. rewrite lookup_insert_eq. eauto.
      * destruct Hor as [Hin|Hs].
        -- left. apply elem_of_cons in Hin as [?|?]; [done|done].
        -- right. by rewrite lookup_insert_ne.
    + intros dep_id v Hv. destruct (Hval _ _ Hv) as [?|Hacc]; [by left|].
      destruct (decide (dep_id = dep)) as [->|Hne].
      * rewrite lookup_insert_eq in Hacc. left. congruence.
      * rewrite lookup_insert_ne in Hacc by done. by right.
Qed.

(** * The invariants hold along every execution *)

Section Invariants.

Variable run_agent : AgentTask → Value → Value + string.
Variable request : WorkflowRequest.
Variable w0 : WorkflowStatus.

Lemma execute_task_finish_terminal t task_def context t' result :
  execute_task_finish run_agent t task_def context = (t', result) →
  (ts_status t' = Completed ∧ ts_result t' = result) ∨
  (ts_status t' = Failed ∧ result = VNone).
Proof.
  unfold execute_task_finish.
  destruct (run_agent task_def context); intros [= <- <-]; auto.
Qed.

Lemma running_inv_step pick m m' :
  running_inv m → step run_agent request pick m = Some m' → running_inv m'.
Proof.
  unfold running_inv, step. intros Hr Hs.
  destruct m as [w ph]; simpl in *.
  destruct ph as [|s|]; [| |done].
  - by simplify_eq/=.
  - destruct s as [i prev|i prev|coros|coros completed events| |e].
    + destruct (execute_sequential_loop _ _ _ _) as [w' s'] eqn:E.
      simplify_eq/=. unfold execute_sequential_loop in E.
      repeat case_match; by simplify_eq/=.
    + destruct (execute_sequential_resume _ _ _ _ _) as [[w' s']|] eqn:E;
        simplify_eq/=. unfold execute_sequential_resume in E.
      repeat case_match; by simplify_eq/=.
    + destruct (forallb finished coros); [by simplify_eq/=|].
      destruct (execute_parallel_coroutine _ _ _ _ _) as [[w' s']|] eqn:E; simplify_eq/=.
      unfold execute_parallel_coroutine in E. repeat case_match; by simplify_eq/=.
    + destruct (forallb finished coros); [by simplify_eq/=|].
      destruct (execute_with_deps _ _ _ _ _ _ _) as [[w' s']|] eqn:E; simplify_eq/=.
      unfold execute_with_deps, call_execute_task in E.
      repeat case_match; by simplify_eq/=.
    + by simplify_eq/=.
    + by simplify_eq/=.
Qed.

Lemma length_step pick m m' :
  step run_agent request pick m = Some m' →
  length (ws_tasks (workflow m')) = length (ws_tasks (workflow m)).
Proof.
  unfold step. intros Hs.
  destruct m as [w ph]; simpl in *.
  destruct ph as [|s|]; [| |done].
  - by simplify_eq/=.
  - destruct s as [i prev|i prev|coros|coros completed events| |e].
    + destruct (execute_sequential_loop _ _ _ _) as [w' s'] eqn:E.
      simplify_eq/=. unfold execute_sequential_loop in E.
      repeat case_match; simplify_eq/=; by rewrite ?length_insert.
    + destruct (execute_sequential_resume _ _ _ _ _) as [[w' s']|] eqn:E;
        simplify_eq/=. unfold execute_sequential_resume in E.
      repeat case_match; simplify_eq/=; by rewrite ?length_insert.
    + destruct (forallb finished coros); [by simplify_eq/=|].
      destruct (execute_parallel_coroutine _ _ _ _ _) as [[w' s']|] eqn:E; simplify_eq/=.
      unfold execute_parallel_coroutine in E.
      repeat case_match; simplify_eq/=; by rewrite ?length_insert.
    + destruct (forallb finished coros); [by simplify_eq/=|].
      destruct (execute_with_deps _ _ _ _ _ _ _) as [[w' s']|] eqn:E; simplify_eq/=.
      unfold execute_with_deps, call_execute_task in E.
      repeat case_match; simplify_eq/=; by rewrite ?length_insert.
    + simplify_eq/=. by rewrite ws_tasks_aggregate.
    + simplify_eq/=. by rewrite length_fmap.
Qed.

Lemma lookup_ge_length {A} (l : list A) i x j :
  l !! i = None → l !! j = Some x → j < i.
Proof.
  intros Hn Hs. apply lookup_ge_None in Hn. apply lookup_lt_Some in Hs. lia.
Qed.

Lemma fail_task_terminal e t :
  terminal (ts_status t) → fail_task e t = t.
Proof.
  unfold fail_task. intros Ht. rewrite bool_decide_eq_false_2; [done|].
  rewrite !elem_of_cons, elem_of_nil.
  destruct Ht as [Ht | Ht]; rewrite Ht; intros [?|[?|[]]]; congruence.
Qed.

Lemma fail_task_all_terminal e (recs : list TaskStatus) :
  (∀ t, t ∈ recs → terminal (ts_status t)) → fail_task e <$> recs = recs.
Proof.
  intros Hterm. rewrite <- (list_fmap_id recs) at 2.
  apply list_fmap_ext. intros i t Ht. apply fail_task_terminal, Hterm.
  apply list_elem_of_lookup. eauto.
Qed.

Lemma sequential_inv_step pick m m' :
  workflow_type request = Sequential →
  sequential_inv request w0 m →
  step run_agent request pick m = Some m' →
  sequential_inv request w0 m'.
Proof.
  intros Hmode Hinv Hs. unfold step in Hs.
  destruct m as [w ph]. unfold sequential_inv in *. simpl in *.
  destruct ph as [|s|]; [| |done].
  - (* the job starts *)
    simplify_eq/=. unfold enter_strategy. rewrite Hmode. simpl.
    split; [lia|]. intros j _. by rewrite Hinv.
  - destruct s as [i prev|i prev|coros|coros completed events| |e];
      [| | done | done | |].
    + (* top of iteration [i] *)
      destruct Hinv as [Hdone Hrest].
      unfold execute_sequential_loop in Hs.
      destruct (tasks request !! i) as [task_def|] eqn:Hdef.
      * destruct (ws_tasks w !! i) as [t|] eqn:Hrec; simplify_eq/=.
        -- split_and!.
           ++ intros j t' Hj Ht'. rewrite list_lookup_insert_ne in Ht' by lia.
              eauto.
           ++ exists (execute_task_start t). split; [|done].
              apply list_lookup_insert_eq. by eapply lookup_lt_Some.
           ++ intros j Hj. rewrite list_lookup_insert_ne by lia.
              apply Hrest. lia.
        -- split.
           ++ intros k d t Hd Ht Hfail Hrole.
              pose proof (lookup_ge_length _ _ _ _ Hrec Ht) as Hk.
              destruct (Hdone k t Hk Ht) as [_ Hqa].
              destruct (Hqa Hfail) as (d' & Hd' & Hr). congruence.
           ++ intros t Ht. apply list_elem_of_lookup in Ht as [k Ht].
              pose proof (lookup_ge_length _ _ _ _ Hrec Ht) as Hk.
              by destruct (Hdone k t Hk Ht).
      * simplify_eq/=.
        intros k d t Hd Ht Hfail Hrole.
        pose proof (lookup_ge_length _ _ _ _ Hdef Hd) as Hk.
        destruct (Hdone k t Hk Ht) as [_ Hqa].
        destruct (Hqa Hfail) as (d' & Hd' & Hr). congruence.
    + (* task [i] returns *)
      destruct Hinv as (Hdone & (t & Hrec & Hrun) & Hrest).
      unfold execute_sequential_resume in Hs. rewrite Hrec in Hs.
      destruct (tasks request !! i) as [task_def|] eqn:Hdef; [|done].
      destruct (execute_task_finish _ _ _ _) as [t' result] eqn:Hfin.
      simplify_eq/=.
      pose proof (execute_task_finish_terminal _ _ _ _ _ Hfin) as Hterm.
      pose proof (lookup_lt_Some _ _ _ Hrec) as Hlen.
      destruct (bool_decide (ts_status t' = Failed)
                && negb (bool_decide (agent_role task_def = "qa"))) eqn:Hbreak.
      * apply andb_true_iff in Hbreak as [_ Hrole].
        apply negb_true_iff, bool_decide_eq_false in Hrole.
        intros k d tk Hd Htk Hfail Hnqa j Hj.
        destruct (decide (k = i)) as [->|Hki].
        -- rewrite list_lookup_insert_ne by lia. apply Hrest. lia.
        -- rewrite list_lookup_insert_ne in Htk by done.
           destruct (decide (k < i)) as [Hlt|Hge].
           ++ destruct (Hdone k tk Hlt Htk) as [_ Hqa].
              destruct (Hqa Hfail) as (d' & Hd' & Hr). congruence.
           ++ destruct (decide (j = i)) as [->|Hji]; [lia|].
              rewrite list_lookup_insert_ne by done. apply Hrest. lia.
      * split.
        -- intros j tj Hj Htj.
           destruct (decide (j = i)) as [->|Hji].
           ++ rewrite list_lookup_insert_eq in Htj by done. simplify_eq.
              split; [unfold terminal; tauto|].
              intros Hfail. exists task_def. split; [done|].
              rewrite Hfail, bool_decide_eq_true_2 in Hbreak by done.
              simpl in Hbreak. apply negb_false_iff in Hbreak.
              by apply bool_decide_eq_true in Hbreak.
           ++ rewrite list_lookup_insert_ne in Htj by done.
              apply Hdone; [lia|done].
        -- intros j Hj. rewrite list_lookup_insert_ne by lia.
           apply Hrest. lia.
    + (* the strategy returned *)
      simplify_eq/=. by rewrite ws_tasks_aggregate.
    + (* the strategy raised *)
      destruct Hinv as [Hhalt Hterm]. simplify_eq/=.
      rewrite fail_task_all_terminal by done. done.
Qed.

Lemma tracks_start coros recs0 (recs : list TaskStatus) :
  recs = recs0 → Forall (λ c, c = Created) coros → tracks coros recs0 recs.
Proof.
  intros -> Hc j t Ht. exists t. split; [done|].
  destruct (coros !! j) as [c|] eqn:Hj; [|done].
  by rewrite (Forall_lookup_1 _ _ _ _ Hc Hj).
Qed.

(** The coroutine [i] moves on and writes its record. *)
Lemma tracks_write coros recs0 recs i c t :
  tracks coros recs0 recs →
  i < length coros →
  (∀ t0, recs0 !! i = Some t0 → agrees c t0 t) →
  tracks (<[i := c]> coros) recs0 (<[i := t]> recs).
Proof.
  intros Htr Hi Hag j tj Hj.
  destruct (decide (j = i)) as [->|Hne].
  - apply list_lookup_insert_Some in Hj as [(_ & <- & Hlt)|[? _]]; [|done].
    destruct (lookup_lt_is_Some_2 recs i Hlt) as [told Hold].
    destruct (Htr i told Hold) as (t0 & Ht0 & _).
    exists t0. split; [done|].
    rewrite list_lookup_insert_eq by done. by apply Hag.
  - rewrite list_lookup_insert_ne in Hj by done.
    rewrite list_lookup_insert_ne by done. by apply Htr.
Qed.

(** The coroutine [i] moves on without touching its record. *)
Lemma tracks_move coros recs0 recs i c c' :
  tracks coros recs0 recs →
  coros !! i = Some c →
  (∀ t0 t, agrees c t0 t → agrees c' t0 t) →
  tracks (<[i := c']> coros) recs0 recs.
Proof.
  intros Htr Hi Hag j tj Hj.
  destruct (Htr j tj Hj) as (t0 & Ht0 & Hc). exists t0. split; [done|].
  destruct (decide (j = i)) as [->|Hne].
  - rewrite list_lookup_insert_eq by (by eapply lookup_lt_Some).
    rewrite Hi in Hc. by apply Hag.
  - by rewrite list_lookup_insert_ne.
Qed.

Lemma parallel_inv_step pick m m' :
  workflow_type request = Parallel →
  parallel_inv request w0 m →
  step run_agent request pick m = Some m' →
  parallel_inv request w0 m'.
Proof.
  intros Hmode Hinv Hs. unfold step in Hs.
  destruct m as [w ph]. unfold parallel_inv in *. simpl in *.
  destruct ph as [|s|]; [| |done].
  - simplify_eq/=. unfold enter_strategy. rewrite Hmode. simpl.
    case_decide; [|done]. split; [by rewrite length_replicate|].
    apply tracks_start; [done|]. apply Forall_replicate. done.
  - destruct s as [i prev|i prev|coros|coros completed events| |e];
      [done | done | | done | |]; [|by simplify_eq/=..].
    destruct Hinv as [Hlen Htr].
    destruct (forallb finished coros); [by simplify_eq/=|].
    destruct (execute_parallel_coroutine _ _ _ _ _) as [[w' s']|] eqn:E; simplify_eq/=.
    unfold execute_parallel_coroutine in E.
    destruct (coros !! pick) as [c|] eqn:Hc; [|done].
    pose proof (lookup_lt_Some _ _ _ Hc) as Hlt.
    destruct c as [| |context| |]; try done;
      destruct (tasks request !! pick) as [task_def|] eqn:Hdef; try done;
      destruct (ws_tasks w !! pick) as [t|] eqn:Hrec; try done.
    + simplify_eq/=. rewrite length_insert. split; [done|].
      apply tracks_write; [done..|]. by intros t0 _.
    + destruct (execute_task_finish _ _ _ _) as [t' result] eqn:Hfin.
      simplify_eq/=. rewrite length_insert. split; [done|].
      apply tracks_write; [done..|]. intros t0 _.
      exact (execute_task_finish_terminal _ _ _ _ _ Hfin).
Qed.

Lemma done_stable (coros : list Coroutine) i c c' j v :
  coros !! i = Some c → (∀ r, c ≠ Done r) →
  coros !! j = Some (Done v) → <[i := c']> coros !! j = Some (Done v).
Proof.
  intros Hi Hc Hj. rewrite list_lookup_insert_ne; [done|].
  intros ->. rewrite Hi in Hj. simplify_eq. by eapply Hc.
Qed.

Lemma context_from_stable defs coros i c c' task_def context :
  coros !! i = Some c → (∀ r, c ≠ Done r) →
  context_from defs coros task_def context →
  context_from defs (<[i := c']> coros) task_def context.
Proof.
  intros Hi Hc. unfold context_from.
  destruct (depends_on task_def); [done|].
  intros (d & -> & Hdom & Hval). exists d. split_and!; [done..|].
  intros dep_id v Hv. destruct (Hval _ _ Hv) as (j & dd & ? & ? & Hj).
  exists j, dd. split_and!; [done..|]. by eapply done_stable.
Qed.

Lemma graph_inv_dangling coros completed_tasks task_events w j task_def :
  graph_inv request w0 (mkMachine w (Trying (GraphGather coros completed_tasks task_events))) →
  length (ws_tasks w) = length (ws_tasks w0) →
  tasks request !! j = Some task_def →
  dangling (tasks request) task_def →
  ws_tasks w !! j = ws_tasks w0 !! j ∧
  ∃ c, coros !! j = Some c ∧ ¬ started c ∧ c ≠ Waiting.
Proof.
  unfold graph_inv; simpl.
  intros (Hlen & Htr & Hrec & Hkeys & Hset & Hdone & Hdeps & Hwait & Hctx)
    Hlen0 Hdef (dep_id & Hin & Hmiss).
  destruct (lookup_lt_is_Some_2 coros j) as [c Hc].
  { rewrite Hlen. by eapply lookup_lt_Some. }
  assert (¬ started c) as Hns.
  { intros Hst. apply Hmiss, Hkeys.
    rewrite (Hdeps j task_def c Hdef Hc Hst dep_id Hin). eauto. }
  assert (c ≠ Waiting) as Hnw.
  { intros ->. apply Hmiss, Hkeys. by eapply (Hwait j task_def). }
  split; [|by eauto].
  destruct (ws_tasks w !! j) as [t|] eqn:Ht.
  - destruct (Htr j t Ht) as (t0 & Ht0 & Hag). rewrite Hc in Hag.
    rewrite Ht0. destruct c; simpl in *; by subst.
  - symmetry. apply lookup_ge_None. apply lookup_ge_None in Ht. lia.
Qed.

Lemma is_Some_lookup_same_length {A} (l l' : list A) j :
  length l' = length l → is_Some (l !! j) → is_Some (l' !! j).
Proof. rewrite !lookup_lt_is_Some. lia. Qed.

(** A coroutine leaves [Created] or [Waiting]: no event fires and no
    result is recorded. *)
Lemma graph_inv_move coros completed_tasks task_events w w' i c c' task_def :
  graph_inv request w0
    (mkMachine w (Trying (GraphGather coros completed_tasks task_events))) →
  coros !! i = Some c → ¬ started c →
  tasks request !! i = Some task_def →
  length (ws_tasks w') = length (ws_tasks w) →
  tracks (<[i := c']> coros) (ws_tasks w0) (ws_tasks w') →
  (started c' →
     is_Some (ws_tasks w' !! i) ∧
     ∀ dep_id, dep_id ∈ depends_on task_def →
       task_events !! dep_id = Some true) →
  (c' = Waiting →
     depends_on task_def ≠ [] ∧
     ∀ dep_id, dep_id ∈ depends_on task_def →
       is_Some (task_events !! dep_id)) →
  (∀ context, c' = Executing context →
     context_from (tasks request) coros task_def context) →
  graph_inv request w0
    (mkMachine w' (Trying (GraphGather (<[i := c']> coros)
                             completed_tasks task_events))).
Proof.
  unfold graph_inv; simpl.
  intros (Hlen & Htr & Hrec & Hkeys & Hset & Hdone & Hdeps & Hwait & Hctx)
    Hc Hns Hdef Hlen' Htr' Hst' Hw' Hctx'.
  assert (∀ r, c ≠ Done r) as Hnd by (intros r ->; by apply Hns).
  pose proof (lookup_lt_Some _ _ _ Hc) as Hlt.
  split_and!; [by rewrite length_insert|done| |done|done| | | |].
  - intros j cj Hj Hstj.
    destruct (decide (j = i)) as [->|Hne].
    + rewrite list_lookup_insert_eq in Hj by done. simplify_eq.
      by apply Hst'.
    + rewrite list_lookup_insert_ne in Hj by done.
      eapply is_Some_lookup_same_length; [done|]. by eapply Hrec.
  - intros dep_id v Hv. destruct (Hdone _ _ Hv) as (j & dd & ? & ? & Hj).
    exists j, dd. split_and!; [done..|]. by eapply done_stable.
  - intros j dj cj Hdj Hj Hstj.
    destruct (decide (j = i)) as [->|Hne].
    + rewrite list_lookup_insert_eq in Hj by done. simplify_eq.
      by apply Hst'.
    + rewrite list_lookup_insert_ne in Hj by done. by eapply Hdeps.
  - intros j dj Hdj Hj.
    destruct (decide (j = i)) as [->|Hne].
    + rewrite list_lookup_insert_eq in Hj by done. simplify_eq.
      by apply Hw'.
    + rewrite list_lookup_insert_ne in Hj by done. by eapply Hwait.
  - intros j dj ctx Hdj Hj.
    eapply context_from_stable; [done..|].
    destruct (decide (j = i)) as [->|Hne].
    + rewrite list_lookup_insert_eq in Hj by done. simplify_eq.
      by apply Hctx'.
    + rewrite list_lookup_insert_ne in Hj by done. by eapply Hctx.
Qed.

(** A coroutine returns from [execute_task], records its result and
    fires its event. *)
Lemma graph_inv_finish coros completed_tasks task_events w i context
    task_def t t' result :
  graph_inv request w0
    (mkMachine w (Trying (GraphGather coros completed_tasks task_events))) →
  coros !! i = Some (Executing context) →
  tasks request !! i = Some task_def →
  ws_tasks w !! i = Some t →
  execute_task_finish run_agent t task_def context = (t', result) →
  graph_inv request w0
    (mkMachine (set_ws_tasks (<[i := t']> (ws_tasks w)) w)
       (Trying (GraphGather (<[i := Done result]> coros)
                  (<[agent_id task_def := result]> completed_tasks)
                  (<[agent_id task_def := true]> task_events)))).
Proof.
  unfold graph_inv; simpl.
  intros (Hlen & Htr & Hrec & Hkeys & Hset & Hdone & Hdeps & Hwait & Hctx)
    Hc Hdef Ht Hfin.
  assert (∀ r, Executing context ≠ Done r) as Hnd by done.
  pose proof (lookup_lt_Some _ _ _ Hc) as Hlt.
  pose proof (lookup_lt_Some _ _ _ Ht) as Hlt'.
  assert (agent_id task_def ∈ agent_id <$> tasks request) as Hid.
  { apply list_elem_of_fmap. exists task_def. split; [done|].
    apply list_elem_of_lookup. eauto. }
  assert (∀ dep_id, task_events !! dep_id = Some true →
            <[agent_id task_def := true]> task_events !! dep_id = Some true)
    as Hmono.
  { intros dep_id Hd. destruct (decide (dep_id = agent_id task_def)) as [->|?].
    - by rewrite lookup_insert_eq.
    - by rewrite lookup_insert_ne. }
  assert (∀ dep_id, is_Some (task_events !! dep_id) →
            is_Some (<[agent_id task_def := true]> task_events !! dep_id))
    as Hkmono.
  { intros dep_id Hd. destruct (decide (dep_id = agent_id task_def)) as [->|?].
    - rewrite lookup_insert_eq. eauto.
    - by rewrite lookup_insert_ne. }
  split_and!.
  - by rewrite length_insert.
  - apply tracks_write; [done..|]. intros t0 _.
    exact (execute_task_finish_terminal _ _ _ _ _ Hfin).
  - intros j cj Hj Hstj.
    eapply is_Some_lookup_same_length; [by rewrite length_insert|].
    destruct (decide (j = i)) as [->|Hne]; [eauto|].
    rewrite list_lookup_insert_ne in Hj by done. by eapply Hrec.
  - intros dep_id. destruct (decide (dep_id = agent_id task_def)) as [->|?].
    + rewrite lookup_insert_eq. split; eauto.
    + rewrite lookup_insert_ne by done. apply Hkeys.
  - intros dep_id. destruct (decide (dep_id = agent_id task_def)) as [->|?].
    + rewrite !lookup_insert_eq. eauto.
    + rewrite !lookup_insert_ne by done. apply Hset.
  - intros dep_id v. destruct (decide (dep_id = agent_id task_def)) as [->|?].
    + rewrite lookup_insert_eq. intros [= <-].
      exists i, task_def. split_and!; [done..|].
      by rewrite list_lookup_insert_eq.
    + rewrite lookup_insert_ne by done. intros Hv.
      destruct (Hdone _ _ Hv) as (j & dd & ? & ? & Hj).
      exists j, dd. split_and!; [done..|]. by eapply done_stable.
  - intros j dj cj Hdj Hj Hstj dep_id Hin. apply Hmono.
    destruct (decide (j = i)) as [->|Hne].
    + simplify_eq. by eapply (Hdeps i task_def (Executing context)).
    + rewrite list_lookup_insert_ne in Hj by done. by eapply Hdeps.
  - intros j dj Hdj Hj.
    destruct (decide (j = i)) as [->|Hne].
    + rewrite list_lookup_insert_eq in Hj by done. done.
    + rewrite list_lookup_insert_ne in Hj by done.
      destruct (Hwait j dj Hdj Hj) as [? Hk]. split; [done|].
      intros dep_id Hin. by apply Hkmono, Hk.
  - intros j dj ctx Hdj Hj.
    eapply context_from_stable; [done..|].
    destruct (decide (j = i)) as [->|Hne].
    + rewrite list_lookup_insert_eq in Hj by done. done.
    + rewrite list_lookup_insert_ne in Hj by done. by eapply Hctx.
Qed.

Lemma graph_inv_step pick m m' :
  workflow_type request = Graph →
  length (ws_tasks (workflow m)) = length (ws_tasks w0) →
  graph_inv request w0 m →
  step run_agent request pick m = Some m' →
  graph_inv request w0 m'.
Proof.
  intros Hmode Hlen0 Hinv Hs. unfold step in Hs.
  destruct m as [w ph]. simpl in *.
  destruct ph as [|s|]; [| |done].
  - (* the job starts *)
    unfold graph_inv in *; simpl in *.
    simplify_eq/=. unfold enter_strategy. rewrite Hmode. simpl.
    assert (∀ j c, replicate (length (tasks request)) Created !! j = Some c →
              c = Created) as Hrep.
    { intros j c Hj. by apply lookup_replicate in Hj as [-> _]. }
    split_and!.
    + by rewrite length_replicate.
    + apply tracks_start; [done|]. by apply Forall_replicate.
    + intros j c Hj. by rewrite (Hrep _ _ Hj).
    + intros dep_id. rewrite new_task_events_lookup.
      destruct (decide _); split; try done; eauto; by intros [? ?].
    + intros dep_id. rewrite new_task_events_lookup. by destruct (decide _).
    + intros dep_id v. by rewrite lookup_empty.
    + intros j d c _ Hj. by rewrite (Hrep _ _ Hj).
    + intros j d _ Hj. by pose proof (Hrep _ _ Hj).
    + intros j d ctx _ Hj. by pose proof (Hrep _ _ Hj).
  - destruct s as [i prev|i prev|coros|coros completed events| |e];
      try (by unfold graph_inv in Hinv).
    + destruct (forallb finished coros) eqn:Hall.
      * (* the gather returns *)
        simplify_eq/=. unfold graph_inv at 1; simpl.
        intros j d Hd Hdang.
        by destruct (graph_inv_dangling _ _ _ _ _ _ Hinv Hlen0 Hd Hdang).
      * destruct (execute_with_deps _ _ _ _ _ _ _) as [[w' s']|] eqn:E;
          simplify_eq/=.
        unfold execute_with_deps in E.
        destruct (coros !! pick) as [c|] eqn:Hc; [|done].
        destruct (tasks request !! pick) as [task_def|] eqn:Hdef;
          [|by destruct c].
        destruct c as [| |context| |]; [| | |done|done].
        -- (* first run of the coroutine *)
           pose proof Hinv as (_ & Htr & _).
           destruct (depends_on task_def) as [|dep deps] eqn:Hdeps.
           ++ unfold call_execute_task in E.
              destruct (ws_tasks w !! pick) as [t|] eqn:Ht; simplify_eq/=.
              ** eapply graph_inv_move;
                   [exact Hinv | exact Hc | by intros [] | exact Hdef
                   | simpl; by rewrite length_insert
                   | simpl | simpl; intros _ | done | intros ctx [= <-] ].
                 --- apply tracks_write; [done| |done].
                     by eapply lookup_lt_Some.
                 --- split.
                     +++ rewrite list_lookup_insert_eq; [eauto|].
                         by eapply lookup_lt_Some.
                     +++ rewrite Hdeps. by intros ? ?%elem_of_nil.
                 --- unfold context_from. by rewrite Hdeps.
              ** eapply graph_inv_move;
                   [exact Hinv | exact Hc | by intros [] | exact Hdef
                   | done | | by intros [] | done | done ].
                 by eapply tracks_move.
           ++ destruct (lookup_events events (dep :: deps)) as [e|flags] eqn:Hev;
                simplify_eq.
              ** eapply graph_inv_move;
                   [exact Hinv | exact Hc | by intros [] | exact Hdef
                   | done | | by intros [] | done | done ].
                 by eapply tracks_move.
              ** eapply graph_inv_move;
                   [exact Hinv | exact Hc | by intros [] | exact Hdef
                   | done | | by intros [] | intros _ | done ].
                 --- by eapply tracks_move.
                 --- rewrite Hdeps. split; [done|].
                     intros dep_id Hin. by eapply lookup_events_keys.
        -- (* woken up by the events *)
           pose proof Hinv as (_ & Htr & _ & _ & _ & Hdone & _ & Hwait & _).
           destruct (lookup_events events (depends_on task_def))
             as [e|flags] eqn:Hev; [done|].
           destruct (forallb id flags) eqn:Hflags; [|done].
           assert (depends_on task_def ≠ []) as Hne.
           { by destruct (Hwait pick task_def Hdef Hc). }
           destruct (dep_results completed (depends_on task_def) ∅)
             as [e|d] eqn:Hres; simplify_eq/=.
           ++ eapply graph_inv_move;
                [exact Hinv | exact Hc | by intros [] | exact Hdef
                | done | | by intros [] | done | done ].
              by eapply tracks_move.
           ++ unfold call_execute_task in E.
              destruct (ws_tasks w !! pick) as [t|] eqn:Ht; simplify_eq/=.
              ** eapply graph_inv_move;
                   [exact Hinv | exact Hc | by intros [] | exact Hdef
                   | simpl; by rewrite length_insert
                   | simpl | simpl; intros _ | done | intros ctx [= <-] ].
                 --- apply tracks_write; [done| |done].
                     by eapply lookup_lt_Some.
                 --- split.
                     +++ rewrite list_lookup_insert_eq; [eauto|].
                         by eapply lookup_lt_Some.
                     +++ intros dep_id Hin. by eapply lookup_events_all_set.
                 --- unfold context_from.
                     destruct (depends_on task_def) as [|dep deps] eqn:Hdeps;
                       [done|].
                     destruct (dep_results_spec _ _ _ _ Hres) as [Hdom Hval].
                     exists d. split_and!; [done|by auto|].
                     intros dep_id v Hv.
                     destruct (Hval _ _ Hv) as [Hcv|Hcv];
                       [|by rewrite lookup_empty in Hcv].
                     by apply Hdone.
              ** eapply graph_inv_move;
                   [exact Hinv | exact Hc | by intros [] | exact Hdef
                   | done | | by intros [] | done | done ].
                 by eapply tracks_move.
        -- (* return from [execute_task] *)
           destruct (ws_tasks w !! pick) as [t|] eqn:Ht; [|done].
           destruct (execute_task_finish _ _ _ _) as [t' result] eqn:Hfin.
           simplify_eq/=. by eapply graph_inv_finish.
    + (* the strategy returned *)
      unfold graph_inv in *; simpl in *. simplify_eq/=.
      by rewrite ws_tasks_aggregate.
Qed.

Lemma inv_job : inv request w0 (job w0).
Proof.
  unfold inv, job, running_inv, sequential_inv, parallel_inv, graph_inv.
  simpl. split_and!; [done..|]. by destruct (workflow_type request).
Qed.

Lemma inv_step pick m m' :
  inv request w0 m → step run_agent request pick m = Some m' →
  inv request w0 m'.
Proof.
  intros (Hrun & Hlen & Hmode) Hs. split_and!.
  - by eapply running_inv_step.
  - by rewrite (length_step _ _ _ Hs).
  - destruct (workflow_type request) eqn:Hty.
    + by eapply sequential_inv_step.
    + by eapply parallel_inv_step.
    + by eapply graph_inv_step.
Qed.

Lemma inv_run_from schedule m :
  inv request w0 m → inv request w0 (run run_agent request schedule m).
Proof.
  revert m. induction schedule as [|pick schedule IH]; intros m Hinv; [done|].
  simpl. destruct (step run_agent request pick m) as [m'|] eqn:Hs.
  - apply IH. by eapply inv_step.
  - by apply IH.
Qed.

Lemma inv_run schedule :
  inv request w0 (run run_agent request schedule (job w0)).
Proof. apply inv_run_from, inv_job. Qed.

End Invariants.

(** * Workflow-level status *)

Section Aggregation.

Variable run_agent : AgentTask → Value → Value + string.
Variable request : WorkflowRequest.

Lemma aggregate_status w :
  ws_status w = WfRunning →
  (ws_status (aggregate w) = WfCompleted ↔
     ∀ t, t ∈ ws_tasks w → ts_status t = Completed) ∧
  (ws_status (aggregate w) = WfFailed ↔
     (∀ t, t ∈ ws_tasks w → ts_status t ≠ Completed) ∧
     ∃ t, t ∈ ws_tasks w ∧ ts_status t = Failed) ∧
  (ws_status (aggregate w) = WfPartial ↔
     (∃ t, t ∈ ws_tasks w ∧ ts_status t = Completed) ∧
     ∃ t, t ∈ ws_tasks w ∧ ts_status t = Failed).
Proof.
  intros Hrun. unfold aggregate.
  destruct (all_completed (ws_tasks w)) eqn:Hall.
  - pose proof (proj1 (all_completed_spec _) Hall) as Hc; clear Hall;
      rename Hc into Hall. simpl. split_and!.
    + done.
    + split; [done|]. intros [Hnone (t & Ht & Hf)].
      specialize (Hall t Ht). congruence.
    + split; [done|]. intros [_ (t & Ht & Hf)].
      specialize (Hall t Ht). congruence.
  - assert (¬ ∀ t, t ∈ ws_tasks w → ts_status t = Completed) as Hnall.
    { intros H. pose proof (proj2 (all_completed_spec _) H). congruence. }
    destruct (any_failed (ws_tasks w)) eqn:Hany.
    + pose proof (proj1 (any_failed_spec _) Hany) as Hf; clear Hany;
        rename Hf into Hany.
      destruct (any_completed (ws_tasks w)) eqn:Hsome; simpl.
      * pose proof (proj1 (any_completed_spec _) Hsome) as Hc; clear Hsome;
          rename Hc into Hsome. split_and!.
        -- split; [done|]. by intros ?.
        -- split; [done|]. intros [Hnone _].
           destruct Hsome as (t & Ht & Hc). by destruct (Hnone t Ht).
        -- done.
      * assert (∀ t, t ∈ ws_tasks w → ts_status t ≠ Completed) as Hnone.
        { intros t Ht Hc.
          assert (any_completed (ws_tasks w) = true); [|congruence].
          apply any_completed_spec. eauto. }
        split_and!.
        -- split; [done|]. by intros ?.
        -- done.
        -- split; [done|]. intros [(t & Ht & Hc) _]. by destruct (Hnone t Ht).
    + assert (¬ ∃ t, t ∈ ws_tasks w ∧ ts_status t = Failed) as Hnf.
      { intros H. pose proof (proj2 (any_failed_spec _) H). congruence. }
      rewrite Hrun. split_and!.
      * split; [done|]. by intros ?.
      * split; [done|]. by intros [_ ?].
      * split; [done|]. by intros [_ ?].
Qed.

(** C1, as amended.  Once the strategy has returned, the job's next
    transition ends it, leaves the task records as they are and sets the
    workflow status from them: Completed iff every task is Completed
    (also when there is no task), Failed iff no task is Completed and at
    least one is Failed, Partial iff at least one task is Completed and
    at least one is Failed. *)
Theorem aggregate_after_return w0 schedule pick m' :
  phase (execution run_agent request w0 schedule) = Trying Returned →
  step run_agent request pick (execution run_agent request w0 schedule)
    = Some m' →
  phase m' = Finished ∧
  ws_tasks (workflow m') =
    ws_tasks (workflow (execution run_agent request w0 schedule)) ∧
  (ws_status (workflow m') = WfCompleted ↔
     ∀ t, t ∈ ws_tasks (workflow m') → ts_status t = Completed) ∧
  (ws_status (workflow m') = WfFailed ↔
     (∀ t, t ∈ ws_tasks (workflow m') → ts_status t ≠ Completed) ∧
     ∃ t, t ∈ ws_tasks (workflow m') ∧ ts_status t = Failed) ∧
  (ws_status (workflow m') = WfPartial ↔
     (∃ t, t ∈ ws_tasks (workflow m') ∧ ts_status t = Completed) ∧
     ∃ t, t ∈ ws_tasks (workflow m') ∧ ts_status t = Failed).
Proof.
  intros Hph Hs.
  pose proof (inv_run run_agent request w0 schedule) as (Hrun & _).
  fold (execution run_agent request w0 schedule) in Hrun.
  unfold running_inv in Hrun. rewrite Hph in Hrun.
  unfold step in Hs. rewrite Hph in Hs. simplify_eq/=.
  rewrite ws_tasks_aggregate. split_and!; [done..| | |];
    by apply aggregate_status.
Qed.

(** C2, as amended.  When the strategy raised, the job's next transition
    ends it: every record still Pending or Running becomes Failed with
    [str(e)] as its error, every other record is left as it is, and the
    workflow status is set to Failed whatever the records say. *)
Theorem fault_fails_unfinished e pick m m' :
  phase m = Trying (Raised e) →
  step run_agent request pick m = Some m' →
  phase m' = Finished ∧
  ws_status (workflow m') = WfFailed ∧
  length (ws_tasks (workflow m')) = length (ws_tasks (workflow m)) ∧
  ∀ i t, ws_tasks (workflow m) !! i = Some t →
    ∃ t', ws_tasks (workflow m') !! i = Some t' ∧
      ((ts_status t = Pending ∨ ts_status t = Running) →
         ts_status t' = Failed ∧ ts_error t' = Some (str e)) ∧
      (terminal (ts_status t) → t' = t).
Proof.
  intros Hph Hs. unfold step in Hs. rewrite Hph in Hs. simplify_eq/=.
  split_and!; [done..|by rewrite length_fmap|].
  intros i t Ht. exists (fail_task e t). split_and!.
  - by rewrite list_lookup_fmap, Ht.
  - intros Hst. unfold fail_task. rewrite bool_decide_eq_true_2; [done|].
    rewrite !elem_of_cons. tauto.
  - apply fail_task_terminal.
Qed.

End Aggregation.

Lemma aggregate_after_return_witness :
  phase (execution (flaky_agent ["A"] "t0")
           (workflow_of Sequential [task "A" "qa" []; task "B" "backend" []])
           (submitted (workflow_of Sequential
                         [task "A" "qa" []; task "B" "backend" []]))
           [0; 0; 0; 0; 0; 0]) = Trying Returned ∧
  ∃ m',
    step (flaky_agent ["A"] "t0")
      (workflow_of Sequential [task "A" "qa" []; task "B" "backend" []]) 0
      (execution (flaky_agent ["A"] "t0")
         (workflow_of Sequential [task "A" "qa" []; task "B" "backend" []])
         (submitted (workflow_of Sequential
                       [task "A" "qa" []; task "B" "backend" []]))
         [0; 0; 0; 0; 0; 0]) = Some m' ∧
    statuses m' = [Failed; Completed] ∧
    (ws_status (workflow m') = WfPartial ↔
       (∃ t, t ∈ ws_tasks (workflow m') ∧ ts_status t = Completed) ∧
       ∃ t, t ∈ ws_tasks (workflow m') ∧ ts_status t = Failed).
Proof.
  split; [vm_compute; reflexivity|].
  eexists. split; [vm_compute; reflexivity|].
  split; [vm_compute; reflexivity|].
  eapply (aggregate_after_return (flaky_agent ["A"] "t0")
            (workflow_of Sequential [task "A" "qa" []; task "B" "backend" []])
            (submitted (workflow_of Sequential
                          [task "A" "qa" []; task "B" "backend" []]))
            [0; 0; 0; 0; 0; 0] 0);
    vm_compute; reflexivity.
Defined.

(** C1 as stated fails on a workflow without tasks: the strategy returns,
    no task is Completed, and the final status is Completed, not Failed. *)
Lemma aggregate_zero_tasks_counterexample :
  phase (execution (mock_agent "t0") (workflow_of Sequential [])
           (submitted (workflow_of Sequential [])) [0; 0]) = Trying Returned ∧
  ∃ m',
    step (mock_agent "t0") (workflow_of Sequential []) 0
      (execution (mock_agent "t0") (workflow_of Sequential [])
         (submitted (workflow_of Sequential [])) [0; 0]) = Some m' ∧
    ¬ ((ws_status (workflow m') = WfCompleted ↔
          ∀ t, t ∈ ws_tasks (workflow m') → ts_status t = Completed) ∧
       (ws_status (workflow m') = WfFailed ↔
          ∀ t, t ∈ ws_tasks (workflow m') → ts_status t ≠ Completed) ∧
       (¬ (∀ t, t ∈ ws_tasks (workflow m') → ts_status t = Completed) →
        ¬ (∀ t, t ∈ ws_tasks (workflow m') → ts_status t ≠ Completed) →
        ws_status (workflow m') = WfPartial)).
Proof.
  split; [vm_compute; reflexivity|].
  eexists. split; [vm_compute; reflexivity|].
  intros (_ & [_ Hfailed] & _). simpl in Hfailed.
  assert (WfCompleted = WfFailed) as Habs; [|discriminate Habs].
  apply Hfailed. intros t Ht. by apply elem_of_nil in Ht.
Qed.

Lemma fault_fails_unfinished_witness :
  phase (execution (mock_agent "t0")
           (workflow_of Parallel [task "A" "backend" []; task "B" "qa" []])
           (submitted (workflow_of Parallel [task "A" "backend" []]))
           [0]) = Trying (Raised IndexError) ∧
  ∃ m',
    step (mock_agent "t0")
      (workflow_of Parallel [task "A" "backend" []; task "B" "qa" []]) 0
      (execution (mock_agent "t0")
         (workflow_of Parallel [task "A" "backend" []; task "B" "qa" []])
         (submitted (workflow_of Parallel [task "A" "backend" []]))
         [0]) = Some m' ∧
    phase m' = Finished ∧
    ws_status (workflow m') = WfFailed.
Proof.
  split; [vm_compute; reflexivity|].
  eexists. split; [vm_compute; reflexivity|].
  pose proof (fault_fails_unfinished (mock_agent "t0")
                (workflow_of Parallel [task "A" "backend" []; task "B" "qa" []])
                IndexError 0
                (execution (mock_agent "t0")
                   (workflow_of Parallel
                      [task "A" "backend" []; task "B" "qa" []])
                   (submitted (workflow_of Parallel [task "A" "backend" []]))
                   [0])
                _ eq_refl eq_refl) as (H1 & H2 & _).
  exact (conj H1 H2).
Defined.

(** C2 as stated fails when the fault comes after a task has completed:
    the sequential loop runs the one task the record has, completes it,
    faults on indexing the second, and the handler leaves the workflow
    Failed, not Partial.  The job meets such a record when its id is
    submitted again, with fewer tasks, before the job starts. *)
Lemma fault_after_completion_counterexample :
  execute_workflow (mock_agent "t0")
    (workflow_of Sequential [task "A" "backend" []; task "B" "qa" []])
    (resubmitted
       (workflow_of Sequential [task "A" "backend" []; task "B" "qa" []])
       (workflow_of Sequential [task "A" "backend" []])) "wf" [0; 0; 0; 0]
    = inr (execution (mock_agent "t0")
             (workflow_of Sequential [task "A" "backend" []; task "B" "qa" []])
             (submitted (workflow_of Sequential [task "A" "backend" []]))
             [0; 0; 0; 0]) ∧
  phase (execution (mock_agent "t0")
           (workflow_of Sequential [task "A" "backend" []; task "B" "qa" []])
           (submitted (workflow_of Sequential [task "A" "backend" []]))
           [0; 0; 0; 0]) = Trying (Raised IndexError) ∧
  statuses (execution (mock_agent "t0")
              (workflow_of Sequential [task "A" "backend" []; task "B" "qa" []])
              (submitted (workflow_of Sequential [task "A" "backend" []]))
              [0; 0; 0; 0]) = [Completed] ∧
  ∃ m',
    step (mock_agent "t0")
      (workflow_of Sequential [task "A" "backend" []; task "B" "qa" []]) 0
      (execution (mock_agent "t0")
         (workflow_of Sequential [task "A" "backend" []; task "B" "qa" []])
         (submitted (workflow_of Sequential [task "A" "backend" []]))
         [0; 0; 0; 0]) = Some m' ∧
    statuses m' = [Completed] ∧
    ws_status (workflow m') ≠ WfPartial.
Proof.
  split; [vm_compute; reflexivity|].
  split; [vm_compute; reflexivity|].
  split; [vm_compute; reflexivity|].
  eexists. split; [vm_compute; reflexivity|].
  split; [vm_compute; reflexivity|]. vm_compute. discriminate.
Qed.

(** * The status state machine *)

Section Transitions.

Variable run_agent : AgentTask → Value → Value + string.
Variable request : WorkflowRequest.
Variable w0 : WorkflowStatus.







Lemma tracks_running coros recs i context t :
  tracks coros (ws_tasks w0) recs →
  coros !! i = Some (Executing context) → recs !! i = Some t →
  ts_status t = Running.
Proof.
  intros Htr Hc Ht. destruct (Htr i t Ht) as (t0 & Ht0 & Hag).
  by rewrite Hc in Hag.
Qed.








End Transitions.



(** * Sequential mode *)

Lemma run_finished run_agent request schedule m :
  phase m = Finished → run run_agent request schedule m = m.
Proof.
  intros Hph. induction schedule as [|pick schedule IH]; [done|].
  simpl. unfold step. by rewrite Hph.
Qed.

Lemma run_step run_agent request pick schedule m m' :
  step run_agent request pick m = Some m' →
  run run_agent request (pick :: schedule) m = run run_agent request schedule m'.
Proof. intros Hs. simpl. by rewrite Hs. Qed.

Section SequentialMode.

Variable run_agent : AgentTask → Value → Value + string.

Lemma sequential_inv_halted request w0 m :
  sequential_inv request w0 m →
  halted_after_failure (tasks request) (ws_tasks w0) (ws_tasks (workflow m)).
Proof.
  unfold sequential_inv.
  destruct (phase m) as [|s|]; [|destruct s as [i ?|i ?| | | |]|]; try done.
  - intros -> k d t _ _ _ _ j _. done.
  - intros [Hdone Hrest] k d t Hd Ht Hfail Hrole j Hj.
    destruct (decide (k < i)) as [Hlt|Hge].
    + destruct (Hdone k t Hlt Ht) as [_ Hqa].
      destruct (Hqa Hfail) as (d' & Hd' & Hr). congruence.
    + apply Hrest. lia.
  - intros (Hdone & _ & Hrest) k d t Hd Ht Hfail Hrole j Hj.
    destruct (decide (k < i)) as [Hlt|Hge].
    + destruct (Hdone k t Hlt Ht) as [_ Hqa].
      destruct (Hqa Hfail) as (d' & Hd' & Hr). congruence.
    + apply Hrest. lia.
  - by intros [? _].
Qed.

(** C5.  In Sequential mode: (1) behind a task that ended Failed and
    whose role is not "qa", every later record is Pending, at every
    point of every execution, the end included; (2) when a task of role
    "qa" returns, failed or not, the loop moves on to the next task,
    which starts running if there is one; (3) with tasks [A; B; C],
    A not of role "qa" and failing, the job finishes with statuses
    [Failed; Pending; Pending] and workflow status Failed; (4) with
    tasks [A; B], A of role "qa" and failing, B succeeding, the job
    finishes with statuses [Failed; Completed] and workflow status
    Partial. *)
Theorem sequential_halt_rule request w0 :
  workflow_type request = Sequential →
  pristine w0 →
  (∀ schedule i task_def t j t',
     tasks request !! i = Some task_def →
     ws_tasks (workflow (execution run_agent request w0 schedule)) !! i
       = Some t →
     ts_status t = Failed → agent_role task_def ≠ "qa" →
     i < j →
     ws_tasks (workflow (execution run_agent request w0 schedule)) !! j
       = Some t' →
     ts_status t' = Pending) ∧
  (∀ schedule i previous_result task_def pick,
     phase (execution run_agent request w0 schedule)
       = Trying (SeqAwait i previous_result) →
     tasks request !! i = Some task_def →
     agent_role task_def = "qa" →
     ∃ m' result,
       step run_agent request pick (execution run_agent request w0 schedule)
         = Some m' ∧
       phase m' = Trying (SeqLoop (S i) result) ∧
       (∀ msg, run_agent task_def previous_result = inr msg →
          statuses m' !! i = Some Failed) ∧
       (∀ next_def, tasks request !! S i = Some next_def →
          S i < length (ws_tasks w0) →
          ∃ m'', step run_agent request pick m' = Some m'' ∧
                 phase m'' = Trying (SeqAwait (S i) result) ∧
                 statuses m'' !! S i = Some Running)) ∧
  (∀ A B C msg schedule,
     tasks request = [A; B; C] → length (ws_tasks w0) = 3 →
     agent_role A ≠ "qa" → run_agent A VNone = inr msg →
     4 ≤ length schedule →
     phase (execution run_agent request w0 schedule) = Finished ∧
     statuses (execution run_agent request w0 schedule)
       = [Failed; Pending; Pending] ∧
     ws_status (workflow (execution run_agent request w0 schedule))
       = WfFailed) ∧
  (∀ A B msg result schedule,
     tasks request = [A; B] → length (ws_tasks w0) = 2 →
     agent_role A = "qa" → run_agent A VNone = inr msg →
     run_agent B VNone = inl result →
     7 ≤ length schedule →
     phase (execution run_agent request w0 schedule) = Finished ∧
     statuses (execution run_agent request w0 schedule)
       = [Failed; Completed] ∧
     ws_status (workflow (execution run_agent request w0 schedule))
       = WfPartial).
Proof.
  intros Hmode Hp. split_and!.
  - intros schedule i task_def t j t' Hd Ht Hfail Hrole Hij Ht'.
    pose proof (inv_run run_agent request w0 schedule) as (_ & _ & Hinv).
    rewrite Hmode in Hinv. apply sequential_inv_halted in Hinv.
    fold (execution run_agent request w0 schedule) in Hinv.
    rewrite (Hinv i task_def t Hd Ht Hfail Hrole j Hij) in Ht'.
    by eapply pristine_lookup.
  - intros schedule i prev task_def pick Hph Hd Hrole.
    pose proof (inv_run run_agent request w0 schedule) as (_ & Hlen & Hinv).
    fold (execution run_agent request w0 schedule) in Hinv, Hlen.
    rewrite Hmode in Hinv. unfold sequential_inv in Hinv.
    rewrite Hph in Hinv. destruct Hinv as (_ & (t & Ht & Hrun) & Hrest).
    destruct (execution run_agent request w0 schedule) as [w ph].
    simpl in *. subst ph. unfold step; simpl.
    unfold execute_sequential_resume. rewrite Hd, Ht.
    destruct (execute_task_finish run_agent t task_def prev)
      as [t1 result] eqn:Hfin.
    rewrite (bool_decide_eq_true_2 (agent_role task_def = "qa")) by done.
    rewrite andb_false_r. simpl.
    eexists _, result. split_and!; [done|done| |].
    + intros msg Hmsg. unfold statuses; simpl.
      rewrite list_lookup_fmap, list_lookup_insert_eq
        by (by eapply lookup_lt_Some).
      unfold execute_task_finish in Hfin. rewrite Hmsg in Hfin.
      by simplify_eq/=.
    + intros next_def Hnext Hlt.
      destruct (lookup_lt_is_Some_2 (ws_tasks w) (S i)) as [tn Htn];
        [lia|].
      unfold step; simpl. unfold execute_sequential_loop. rewrite Hnext. simpl.
      rewrite list_lookup_insert_ne by lia. rewrite Htn.
      eexists. split_and!; [done|done|].
      unfold statuses; simpl.
      rewrite list_lookup_fmap, list_lookup_insert_eq; [done|].
      rewrite length_insert. by eapply lookup_lt_Some.
  - intros A B C msg schedule Hdefs Hlen Hrole Hfail Hsched.
    destruct schedule as [|p1 [|p2 [|p3 [|p4 rest]]]]; simpl in Hsched;
      try lia.
    destruct w0 as [wid ty st recs meta]. simpl in *.
    destruct recs as [|ta [|tb [|tc [|? ?]]]]; try done.
    apply Forall_cons in Hp as [Ha Hp]. apply Forall_cons in Hp as [Hb Hp].
    apply Forall_cons in Hp as [Hc _].
    unfold execution, job.
    do 4 (erewrite run_step; [|sequential_step Hmode Hdefs Hfail Hfail Hrole]).
    rewrite run_finished by done.
    unfold statuses, aggregate; simpl. by rewrite Hb, Hc.
  - intros A B msg result schedule Hdefs Hlen Hrole Hfail Hok Hsched.
    destruct schedule as [|p1 [|p2 [|p3 [|p4 [|p5 [|p6 [|p7 rest]]]]]]];
      simpl in Hsched; try lia.
    destruct w0 as [wid ty st recs meta]. simpl in *.
    destruct recs as [|ta [|tb [|? ?]]]; try done.
    unfold execution, job.
    do 7 (erewrite run_step; [|sequential_step Hmode Hdefs Hfail Hok Hrole]).
    rewrite run_finished by done.
    unfold statuses, aggregate; simpl. done.
Qed.

End SequentialMode.

Lemma sequential_halt_rule_witness :
  (workflow_type (workflow_of Sequential
     [task "A" "backend" []; task "B" "backend" []; task "C" "qa" []])
     = Sequential ∧
   pristine (submitted (workflow_of Sequential
     [task "A" "backend" []; task "B" "backend" []; task "C" "qa" []])) ∧
   statuses (execution (flaky_agent ["A"] "t0")
     (workflow_of Sequential
        [task "A" "backend" []; task "B" "backend" []; task "C" "qa" []])
     (submitted (workflow_of Sequential
        [task "A" "backend" []; task "B" "backend" []; task "C" "qa" []]))
     [0; 0; 0; 0]) = [Failed; Pending; Pending] ∧
   ws_status (workflow (execution (flaky_agent ["A"] "t0")
     (workflow_of Sequential
        [task "A" "backend" []; task "B" "backend" []; task "C" "qa" []])
     (submitted (workflow_of Sequential
        [task "A" "backend" []; task "B" "backend" []; task "C" "qa" []]))
     [0; 0; 0; 0])) = WfFailed) ∧
  (workflow_type (workflow_of Sequential
     [task "A" "qa" []; task "B" "backend" []]) = Sequential ∧
   pristine (submitted (workflow_of Sequential
     [task "A" "qa" []; task "B" "backend" []])) ∧
   statuses (execution (flaky_agent ["A"] "t0")
     (workflow_of Sequential [task "A" "qa" []; task "B" "backend" []])
     (submitted (workflow_of Sequential
        [task "A" "qa" []; task "B" "backend" []]))
     [0; 0; 0; 0; 0; 0; 0]) = [Failed; Completed] ∧
   ws_status (workflow (execution (flaky_agent ["A"] "t0")
     (workflow_of Sequential [task "A" "qa" []; task "B" "backend" []])
     (submitted (workflow_of Sequential
        [task "A" "qa" []; task "B" "backend" []]))
     [0; 0; 0; 0; 0; 0; 0])) = WfPartial).
Proof.
  split.
  - split; [reflexivity|]. split; [apply run_graph_pristine|].
    destruct (sequential_halt_rule (flaky_agent ["A"] "t0")
                (workflow_of Sequential
                   [task "A" "backend" []; task "B" "backend" [];
                    task "C" "qa" []])
                (submitted (workflow_of Sequential
                   [task "A" "backend" []; task "B" "backend" [];
                    task "C" "qa" []]))
                eq_refl (run_graph_pristine _ _ _))
      as (_ & _ & Hthree & _).
    destruct (Hthree (task "A" "backend" []) (task "B" "backend" [])
                (task "C" "qa" []) "agent unreachable" [0; 0; 0; 0]
                eq_refl eq_refl)
      as (_ & Hst & Hws).
    + vm_compute. discriminate.
    + reflexivity.
    + simpl. lia.
    + exact (conj Hst Hws).
  - split; [reflexivity|]. split; [apply run_graph_pristine|].
    destruct (sequential_halt_rule (flaky_agent ["A"] "t0")
                (workflow_of Sequential
                   [task "A" "qa" []; task "B" "backend" []])
                (submitted (workflow_of Sequential
                   [task "A" "qa" []; task "B" "backend" []]))
                eq_refl (run_graph_pristine _ _ _))
      as (_ & _ & _ & Htwo).
    destruct (Htwo (task "A" "qa" []) (task "B" "backend" [])
                "agent unreachable"
                (VDict (list_to_map [
                   ("agent_id", VStr "B");
                   ("agent_role", VStr "backend");
                   ("input", VDict ∅);
                   ("context", VNone);
                   ("output", VDict (list_to_map [
                      ("success", VBool true);
                      ("message", VStr "backend agent completed successfully");
                      ("timestamp", VStr "t0")]))]))
                [0; 0; 0; 0; 0; 0; 0]
                eq_refl eq_refl eq_refl eq_refl eq_refl)
      as (_ & Hst & Hws).
    + simpl. lia.
    + exact (conj Hst Hws).
Defined.

(** * Graph mode *)

Section GraphMode.

Variable run_agent : AgentTask → Value → Value + string.
Variable request : WorkflowRequest.
Variable w0 : WorkflowStatus.

Hypothesis graph_mode : workflow_type request = Graph.

Lemma graph_inv_run schedule :
  graph_inv request w0 (execution run_agent request w0 schedule).
Proof.
  pose proof (inv_run run_agent request w0 schedule) as (_ & _ & Hinv).
  by rewrite graph_mode in Hinv.
Qed.

Lemma forallb_finished_false coros i c :
  coros !! i = Some c → finished c = false →
  forallb finished coros = false.
Proof.
  intros Hc Hf. destruct (forallb finished coros) eqn:Hall; [|done].
  rewrite forallb_forall in Hall.
  assert (c ∈ coros) as Hin by (apply list_elem_of_lookup; eauto).
  apply list_elem_of_In, Hall in Hin. congruence.
Qed.

(** A fired event belongs to a task that has reached a terminal
    state. *)
Lemma fired_terminal coros completed_tasks task_events w dep_id :
  graph_inv request w0
    (mkMachine w (Trying (GraphGather coros completed_tasks task_events))) →
  task_events !! dep_id = Some true →
  ∃ j dep_def tj v,
    tasks request !! j = Some dep_def ∧ agent_id dep_def = dep_id ∧
    coros !! j = Some (Done v) ∧ completed_tasks !! dep_id = Some v ∧
    ws_tasks w !! j = Some tj ∧
    ((ts_status tj = Completed ∧ ts_result tj = v) ∨
     (ts_status tj = Failed ∧ v = VNone)).
Proof.
  unfold graph_inv; simpl.
  intros (Hlen & Htr & Hrec & Hkeys & Hset & Hdone & Hdeps & Hwait & Hctx) Hd.
  destruct (Hset _ Hd) as [v Hv].
  destruct (Hdone _ _ Hv) as (j & dep_def & Hj & Hid & Hc).
  destruct (Hrec j _ Hc I) as [tj Htj].
  destruct (Htr j tj Htj) as (t0 & _ & Hag). rewrite Hc in Hag.
  exists j, dep_def, tj, v. by split_and!.
Qed.

Lemma unique_agent_id j j' dep_def dep_def' :
  NoDup (agent_id <$> tasks request) →
  tasks request !! j = Some dep_def → tasks request !! j' = Some dep_def' →
  agent_id dep_def = agent_id dep_def' → j = j'.
Proof.
  intros Hnd Hj Hj' Hid.
  eapply (NoDup_lookup _ j j' (agent_id dep_def) Hnd);
    rewrite list_lookup_fmap.
  - by rewrite Hj.
  - rewrite Hj'. simpl. by rewrite Hid.
Qed.

(** In Graph mode a record only becomes Running in a transition of
    its own coroutine, taken with every dependency event set. *)
Lemma graph_step_running pick m m' i t t' :
  inv request w0 m →
  step run_agent request pick m = Some m' →
  ws_tasks (workflow m) !! i = Some t →
  ws_tasks (workflow m') !! i = Some t' →
  ts_status t ≠ Running → ts_status t' = Running →
  ∃ coros completed_tasks task_events task_def,
    phase m = Trying (GraphGather coros completed_tasks task_events) ∧
    i = pick ∧ tasks request !! i = Some task_def ∧
    ∀ dep_id, dep_id ∈ depends_on task_def →
      task_events !! dep_id = Some true.
Proof.
  intros (_ & _ & Hinv) Hs Ht Ht' Hnr Hr. rewrite graph_mode in Hinv.
  unfold step in Hs. destruct m as [w ph]. simpl in *.
  destruct ph as [|s|]; [| |done].
  - simplify_eq/=; congruence.
  - destruct s as [k prev|k prev|coros|coros completed events| |e];
      try (by unfold graph_inv in Hinv).
    + destruct (forallb finished coros);
        [simplify_eq/=; congruence|].
      destruct (execute_with_deps _ _ _ _ _ _ _) as [[w' s']|] eqn:E; simplify_eq/=.
      unfold execute_with_deps, call_execute_task in E.
      destruct (coros !! pick) as [c|] eqn:Hc; [|done].
      destruct (tasks request !! pick) as [task_def|] eqn:Hdef;
        [|by destruct c].
      destruct c as [| |context| |]; [| | |done|done].
      * destruct (depends_on task_def) as [|dep deps] eqn:Hdeps.
        -- destruct (ws_tasks w !! pick) as [tk|] eqn:Hk;
             [|simplify_eq/=; congruence].
           simplify_eq/=. destruct (decide (i = pick)) as [->|Hne].
           ++ exists coros, completed, events, task_def.
              split_and!; [done..|]. rewrite Hdeps.
              by intros ? ?%elem_of_nil.
           ++ rewrite list_lookup_insert_ne in Ht' by done. congruence.
        -- destruct (lookup_events _ _); simplify_eq/=;
             by destruct (Hsame _ eq_refl Ht').
      * destruct (lookup_events events (depends_on task_def))
          as [|flags] eqn:Hev; [done|].
        destruct (forallb id flags) eqn:Hflags; [|done].
        destruct (dep_results _ _ _);
          [simplify_eq/=; congruence|].
        destruct (ws_tasks w !! pick) as [tk|] eqn:Hk;
          [|simplify_eq/=; congruence].
        simplify_eq/=. destruct (decide (i = pick)) as [->|Hne].
        -- exists coros, completed, events, task_def.
           split_and!; [done..|].
           intros dep_id Hin. by eapply lookup_events_all_set.
        -- rewrite list_lookup_insert_ne in Ht' by done. congruence.
      * destruct (ws_tasks w !! pick) as [tk|] eqn:Hk; [|done].
        destruct (execute_task_finish _ _ _ _) as [tk' result] eqn:Hfin.
        simplify_eq/=. destruct (decide (i = pick)) as [->|Hne].
        -- rewrite list_lookup_insert_eq in Ht'
             by (by eapply lookup_lt_Some).
           simplify_eq.
           destruct (execute_task_finish_terminal _ _ _ _ _ _ Hfin)
             as [[? _]|[? _]]; congruence.
        -- rewrite list_lookup_insert_ne in Ht' by done. congruence.
    + simplify_eq/=. rewrite ws_tasks_aggregate in Ht'. congruence.
Qed.

(** In Graph mode a record only becomes Completed or Failed in a
    transition of its own coroutine, the return from [execute_task],
    and that transition stores the result and sets the event under the
    task's agent id. *)
Lemma graph_step_terminal pick m m' i t t' :
  inv request w0 m →
  step run_agent request pick m = Some m' →
  ws_tasks (workflow m) !! i = Some t →
  ws_tasks (workflow m') !! i = Some t' →
  ¬ terminal (ts_status t) → terminal (ts_status t') →
  ∃ coros completed_tasks task_events task_def result,
    phase m = Trying (GraphGather coros completed_tasks task_events) ∧
    i = pick ∧ tasks request !! i = Some task_def ∧
    phase m' = Trying (GraphGather (<[pick := Done result]> coros)
                         (<[agent_id task_def := result]> completed_tasks)
                         (<[agent_id task_def := true]> task_events)).
Proof.
  intros (_ & _ & Hinv) Hs Ht Ht' Hnt Hterm. rewrite graph_mode in Hinv.
  assert (t' ≠ t) as Hne by (intros ->; done).
  unfold step in Hs. destruct m as [w ph]. simpl in *.
  destruct ph as [|s|]; [| |done].
  - simplify_eq/=; congruence.
  - destruct s as [k prev|k prev|coros|coros completed events| |e];
      try (by unfold graph_inv in Hinv).
    + destruct (forallb finished coros);
        [simplify_eq/=; congruence|].
      destruct (execute_with_deps _ _ _ _ _ _ _) as [[w' s']|] eqn:E; simplify_eq/=.
      unfold execute_with_deps, call_execute_task in E.
      destruct (coros !! pick) as [c|] eqn:Hc; [|done].
      destruct (tasks request !! pick) as [task_def|] eqn:Hdef;
        [|by destruct c].
      destruct c as [| |context| |]; [| | |done|done].
      * destruct (depends_on task_def) as [|dep deps] eqn:Hdeps.
        -- destruct (ws_tasks w !! pick) as [tk|] eqn:Hk;
             [|simplify_eq/=; congruence].
           simplify_eq/=. destruct (decide (i = pick)) as [->|Hni].
           ++ rewrite list_lookup_insert_eq in Ht'
                by (by eapply lookup_lt_Some).
              simplify_eq/=. by destruct Hterm.
           ++ rewrite list_lookup_insert_ne in Ht' by done. congruence.
        -- destruct (lookup_events _ _); simplify_eq/=; congruence.
      * destruct (lookup_events events (depends_on task_def))
          as [|flags] eqn:Hev; [done|].
        destruct (forallb id flags) eqn:Hflags; [|done].
        destruct (dep_results _ _ _);
          [simplify_eq/=; congruence|].
        destruct (ws_tasks w !! pick) as [tk|] eqn:Hk;
          [|simplify_eq/=; congruence].
        simplify_eq/=. destruct (decide (i = pick)) as [->|Hni].
        -- rewrite list_lookup_insert_eq in Ht'
             by (by eapply lookup_lt_Some).
           simplify_eq/=. by destruct Hterm.
        -- rewrite list_lookup_insert_ne in Ht' by done. congruence.
      * destruct (ws_tasks w !! pick) as [tk|] eqn:Hk; [|done].
        destruct (execute_task_finish _ _ _ _) as [tk' result] eqn:Hfin.
        simplify_eq/=. destruct (decide (i = pick)) as [->|Hni].
        -- by exists coros, completed, events, task_def, result.
        -- rewrite list_lookup_insert_ne in Ht' by done. congruence.
    + simplify_eq/=. rewrite ws_tasks_aggregate in Ht'. congruence.
Qed.

(** C6, as amended.  In Graph mode, in every execution: (1) whenever a
    transition makes a task's record Running, each dependency id the
    task declares already belongs to a task whose record is Completed
    or Failed before that transition; when agent ids are not repeated
    in the request, that is every task carrying the id; (2) a task
    without dependencies whose coroutine has not run yet starts running
    in its first transition, whatever the other tasks have done, when
    the record holds a task at its index. *)
Theorem graph_dependencies_first schedule :
  (∀ pick m' i task_def t t' dep_id,
     step run_agent request pick (execution run_agent request w0 schedule)
       = Some m' →
     tasks request !! i = Some task_def →
     ws_tasks (workflow (execution run_agent request w0 schedule)) !! i
       = Some t →
     ws_tasks (workflow m') !! i = Some t' →
     ts_status t ≠ Running → ts_status t' = Running →
     dep_id ∈ depends_on task_def →
     (∃ j dep_def tj,
        tasks request !! j = Some dep_def ∧ agent_id dep_def = dep_id ∧
        ws_tasks (workflow (execution run_agent request w0 schedule)) !! j
          = Some tj ∧
        terminal (ts_status tj)) ∧
     (NoDup (agent_id <$> tasks request) →
      ∀ j dep_def,
        tasks request !! j = Some dep_def → agent_id dep_def = dep_id →
        ∃ tj,
          ws_tasks (workflow (execution run_agent request w0 schedule)) !! j
            = Some tj ∧
          terminal (ts_status tj))) ∧
  (∀ coros i task_def,
     graph_coroutines (execution run_agent request w0 schedule)
       = Some coros →
     coros !! i = Some Created →
     tasks request !! i = Some task_def →
     depends_on task_def = [] →
     i < length (ws_tasks w0) →
     ∃ m',
       step run_agent request i (execution run_agent request w0 schedule)
         = Some m' ∧
       statuses m' !! i = Some Running).
Proof.
  split.
  - intros pick m' i task_def t t' dep_id Hs Hdef Ht Ht' Hnr Hr Hin.
    pose proof (inv_run run_agent request w0 schedule) as Hinv.
    fold (execution run_agent request w0 schedule) in Hinv.
    destruct (graph_step_running _ _ _ _ _ _ Hinv Hs Ht Ht' Hnr Hr)
      as (coros & completed & events & task_def' & Hph & -> & Hdef' & Hset).
    simplify_eq.
    pose proof (graph_inv_run schedule) as Hg.
    destruct (execution run_agent request w0 schedule) as [w ph].
    simpl in *. subst ph.
    destruct (fired_terminal _ _ _ _ _ Hg (Hset _ Hin))
      as (j & dep_def & tj & v & Hj & Hid & _ & _ & Htj & Hst).
    assert (terminal (ts_status tj)) as Hterm.
    { unfold terminal. destruct Hst as [[? _]|[? _]]; auto. }
    split; [by exists j, dep_def, tj|].
    intros Hnd j' dep_def' Hj' Hid'.
    assert (j' = j) as ->.
    { eapply unique_agent_id; [done..|]. congruence. }
    by exists tj.
  - intros coros i task_def Hco Hc Hdef Hdeps Hlt.
    pose proof (inv_run run_agent request w0 schedule) as (_ & Hlen & _).
    fold (execution run_agent request w0 schedule) in Hlen.
    destruct (execution run_agent request w0 schedule) as [w ph].
    unfold graph_coroutines in Hco. simpl in *.
    destruct ph as [|s|]; [done| |done].
    destruct s as [| | |coros' completed events| |]; try done.
    simplify_eq.
    destruct (lookup_lt_is_Some_2 (ws_tasks w) i) as [t Ht]; [lia|].
    unfold step; simpl.
    rewrite (forallb_finished_false _ _ _ Hc) by done.
    unfold execute_with_deps, call_execute_task. rewrite Hc, Hdef, Hdeps, Ht.
    simpl. eexists. split; [done|].
    unfold statuses; simpl.
    rewrite list_lookup_fmap, list_lookup_insert_eq; [done|].
    by eapply lookup_lt_Some.
Qed.

(** C3, as amended.  In Graph mode, the context a task with
    dependencies executes with is a dict holding an entry for every
    dependency id it declares.  The entry is the value returned by a
    task carrying that id that has ended: that task's result when it
    Completed, the null value when it Failed.  So a failed dependency
    is present in the dict: its entry is the null value when agent ids
    are not repeated in the request, and also when every task carrying
    the id that has ended Failed; with a repeated agent id the entry
    may be the result of another task carrying the id. *)
Theorem failed_dependency_in_context schedule i task_def context :
  tasks request !! i = Some task_def →
  depends_on task_def ≠ [] →
  context_of (execution run_agent request w0 schedule) i = Some context →
  ∃ d, context = VDict d ∧
    ∀ dep_id, dep_id ∈ depends_on task_def →
      ∃ v, d !! dep_id = Some v ∧
        (∃ j dep_def tj,
           tasks request !! j = Some dep_def ∧ agent_id dep_def = dep_id ∧
           ws_tasks (workflow (execution run_agent request w0 schedule)) !! j
             = Some tj ∧
           ((ts_status tj = Completed ∧ ts_result tj = v) ∨
            (ts_status tj = Failed ∧ v = VNone))) ∧
        (NoDup (agent_id <$> tasks request) →
         ∀ j dep_def tj,
           tasks request !! j = Some dep_def → agent_id dep_def = dep_id →
           ws_tasks (workflow (execution run_agent request w0 schedule)) !! j
             = Some tj →
           ts_status tj = Failed → v = VNone) ∧
        ((∀ j dep_def tj,
            tasks request !! j = Some dep_def → agent_id dep_def = dep_id →
            ws_tasks (workflow (execution run_agent request w0 schedule)) !! j
              = Some tj →
            terminal (ts_status tj) → ts_status tj = Failed) →
         v = VNone).
Proof.
  intros Hdef Hne Hctx.
  pose proof (graph_inv_run schedule) as Hg.
  destruct (execution run_agent request w0 schedule) as [w ph].
  unfold context_of in Hctx. simpl in *.
  destruct ph as [|s|]; [done| |done].
  destruct s as [| | |coros completed events| |];
    try (by unfold graph_inv in Hg).
  destruct (coros !! i) as [c|] eqn:Hc; [|done].
  destruct c as [| |context'| |]; try done. simplify_eq.
  pose proof Hg as (_ & Htr & Hrec & _ & _ & _ & _ & _ & Hcf).
  simpl in *.
  specialize (Hcf i task_def context Hdef Hc). unfold context_from in Hcf.
  destruct (depends_on task_def) as [|dep deps] eqn:Hdeps; [done|].
  destruct Hcf as (d & -> & Hdom & Hval). exists d. split; [done|].
  intros dep_id Hin. destruct (Hdom dep_id Hin) as [v Hv].
  exists v. split; [done|].
  destruct (Hval _ _ Hv) as (j & dep_def & Hj & Hid & Hcj).
  destruct (Hrec j _ Hcj I) as [tj Htj].
  destruct (Htr j tj Htj) as (t0 & _ & Hag). rewrite Hcj in Hag.
  simpl in Hag. split; [by exists j, dep_def, tj|]. split.
  - intros Hnd j' dep_def' tj' Hj' Hid' Htj' Hfail.
    assert (j' = j) as ->.
    { eapply unique_agent_id; [done..|]. congruence. }
    simplify_eq. destruct Hag as [[? _]|[_ ?]]; [congruence|done].
  - intros Hall. destruct Hag as [[Hcompleted _]|[_ ?]]; [|done].
    assert (ts_status tj = Failed) as Hfailed.
    { apply (Hall j dep_def tj Hj Hid Htj). left. exact Hcompleted. }
    congruence.
Qed.

(** What one transition inside the graph gather does: either the
    gather returns, or the picked coroutine moves forward, alone, and
    fires its event exactly when it returns from [execute_task]. *)
Lemma graph_gather_step pick w coros completed_tasks task_events m' :
  step run_agent request pick
    (mkMachine w (Trying (GraphGather coros completed_tasks task_events)))
    = Some m' →
  (forallb finished coros = true ∧ m' = mkMachine w (Trying Returned)) ∨
  ∃ c c' task_def w' completed_tasks' task_events',
    coros !! pick = Some c ∧ tasks request !! pick = Some task_def ∧
    m' = mkMachine w'
           (Trying (GraphGather (<[pick := c']> coros)
                      completed_tasks' task_events')) ∧
    progress c < progress c' ∧
    ((completed_tasks' = completed_tasks ∧ task_events' = task_events ∧
      (c = Waiting →
         ∀ dep_id, dep_id ∈ depends_on task_def →
           task_events !! dep_id = Some true)) ∨
     (∃ context t t' result,
        c = Executing context ∧ c' = Done result ∧
        ws_tasks w !! pick = Some t ∧ ws_tasks w' !! pick = Some t' ∧
        terminal (ts_status t') ∧
        completed_tasks' = <[agent_id task_def := result]> completed_tasks ∧
        task_events' = <[agent_id task_def := true]> task_events)).
Proof.
  unfold step; simpl. intros Hs.
  destruct (forallb finished coros); [left; by simplify_eq|]. right.
  destruct (execute_with_deps _ _ _ _ _ _ _) as [[w' s']|] eqn:E; simplify_eq/=.
  unfold execute_with_deps, call_execute_task in E.
  destruct (coros !! pick) as [c|] eqn:Hc; [|done].
  destruct (tasks request !! pick) as [task_def|] eqn:Hdef;
    [|by destruct c].
  destruct c as [| |context| |]; [| | |done|done].
  - destruct (depends_on task_def) as [|dep deps] eqn:Hdeps.
    + destruct (ws_tasks w !! pick) as [tk|] eqn:Hk; simplify_eq/=;
        eexists Created, _, task_def, _, _, _;
        (split_and!; [done|done|done|simpl; lia|left; by split_and!]).
    + destruct (lookup_events _ _); simplify_eq/=;
        eexists Created, _, task_def, _, _, _;
        (split_and!; [done|done|done|simpl; lia|left; by split_and!]).
  - destruct (lookup_events task_events (depends_on task_def))
      as [|flags] eqn:Hev; [done|].
    destruct (forallb id flags) eqn:Hflags; [|done].
    assert (∀ dep_id, dep_id ∈ depends_on task_def →
              task_events !! dep_id = Some true) as Hall.
    { intros dep_id Hin. by eapply lookup_events_all_set. }
    destruct (dep_results _ _ _).
    + simplify_eq/=. eexists Waiting, _, task_def, _, _, _.
      split_and!; [done|done|done|simpl; lia|left; by split_and!].
    + destruct (ws_tasks w !! pick) as [tk|] eqn:Hk; simplify_eq/=;
        eexists Waiting, _, task_def, _, _, _;
        (split_and!; [done|done|done|simpl; lia|left; by split_and!]).
  - destruct (ws_tasks w !! pick) as [tk|] eqn:Hk; [|done].
    destruct (execute_task_finish _ _ _ _) as [tk' result] eqn:Hfin.
    simplify_eq/=. eexists (Executing context), _, task_def, _, _, _.
    split_and!; [done|done|done|simpl; lia|right].
    exists context, tk, tk', result. split_and!; try done.
    + simpl. apply list_lookup_insert_eq. by eapply lookup_lt_Some.
    + unfold terminal.
      destruct (execute_task_finish_terminal _ _ _ _ _ _ Hfin)
        as [[? _]|[? _]]; auto.
Qed.

(** C7, as amended.  In Graph mode, for a task that declares a
    dependency id carried by no task of the request, in every execution
    started on a record whose tasks are all Pending: (1) its record is
    never written, so it stays Pending; (2) its coroutine is never
    waiting nor executing: it has not run yet, or it has raised;
    (3) the first time it runs it does not wait: the lookup of a missing
    event raises KeyError, which ends the coroutine and leaves the
    workflow untouched; (4) the gather counts a coroutine that raised as
    finished, so once every coroutine has returned or raised the
    strategy returns. *)
Theorem dangling_dependency_never_runs schedule i task_def :
  pristine w0 →
  tasks request !! i = Some task_def →
  dangling (tasks request) task_def →
  (ws_tasks (workflow (execution run_agent request w0 schedule)) !! i
     = ws_tasks w0 !! i ∧
   ∀ t,
     ws_tasks (workflow (execution run_agent request w0 schedule)) !! i
       = Some t →
     ts_status t = Pending) ∧
  (∀ coros,
     graph_coroutines (execution run_agent request w0 schedule)
       = Some coros →
     coros !! i = Some Created ∨ ∃ e, coros !! i = Some (Faulted e)) ∧
  (∀ coros,
     graph_coroutines (execution run_agent request w0 schedule)
       = Some coros →
     coros !! i = Some Created →
     ∃ dep_id m',
       dep_id ∈ depends_on task_def ∧
       (dep_id ∉ agent_id <$> tasks request) ∧
       step run_agent request i (execution run_agent request w0 schedule)
         = Some m' ∧
       graph_coroutines m'
         = Some (<[i := Faulted (KeyError dep_id)]> coros) ∧
       workflow m' = workflow (execution run_agent request w0 schedule)) ∧
  (∀ coros pick,
     graph_coroutines (execution run_agent request w0 schedule)
       = Some coros →
     (∀ j c, coros !! j = Some c → finished c = true) →
     ∃ m',
       step run_agent request pick
         (execution run_agent request w0 schedule) = Some m' ∧
       phase m' = Trying Returned ∧
       workflow m' = workflow (execution run_agent request w0 schedule)).
Proof.
  intros Hp Hdef Hdang.
  pose proof (graph_inv_run schedule) as Hg.
  pose proof (inv_run run_agent request w0 schedule) as (_ & Hlen & _).
  fold (execution run_agent request w0 schedule) in Hlen.
  destruct (execution run_agent request w0 schedule) as [w ph].
  unfold graph_coroutines. simpl in *.
  assert (ws_tasks w !! i = ws_tasks w0 !! i) as Hsame.
  { destruct ph as [|s|]; [by rewrite Hg| |by apply (Hg i task_def)].
    destruct s as [| | |coros completed events| |];
      try (by unfold graph_inv in Hg).
    - by destruct (graph_inv_dangling _ _ _ _ _ _ _ _ Hg Hlen Hdef Hdang).
    - by apply (Hg i task_def). }
  split_and!.
  - done.
  - intros t Ht. rewrite Hsame in Ht. by eapply pristine_lookup.
  - intros coros Hco.
    destruct ph as [|s|]; [done| |done].
    destruct s as [| | |coros' completed events| |]; try done.
    simplify_eq.
    destruct (graph_inv_dangling _ _ _ _ _ _ _ _ Hg Hlen Hdef Hdang)
      as (_ & c & Hc & Hns & Hnw).
    rewrite Hc. destruct c; simpl in Hns; try tauto; eauto.
  - intros coros Hco Hc.
    destruct ph as [|s|]; [done| |done].
    destruct s as [| | |coros' completed events| |]; try done.
    simplify_eq.
    pose proof Hg as (_ & _ & _ & Hkeys & _). simpl in Hkeys.
    destruct Hdang as (dep0 & Hin0 & Hmiss0).
    destruct (depends_on task_def) as [|dep deps] eqn:Hdeps;
      [by apply elem_of_nil in Hin0|].
    pose proof (lookup_events_spec events (dep :: deps)) as Hspec.
    destruct (lookup_events events (dep :: deps)) as [e|flags] eqn:Hev.
    + destruct Hspec as (dep_id & -> & Hin & Hnone).
      exists dep_id. eexists. split_and!.
      * done.
      * intros Hid. apply Hkeys in Hid. rewrite Hnone in Hid.
        by destruct Hid.
      * unfold step; simpl.
        rewrite (forallb_finished_false _ _ _ Hc) by done.
        unfold execute_with_deps. rewrite Hc, Hdef, Hdeps, Hev. done.
      * done.
      * done.
    + exfalso. apply Hmiss0, Hkeys. by eapply lookup_events_keys.
  - intros coros pick Hco Hall.
    destruct ph as [|s|]; [done| |done].
    destruct s as [| | |coros' completed events| |]; try done.
    simplify_eq. unfold step; simpl.
    assert (forallb finished coros = true) as ->.
    { apply forallb_forall. intros c Hin.
      apply list_elem_of_In, list_elem_of_lookup in Hin as [j Hj]. eauto. }
    eexists. by split_and!.
Qed.

(** C8.  In Graph mode, in every execution: (1) a coroutine waiting
    for its dependencies can take a transition exactly when the event
    of every dependency id it declares is set; until then it has no
    transition at all; (2) a transition inside the gather moves the
    picked coroutine strictly forward (made, waiting, executing,
    ended) and leaves every other coroutine where it is, so no
    coroutine ever returns to its wait; (3) an event that is set stays
    set; (4) an event becomes set only in the transition in which a
    task carrying its agent id goes from Running to Completed or
    Failed; (5) the transition in which a task's record becomes
    Completed or Failed is one of the task's own coroutine, and after
    it the event of the task's agent id is set. *)
Theorem graph_waits_on_events schedule pick :
  (∀ coros task_events task_def,
     graph_coroutines (execution run_agent request w0 schedule)
       = Some coros →
     graph_events (execution run_agent request w0 schedule)
       = Some task_events →
     coros !! pick = Some Waiting →
     tasks request !! pick = Some task_def →
     (is_Some (step run_agent request pick
                 (execution run_agent request w0 schedule)) ↔
      ∀ dep_id, dep_id ∈ depends_on task_def →
        task_events !! dep_id = Some true)) ∧
  (∀ m' coros coros',
     step run_agent request pick (execution run_agent request w0 schedule)
       = Some m' →
     graph_coroutines (execution run_agent request w0 schedule)
       = Some coros →
     graph_coroutines m' = Some coros' →
     (∀ j, j ≠ pick → coros' !! j = coros !! j) ∧
     ∃ c c', coros !! pick = Some c ∧ coros' !! pick = Some c' ∧
             progress c < progress c') ∧
  (∀ m' task_events task_events' dep_id,
     step run_agent request pick (execution run_agent request w0 schedule)
       = Some m' →
     graph_events (execution run_agent request w0 schedule)
       = Some task_events →
     graph_events m' = Some task_events' →
     (task_events !! dep_id = Some true →
      task_events' !! dep_id = Some true) ∧
     (task_events !! dep_id ≠ Some true →
      task_events' !! dep_id = Some true →
      ∃ task_def t t',
        tasks request !! pick = Some task_def ∧
        agent_id task_def = dep_id ∧
        ws_tasks (workflow (execution run_agent request w0 schedule)) !! pick
          = Some t ∧
        ts_status t = Running ∧
        ws_tasks (workflow m') !! pick = Some t' ∧
        terminal (ts_status t'))) ∧
  (∀ m' i t t',
     step run_agent request pick (execution run_agent request w0 schedule)
       = Some m' →
     ws_tasks (workflow (execution run_agent request w0 schedule)) !! i
       = Some t →
     ws_tasks (workflow m') !! i = Some t' →
     ¬ terminal (ts_status t) → terminal (ts_status t') →
     i = pick ∧
     ∃ task_def task_events',
       tasks request !! i = Some task_def ∧
       graph_events m' = Some task_events' ∧
       task_events' !! agent_id task_def = Some true).
Proof.
  pose proof (graph_inv_run schedule) as Hg.
  pose proof (inv_run run_agent request w0 schedule) as Hinv.
  fold (execution run_agent request w0 schedule) in Hinv.
  destruct (execution run_agent request w0 schedule) as [w ph].
  unfold graph_coroutines, graph_events. simpl.
  split_and!; [| | |
    intros m' i t t' Hs Ht Ht' Hnt Hterm;
    destruct (graph_step_terminal _ _ _ _ _ _ Hinv Hs Ht Ht' Hnt Hterm)
      as (coros & completed & events & task_def & result
          & _ & -> & Hdef & ->);
    split; [done|]; exists task_def; eexists;
    split_and!; [done|done|apply lookup_insert_eq]].
  - intros coros events task_def Hco Hev Hc Hdef.
    destruct ph as [|s|]; [done| |done].
    destruct s as [| | |coros' completed events'| |]; try done.
    simplify_eq. split.
    + intros [m' Hs].
      destruct (graph_gather_step _ _ _ _ _ _ Hs)
        as [[Hall _]|(c & c' & d & w' & co' & ev' & Hc' & Hd' & _ & _ & Hor)].
      * rewrite (forallb_finished_false _ _ _ Hc) in Hall; done.
      * simplify_eq. destruct Hor as [(_ & _ & Hset)|Hfin]; [by apply Hset|].
        by destruct Hfin as (? & ? & ? & ? & ? & _).
    + intros Hall. unfold step; simpl.
      rewrite (forallb_finished_false _ _ _ Hc) by done.
      unfold execute_with_deps, call_execute_task. rewrite Hc, Hdef.
      destruct (lookup_events_set _ _ Hall) as (flags & -> & ->).
      destruct (dep_results _ _ _); [by eauto|].
      destruct (ws_tasks w !! pick); by eauto.
  - intros m' coros coros' Hs Hco Hco'.
    destruct ph as [|s|]; [done| |done].
    destruct s as [| | |coros0 completed events| |]; try done.
    simplify_eq.
    destruct (graph_gather_step _ _ _ _ _ _ Hs)
      as [[_ ->]|(c & c' & d & w' & co' & ev' & Hc & Hd & -> & Hlt & _)];
      [done|].
    simpl in Hco'. simplify_eq. split.
    + intros j Hne. by rewrite list_lookup_insert_ne.
    + exists c, c'. split_and!; [done| |done].
      apply list_lookup_insert_eq. by eapply lookup_lt_Some.
  - intros m' events events' dep_id Hs Hev Hev'.
    destruct ph as [|s|]; [done| |done].
    destruct s as [| | |coros completed events0| |]; try done.
    simplify_eq.
    destruct (graph_gather_step _ _ _ _ _ _ Hs)
      as [[_ ->]|(c & c' & d & w' & co' & ev' & Hc & Hd & -> & Hlt & Hor)];
      [done|].
    simpl in Hev'. simplify_eq.
    destruct Hor as [(_ & -> & _)|
                     (ctx & t & t' & r & -> & -> & Ht & Ht' & Hterm & _ & ->)].
    + split; [done|]. by intros ? ?.
    + split.
      * intros Hset. destruct (decide (dep_id = agent_id d)) as [->|Hne].
        -- by rewrite lookup_insert_eq.
        -- by rewrite lookup_insert_ne.
      * intros Hunset Hset.
        destruct (decide (dep_id = agent_id d)) as [->|Hne];
          [|by rewrite lookup_insert_ne in Hset].
        exists d, t, t'. split_and!; try done.
        pose proof Hg as (_ & Htr & _). simpl in Htr.
        by eapply tracks_running.
Qed.

End GraphMode.

Lemma graph_dependencies_first_witness :
  workflow_type (workflow_of Graph
     [task "A" "backend" []; task "B" "backend" ["A"];
      task "C" "qa" ["A"; "B"]]) = Graph ∧
  statuses (execution (mock_agent "t0")
     (workflow_of Graph
        [task "A" "backend" []; task "B" "backend" ["A"];
         task "C" "qa" ["A"; "B"]])
     (submitted (workflow_of Graph
        [task "A" "backend" []; task "B" "backend" ["A"];
         task "C" "qa" ["A"; "B"]]))
     [0; 2; 1; 0; 0; 1; 1]) = [Completed; Completed; Pending] ∧
  ∃ m',
    step (mock_agent "t0")
      (workflow_of Graph
         [task "A" "backend" []; task "B" "backend" ["A"];
          task "C" "qa" ["A"; "B"]]) 2
      (execution (mock_agent "t0")
         (workflow_of Graph
            [task "A" "backend" []; task "B" "backend" ["A"];
             task "C" "qa" ["A"; "B"]])
         (submitted (workflow_of Graph
            [task "A" "backend" []; task "B" "backend" ["A"];
             task "C" "qa" ["A"; "B"]]))
         [0; 2; 1; 0; 0; 1; 1]) = Some m' ∧
    statuses m' = [Completed; Completed; Running] ∧
    ∃ j dep_def tj,
      tasks (workflow_of Graph
         [task "A" "backend" []; task "B" "backend" ["A"];
          task "C" "qa" ["A"; "B"]]) !! j = Some dep_def ∧
      agent_id dep_def = "B" ∧
      ws_tasks (workflow (execution (mock_agent "t0")
         (workflow_of Graph
            [task "A" "backend" []; task "B" "backend" ["A"];
             task "C" "qa" ["A"; "B"]])
         (submitted (workflow_of Graph
            [task "A" "backend" []; task "B" "backend" ["A"];
             task "C" "qa" ["A"; "B"]]))
         [0; 2; 1; 0; 0; 1; 1])) !! j = Some tj ∧
      terminal (ts_status tj).
Proof.
  split; [reflexivity|].
  split; [vm_compute; reflexivity|].
  eexists. split; [vm_compute; reflexivity|].
  split; [vm_compute; reflexivity|].
  destruct (graph_dependencies_first (mock_agent "t0")
              (workflow_of Graph
                 [task "A" "backend" []; task "B" "backend" ["A"];
                  task "C" "qa" ["A"; "B"]])
              (submitted (workflow_of Graph
                 [task "A" "backend" []; task "B" "backend" ["A"];
                  task "C" "qa" ["A"; "B"]]))
              eq_refl [0; 2; 1; 0; 0; 1; 1]) as [Hfirst _].
  refine (proj1 (Hfirst 2 _ 2 (task "C" "qa" ["A"; "B"]) _ _ "B"
                   _ eq_refl _ _ _ _ _)).
  - vm_compute; reflexivity.
  - vm_compute; reflexivity.
  - vm_compute; reflexivity.
  - vm_compute; discriminate.
  - vm_compute; reflexivity.
  - apply list_elem_of_further, list_elem_of_here.
Defined.

(** C6 as stated fails when two tasks carry the same agent id: the
    events are keyed by agent id, so B, which depends on "A", starts as
    soon as the first task carrying "A" has ended, while the second one
    is still Pending. *)
Lemma repeated_agent_id_starts_early_counterexample :
  (∀ dep_id, dep_id ∈ depends_on (task "B" "qa" ["A"]) →
     dep_id ∈ agent_id <$>
       tasks (workflow_of Graph
                [task "A" "backend" []; task "A" "qa" [];
                 task "B" "qa" ["A"]])) ∧
  statuses (execution (mock_agent "t0")
     (workflow_of Graph
        [task "A" "backend" []; task "A" "qa" []; task "B" "qa" ["A"]])
     (submitted (workflow_of Graph
        [task "A" "backend" []; task "A" "qa" []; task "B" "qa" ["A"]]))
     [0; 0; 0; 2]) = [Completed; Pending; Pending] ∧
  ∃ m',
    step (mock_agent "t0")
      (workflow_of Graph
         [task "A" "backend" []; task "A" "qa" []; task "B" "qa" ["A"]]) 2
      (execution (mock_agent "t0")
         (workflow_of Graph
            [task "A" "backend" []; task "A" "qa" []; task "B" "qa" ["A"]])
         (submitted (workflow_of Graph
            [task "A" "backend" []; task "A" "qa" []; task "B" "qa" ["A"]]))
         [0; 0; 0; 2]) = Some m' ∧
    statuses m' = [Completed; Pending; Running] ∧
    ¬ (∀ j dep_def s,
         tasks (workflow_of Graph
                  [task "A" "backend" []; task "A" "qa" [];
                   task "B" "qa" ["A"]]) !! j = Some dep_def →
         agent_id dep_def ∈ depends_on (task "B" "qa" ["A"]) →
         statuses (execution (mock_agent "t0")
            (workflow_of Graph
               [task "A" "backend" []; task "A" "qa" []; task "B" "qa" ["A"]])
            (submitted (workflow_of Graph
               [task "A" "backend" []; task "A" "qa" [];
                task "B" "qa" ["A"]]))
            [0; 0; 0; 2]) !! j = Some s →
         terminal s).
Proof.
  split.
  { intros dep_id Hin. apply list_elem_of_singleton in Hin as ->.
    apply list_elem_of_here. }
  split; [vm_compute; reflexivity|].
  eexists. split; [vm_compute; reflexivity|].
  split; [vm_compute; reflexivity|].
  intros H.
  destruct (H 1 (task "A" "qa" []) Pending eq_refl
              (list_elem_of_here _ _) ltac:(vm_compute; reflexivity))
    as [Hc|Hf]; discriminate.
Qed.

Lemma failed_dependency_in_context_witness :
  workflow_type (workflow_of Graph
     [task "A" "backend" []; task "B" "qa" ["A"]]) = Graph ∧
  statuses (execution (flaky_agent ["A"] "t0")
     (workflow_of Graph [task "A" "backend" []; task "B" "qa" ["A"]])
     (submitted (workflow_of Graph
        [task "A" "backend" []; task "B" "qa" ["A"]]))
     [0; 0; 0; 1; 1]) = [Failed; Running] ∧
  ∃ context d,
    context_of (execution (flaky_agent ["A"] "t0")
      (workflow_of Graph [task "A" "backend" []; task "B" "qa" ["A"]])
      (submitted (workflow_of Graph
         [task "A" "backend" []; task "B" "qa" ["A"]]))
      [0; 0; 0; 1; 1]) 1 = Some context ∧
    context = VDict d ∧
    ∀ dep_id, dep_id ∈ ["A"] → ∃ v, d !! dep_id = Some v.
Proof.
  split; [reflexivity|].
  split; [vm_compute; reflexivity|].
  eexists.
  destruct (failed_dependency_in_context (flaky_agent ["A"] "t0")
              (workflow_of Graph [task "A" "backend" []; task "B" "qa" ["A"]])
              (submitted (workflow_of Graph
                 [task "A" "backend" []; task "B" "qa" ["A"]]))
              eq_refl [0; 0; 0; 1; 1] 1 (task "B" "qa" ["A"]) _
              eq_refl ltac:(discriminate) ltac:(vm_compute; reflexivity))
    as (d & Hd & Hall).
  exists d. split; [vm_compute; reflexivity|]. split; [exact Hd|].
  intros dep_id Hin. destruct (Hall dep_id Hin) as (v & Hv & _).
  exists v. exact Hv.
Defined.

(** C3 as stated fails: task A fails, B depends on A, and the context B
    executes with has an entry for "A", holding the null value. *)
Lemma failed_dependency_present_counterexample :
  statuses (execution (flaky_agent ["A"] "t0")
     (workflow_of Graph [task "A" "backend" []; task "B" "qa" ["A"]])
     (submitted (workflow_of Graph
        [task "A" "backend" []; task "B" "qa" ["A"]]))
     [0; 0; 0; 1; 1]) = [Failed; Running] ∧
  ∃ d,
    context_of (execution (flaky_agent ["A"] "t0")
      (workflow_of Graph [task "A" "backend" []; task "B" "qa" ["A"]])
      (submitted (workflow_of Graph
         [task "A" "backend" []; task "B" "qa" ["A"]]))
      [0; 0; 0; 1; 1]) 1 = Some (VDict d) ∧
    d !! "A" = Some VNone ∧
    ¬ (d !! "A" = None).
Proof.
  split; [vm_compute; reflexivity|].
  eexists. split; [vm_compute; reflexivity|].
  split; [vm_compute; reflexivity|]. vm_compute. discriminate.
Qed.

Lemma dangling_dependency_never_runs_witness :
  workflow_type (workflow_of Graph
     [task "G" "qa" ["ghost"]; task "A" "backend" []]) = Graph ∧
  pristine (submitted (workflow_of Graph
     [task "G" "qa" ["ghost"]; task "A" "backend" []])) ∧
  dangling [task "G" "qa" ["ghost"]; task "A" "backend" []]
    (task "G" "qa" ["ghost"]) ∧
  statuses (execution (mock_agent "t0")
     (workflow_of Graph [task "G" "qa" ["ghost"]; task "A" "backend" []])
     (submitted (workflow_of Graph
        [task "G" "qa" ["ghost"]; task "A" "backend" []]))
     [0; 0; 1; 1]) = [Pending; Completed] ∧
  ∀ t,
    ws_tasks (workflow (execution (mock_agent "t0")
       (workflow_of Graph [task "G" "qa" ["ghost"]; task "A" "backend" []])
       (submitted (workflow_of Graph
          [task "G" "qa" ["ghost"]; task "A" "backend" []]))
       [0; 0; 1; 1])) !! 0 = Some t →
    ts_status t = Pending.
Proof.
  assert (dangling [task "G" "qa" ["ghost"]; task "A" "backend" []]
            (task "G" "qa" ["ghost"])) as Hdang.
  { exists "ghost". split; [apply list_elem_of_here|].
    simpl. intros Hin.
    apply elem_of_cons in Hin as [Hin|Hin]; [discriminate Hin|].
    apply elem_of_cons in Hin as [Hin|Hin]; [discriminate Hin|].
    by apply elem_of_nil in Hin. }
  split; [reflexivity|].
  split; [apply run_graph_pristine|].
  split; [exact Hdang|].
  split; [vm_compute; reflexivity|].
  exact (proj2 (proj1 (dangling_dependency_never_runs (mock_agent "t0")
                  (workflow_of Graph
                     [task "G" "qa" ["ghost"]; task "A" "backend" []])
                  (submitted (workflow_of Graph
                     [task "G" "qa" ["ghost"]; task "A" "backend" []]))
                  eq_refl [0; 0; 1; 1] 0 (task "G" "qa" ["ghost"])
                  (run_graph_pristine _ _ _) eq_refl Hdang))).
Defined.

(** C7 as stated fails: with a single task that depends on an id no
    task carries, the strategy returns after the coroutine's first run,
    the job ends, and the task is still Pending. *)
Lemma dangling_dependency_returns_counterexample :
  phase (execution (mock_agent "t0")
           (workflow_of Graph [task "G" "qa" ["ghost"]])
           (submitted (workflow_of Graph [task "G" "qa" ["ghost"]]))
           [0; 0; 0]) = Trying Returned ∧
  phase (execution (mock_agent "t0")
           (workflow_of Graph [task "G" "qa" ["ghost"]])
           (submitted (workflow_of Graph [task "G" "qa" ["ghost"]]))
           [0; 0; 0; 0]) = Finished ∧
  statuses (execution (mock_agent "t0")
              (workflow_of Graph [task "G" "qa" ["ghost"]])
              (submitted (workflow_of Graph [task "G" "qa" ["ghost"]]))
              [0; 0; 0; 0]) = [Pending] ∧
  ¬ (∀ schedule,
       phase (execution (mock_agent "t0")
                (workflow_of Graph [task "G" "qa" ["ghost"]])
                (submitted (workflow_of Graph [task "G" "qa" ["ghost"]]))
                schedule) ≠ Trying Returned).
Proof.
  split; [vm_compute; reflexivity|].
  split; [vm_compute; reflexivity|].
  split; [vm_compute; reflexivity|].
  intros H. apply (H [0; 0; 0]). vm_compute; reflexivity.
Qed.

Lemma graph_waits_on_events_witness :
  workflow_type (workflow_of Graph
     [task "A" "backend" []; task "B" "qa" ["A"]]) = Graph ∧
  graph_coroutines (execution (mock_agent "t0")
     (workflow_of Graph [task "A" "backend" []; task "B" "qa" ["A"]])
     (submitted (workflow_of Graph
        [task "A" "backend" []; task "B" "qa" ["A"]]))
     [0; 1; 0]) = Some [Executing VNone; Waiting] ∧
  step (mock_agent "t0")
    (workflow_of Graph [task "A" "backend" []; task "B" "qa" ["A"]]) 1
    (execution (mock_agent "t0")
       (workflow_of Graph [task "A" "backend" []; task "B" "qa" ["A"]])
       (submitted (workflow_of Graph
          [task "A" "backend" []; task "B" "qa" ["A"]]))
       [0; 1; 0]) = None ∧
  ∃ task_events,
    graph_events (execution (mock_agent "t0")
       (workflow_of Graph [task "A" "backend" []; task "B" "qa" ["A"]])
       (submitted (workflow_of Graph
          [task "A" "backend" []; task "B" "qa" ["A"]]))
       [0; 1; 0]) = Some task_events ∧
    task_events !! "A" = Some false ∧
    (is_Some (step (mock_agent "t0")
                (workflow_of Graph [task "A" "backend" []; task "B" "qa" ["A"]])
                1
                (execution (mock_agent "t0")
                   (workflow_of Graph
                      [task "A" "backend" []; task "B" "qa" ["A"]])
                   (submitted (workflow_of Graph
                      [task "A" "backend" []; task "B" "qa" ["A"]]))
                   [0; 1; 0])) ↔
     ∀ dep_id, dep_id ∈ ["A"] → task_events !! dep_id = Some true).
Proof.
  split; [reflexivity|].
  split; [vm_compute; reflexivity|].
  split; [vm_compute; reflexivity|].
  eexists. split; [vm_compute; reflexivity|].
  split; [vm_compute; reflexivity|].
  refine (proj1 (graph_waits_on_events (mock_agent "t0")
                   (workflow_of Graph
                      [task "A" "backend" []; task "B" "qa" ["A"]])
                   (submitted (workflow_of Graph
                      [task "A" "backend" []; task "B" "qa" ["A"]]))
                   eq_refl [0; 1; 0] 1)
            _ _ (task "B" "qa" ["A"]) _ _ _ eq_refl);
    vm_compute; reflexivity.
Defined.

(** * Submission *)

(** C9.  A request without tasks, in any mode: [run_graph] stores a
    Pending record without tasks; the job found under its id marks it
    Running, the strategy returns at once, and the job ends with the
    workflow Completed.  The statuses seen are Pending, Running,
    Completed, under every agent and every schedule. *)
Theorem empty_workflow_completes run_agent store wid ty meta uuid p1 p2 p3 p4 :
  ∃ w store' job_id m1 m2 m3,
    run_graph store (mkWorkflowRequest wid ty [] meta) uuid
      = (w, store', (job_id, mkWorkflowRequest wid ty [] meta)) ∧
    execute_workflow run_agent (mkWorkflowRequest wid ty [] meta) store' job_id []
      = inr (job w) ∧
    ws_status w = WfPending ∧ ws_tasks w = [] ∧
    step run_agent (mkWorkflowRequest wid ty [] meta) p1 (job w) = Some m1 ∧
    ws_status (workflow m1) = WfRunning ∧
    step run_agent (mkWorkflowRequest wid ty [] meta) p2 m1 = Some m2 ∧
    ws_status (workflow m2) = WfRunning ∧
    step run_agent (mkWorkflowRequest wid ty [] meta) p3 m2 = Some m3 ∧
    ws_status (workflow m3) = WfCompleted ∧
    phase m3 = Finished ∧
    step run_agent (mkWorkflowRequest wid ty [] meta) p4 m3 = None.
Proof.
  unfold run_graph. simpl.
  eexists _, _, _. unfold execute_workflow. rewrite lookup_insert_eq.
  destruct ty; eexists _, _, _; split_and!; reflexivity.
Qed.

(** C10.  Submitting a request whose id is that of a stored workflow
    succeeds: the response is a fresh record, Pending with every task
    Pending, built from the request alone; the store now holds it under
    that id in place of the old record, every other entry is as before,
    and the queued job will find the new record.  The id must not be
    the empty string, which [run_graph] treats like a missing id. *)
Theorem resubmission_replaces run_agent store request uuid wid old :
  workflow_id request = Some wid → wid ≠ "" →
  store !! wid = Some old →
  ∃ new store',
    run_graph store request uuid = (new, store', (wid, request)) ∧
    new = mkWorkflowStatus wid (workflow_type request) WfPending
            (imap (initial_task wid) (tasks request)) (metadata request) ∧
    ws_status new = WfPending ∧ pristine new ∧
    get_status store' wid = Some new ∧
    (∀ other, other ≠ wid → get_status store' other = get_status store other) ∧
    execute_workflow run_agent request store' wid [] = inr (job new).
Proof.
  intros Hid Hne Hold. unfold run_graph, choose_workflow_id.
  rewrite Hid. rewrite decide_False by done.
  eexists _, _. split_and!; try reflexivity.
  - pose proof (run_graph_pristine store request uuid) as Hp.
    unfold run_graph, choose_workflow_id in Hp.
    rewrite Hid in Hp. by rewrite decide_False in Hp by done.
  - unfold get_status. by rewrite lookup_insert_eq.
  - intros other Hother. unfold get_status. by rewrite lookup_insert_ne.
  - unfold execute_workflow. by rewrite lookup_insert_eq.
Qed.

Lemma resubmission_replaces_witness :
  workflow_id (workflow_of Parallel [task "A" "backend" []]) = Some "wf" ∧
  "wf" ≠ "" ∧
  (<["wf" := submitted (workflow_of Sequential
                          [task "X" "qa" []; task "Y" "qa" []])]>
     (∅ : gmap string WorkflowStatus)) !! "wf"
    = Some (submitted (workflow_of Sequential
                         [task "X" "qa" []; task "Y" "qa" []])) ∧
  ∃ new store',
    run_graph
      (<["wf" := submitted (workflow_of Sequential
                              [task "X" "qa" []; task "Y" "qa" []])]> ∅)
      (workflow_of Parallel [task "A" "backend" []]) "u"
      = (new, store', ("wf", workflow_of Parallel [task "A" "backend" []])) ∧
    ws_status new = WfPending ∧
    get_status store' "wf" = Some new.
Proof.
  split; [reflexivity|]. split; [discriminate|].
  split; [apply lookup_insert_eq|].
  destruct (resubmission_replaces (mock_agent "t0")
              (<["wf" := submitted (workflow_of Sequential
                                      [task "X" "qa" []; task "Y" "qa" []])]> ∅)
              (workflow_of Parallel [task "A" "backend" []]) "u" "wf"
              (submitted (workflow_of Sequential
                            [task "X" "qa" []; task "Y" "qa" []]))
              eq_refl ltac:(discriminate) (lookup_insert_eq _ _ _))
    as (new & store' & Hrun & _ & Hst & _ & Hget & _).
  exists new, store'. exact (conj Hrun (conj Hst Hget)).
Defined.

(** * The Swarms executor polls

    Unlike a waiting coroutine of [execute_graph], a sleeping coroutine
    of the Swarms executor whose dependencies are not all recorded can
    always run, and running it changes nothing: it wakes up, tests again
    and sleeps again. *)
Lemma swarms_step_polls run_task defs i s task_def dep_id :
  sw_coros s !! i = Some PollSleeping →
  defs !! i = Some task_def →
  dep_id ∈ depends_on task_def →
  sw_results s !! dep_id = None →
  swarms_step run_task defs i s = Some s.
Proof.
  intros Hc Hdef Hin Hnone. unfold swarms_step. rewrite Hc, Hdef.
  destruct (depends_on task_def) as [|dep deps] eqn:Hdeps;
    [by apply elem_of_nil in Hin|].
  assert (dependencies_met (sw_results s) (dep :: deps) = false) as ->.
  { destruct (dependencies_met _ _) eqn:Hmet; [|done].
    unfold dependencies_met in Hmet. rewrite forallb_forall in Hmet.
    apply list_elem_of_In, Hmet, bool_decide_eq_true in Hin.
    rewrite Hnone in Hin. by destruct Hin. }
  simpl. rewrite list_insert_id by done. by destruct s.
Qed.

(** * The store endpoints *)

Lemma run_graph_task_lookup store request uuid i :
  ws_tasks (run_graph store request uuid).1.1 !! i
  = initial_task (choose_workflow_id request uuid) i <$> tasks request !! i.
Proof. unfold run_graph; simpl. apply list_lookup_imap. Qed.

(** X1.  [run_graph] stores its response under the id it chose, leaves
    every other entry alone, and the workflow count of [health_check]
    grows by one when the id was not stored and stays when it was. *)
Theorem run_graph_stores store request uuid :
  ws_workflow_id (run_graph store request uuid).1.1
    = choose_workflow_id request uuid ∧
  get_status (run_graph store request uuid).1.2
    (choose_workflow_id request uuid)
    = Some (run_graph store request uuid).1.1 ∧
  (∀ other, other ≠ choose_workflow_id request uuid →
     get_status (run_graph store request uuid).1.2 other
       = get_status store other) ∧
  (get_status store (choose_workflow_id request uuid) = None →
     health_check (run_graph store request uuid).1.2
       = S (health_check store)) ∧
  (is_Some (get_status store (choose_workflow_id request uuid)) →
     health_check (run_graph store request uuid).1.2 = health_check store).
Proof.
  unfold run_graph, get_status, health_check; simpl. split_and!.
  - done.
  - by rewrite lookup_insert_eq.
  - intros other Hne. by rewrite lookup_insert_ne.
  - intros Hnew. by rewrite map_size_insert_None.
  - intros Hold. by rewrite map_size_insert_Some.
Qed.

(** X2.  [delete_workflow] answers 404 for an id that is not stored and
    changes nothing; for a stored id it removes exactly that entry, the
    count drops by one and a second delete answers 404; deleting a
    workflow just submitted under an unused id gives back the store as
    it was before the submission. *)
Theorem delete_workflow_removes store wid :
  (get_status store wid = None → delete_workflow store wid = None) ∧
  (∀ w, get_status store wid = Some w →
     ∃ store',
       delete_workflow store wid = Some store' ∧
       get_status store' wid = None ∧
       (∀ other, other ≠ wid → get_status store' other = get_status store other) ∧
       S (health_check store') = health_check store ∧
       delete_workflow store' wid = None) ∧
  (∀ request uuid,
     choose_workflow_id request uuid = wid →
     get_status store wid = None →
     delete_workflow (run_graph store request uuid).1.2 wid = Some store).
Proof.
  unfold delete_workflow, get_status, health_check. split_and!.
  - by intros ->.
  - intros w Hw. rewrite Hw. eexists. split_and!; [done| | | |].
    + by rewrite lookup_delete_eq.
    + intros other Hne. by rewrite lookup_delete_ne.
    + rewrite map_size_delete_Some by eauto.
      assert (size store ≠ 0); [|lia].
      intros Hz. apply map_size_empty_inv in Hz. subst.
      by rewrite lookup_empty in Hw.
    + by rewrite lookup_delete_eq.
  - intros request uuid <- Hnew. unfold run_graph; simpl.
    rewrite lookup_insert_eq. by rewrite delete_insert_id.
Qed.

(** X3.  The records [run_graph] builds mirror the request: one record
    per task, in order, Pending, without result or error, carrying the
    task's agent id and role; their task ids are pairwise distinct. *)
Theorem run_graph_records store request uuid :
  length (ws_tasks (run_graph store request uuid).1.1)
    = length (tasks request) ∧
  (∀ i task_def, tasks request !! i = Some task_def →
     ∃ t, ws_tasks (run_graph store request uuid).1.1 !! i = Some t ∧
          ts_agent_id t = agent_id task_def ∧
          ts_agent_role t = agent_role task_def ∧
          ts_status t = Pending ∧ ts_result t = VNone ∧ ts_error t = None) ∧
  NoDup (ts_task_id <$> ws_tasks (run_graph store request uuid).1.1).
Proof.
  split_and!.
  - unfold run_graph; simpl. apply length_imap.
  - intros i task_def Hi. rewrite run_graph_task_lookup, Hi. simpl.
    eexists. by split_and!.
  - apply NoDup_alt. intros i j s Hi Hj.
    rewrite list_lookup_fmap, run_graph_task_lookup in Hi, Hj.
    destruct (tasks request !! i); [|done].
    destruct (tasks request !! j); [|done].
    simpl in *. by simplify_eq.
Qed.

(** X19.  The job [run_graph] queues finds the record [run_graph] stored
    and runs on it, whatever the store held before; when the workflow is
    deleted before the job starts, the job raises KeyError for the id
    before its [try], so no status is written and nothing handles it. *)
Theorem queued_job_finds_record run_agent store request uuid schedule :
  execute_workflow run_agent (run_graph store request uuid).2.2
    (run_graph store request uuid).1.2 (run_graph store request uuid).2.1
    schedule
  = inr (execution run_agent request (run_graph store request uuid).1.1
           schedule) ∧
  ∀ store',
    delete_workflow (run_graph store request uuid).1.2
      (run_graph store request uuid).2.1 = Some store' →
    execute_workflow run_agent (run_graph store request uuid).2.2
      store' (run_graph store request uuid).2.1 schedule
    = inl (KeyError (choose_workflow_id request uuid)).
Proof.
  unfold execute_workflow, delete_workflow, run_graph; simpl. split.
  - by rewrite lookup_insert_eq.
  - intros store'. rewrite lookup_insert_eq. intros [= <-].
    by rewrite lookup_delete_eq.
Qed.

(** * Every transition of [step] is one of the listed cases *)

Lemma step_Transition run_agent request pick m m' :
  step run_agent request pick m = Some m' ↔
  Transition run_agent request pick m m'.
Proof.
  split.
  - unfold step. destruct m as [w ph]; simpl.
    destruct ph as [|s|]; [| |done].
    { intros [= <-]. constructor. }
    destruct s as [i prev|i prev|coros|coros completed events| |e].
    + unfold execute_sequential_loop.
      destruct (tasks request !! i) as [task_def|] eqn:Hdef.
      * destruct (ws_tasks w !! i) as [t|] eqn:Ht; intros [= <-].
        -- by eapply T_seq_call.
        -- by eapply T_seq_index_error.
      * intros [= <-]. by constructor.
    + unfold execute_sequential_resume.
      destruct (tasks request !! i) as [task_def|] eqn:Hdef; [|done].
      destruct (ws_tasks w !! i) as [t|] eqn:Ht; [|done].
      destruct (execute_task_finish _ _ _ _) as [t' result] eqn:Hfin.
      simpl. intros [= <-]. by eapply T_seq_return.
    + destruct (forallb finished coros) eqn:Hall.
      { intros [= <-]. by constructor. }
      unfold execute_parallel_coroutine.
      destruct (coros !! pick) as [c|] eqn:Hc; [|done].
      destruct c as [| |context| |]; try done;
        destruct (tasks request !! pick) as [task_def|] eqn:Hdef; try done;
        destruct (ws_tasks w !! pick) as [t|] eqn:Ht; try done.
      * simpl. intros [= <-]. by eapply T_par_call.
      * destruct (execute_task_finish _ _ _ _) as [t' result] eqn:Hfin.
        simpl. intros [= <-]. by eapply T_par_return.
    + destruct (forallb finished coros) eqn:Hall.
      { intros [= <-]. by constructor. }
      unfold execute_with_deps, call_execute_task.
      destruct (coros !! pick) as [c|] eqn:Hc; [|done].
      destruct (tasks request !! pick) as [task_def|] eqn:Hdef;
        [|by destruct c].
      destruct c as [| |context| |]; [| | |done|done].
      * destruct (depends_on task_def) as [|dep deps] eqn:Hdeps.
        -- destruct (ws_tasks w !! pick) as [t|] eqn:Ht;
             simpl; intros [= <-].
           ++ by eapply T_graph_call_free.
           ++ eapply T_graph_fault; [done..|]. left. by rewrite Hdeps.
        -- destruct (lookup_events events (dep :: deps)) as [e|flags] eqn:Hev;
             simpl; intros [= <-].
           ++ eapply T_graph_fault; [done..|]. right; left.
              by rewrite Hdeps.
           ++ eapply T_graph_wait; [done..| |]; by rewrite Hdeps.
      * destruct (lookup_events events (depends_on task_def))
          as [e|flags] eqn:Hev; [done|].
        destruct (forallb id flags) eqn:Hflags; [|done].
        assert (∀ dep_id, dep_id ∈ depends_on task_def →
                  events !! dep_id = Some true) as Hset.
        { intros dep_id Hin. by eapply lookup_events_all_set. }
        destruct (dep_results completed (depends_on task_def) ∅)
          as [e|d] eqn:Hres.
        -- simpl. intros [= <-]. eapply T_graph_fault; [done..|].
           right; right; left. done.
        -- destruct (ws_tasks w !! pick) as [t|] eqn:Ht;
             simpl; intros [= <-].
           ++ by eapply T_graph_call.
           ++ eapply T_graph_fault; [done..|]. right; right; right.
              split_and!; eauto.
      * destruct (ws_tasks w !! pick) as [t|] eqn:Ht; [|done].
        destruct (execute_task_finish _ _ _ _) as [t' result] eqn:Hfin.
        simpl. intros [= <-]. by eapply T_graph_return.
    + intros [= <-]. constructor.
    + intros [= <-]. constructor.
  - intros Htr. destruct Htr; unfold step; simpl;
      unfold execute_sequential_loop, execute_sequential_resume,
        execute_parallel_coroutine, execute_with_deps, call_execute_task;
      repeat match goal with
             | H : _ !! _ = _ |- _ => rewrite H
             | H : forallb finished _ = _ |- _ => rewrite H
             | H : execute_task_finish _ _ _ _ = _ |- _ => rewrite H
             | H : depends_on _ = [] |- _ => rewrite H
             end; simpl; try done.
    + (* a coroutine faults *)
      match goal with H : _ ∨ _ |- _ =>
        destruct H as [(-> & Hd & Hr & ->)|[(-> & Hd & Hl)|
                      [(-> & Hs & Hr)|(-> & Hs & (d & Hr) & Ht & ->)]]] end.
      * by rewrite Hd, Hr.
      * destruct (depends_on task_def); [done|]. by rewrite Hl.
      * destruct (lookup_events_set _ _ Hs) as (flags & -> & ->).
        by rewrite Hr.
      * destruct (lookup_events_set _ _ Hs) as (flags & -> & ->).
        by rewrite Hr, Ht.
    + destruct (depends_on task_def); [done|].
      match goal with H : lookup_events _ _ = _ |- _ => by rewrite H end.
    + match goal with H : ∀ _, _ → _ !! _ = Some true |- _ =>
        destruct (lookup_events_set _ _ H) as (flags & -> & ->) end.
      match goal with H : dep_results _ _ _ = _ |- _ => by rewrite H end.
Qed.

(** * Induction over executions *)

Lemma execution_invariant run_agent request w0 (P : Machine → Prop) :
  P (job w0) →
  (∀ pick m m',
     inv request w0 m → P m → Transition run_agent request pick m m' → P m') →
  ∀ schedule, P (execution run_agent request w0 schedule).
Proof.
  intros Hjob Hstep schedule. unfold execution.
  assert (∀ m, inv request w0 m → P m →
            P (run run_agent request schedule m)) as Hrun.
  { induction schedule as [|pick schedule IH]; intros m Hinv HP; [done|].
    simpl. destruct (step run_agent request pick m) as [m'|] eqn:Hs.
    - apply IH; [by eapply inv_step|].
      eapply Hstep; [done..|]. by apply step_Transition.
    - by apply IH. }
  apply Hrun; [apply inv_job|done].
Qed.

Lemma inv_execution run_agent request w0 schedule :
  inv request w0 (execution run_agent request w0 schedule).
Proof. apply inv_run. Qed.



(** * Faults of the strategies *)

Section Faults.

Variable run_agent : AgentTask → Value → Value + string.
Variable request : WorkflowRequest.
Variable w0 : WorkflowStatus.

Lemma raised_cause m :
  inv request w0 m →
  ∀ pick m' e',
    Transition run_agent request pick m m' →
    phase m' = Trying (Raised e') →
    e' = IndexError ∧
    length (ws_tasks w0) < length (tasks request) ∧
    workflow_type request ≠ Graph ∧
    (workflow_type request = Parallel →
     ws_tasks (workflow m') = ws_tasks w0).
Proof.
  intros (_ & Hlen & Hinv) pick m' e' Htr Hph.
  inversion Htr; subst; simpl in *; try done.
  - unfold enter_strategy in Hph.
    destruct (workflow_type request) eqn:Hty; [done| |done].
    case_decide as Hle; [done|]. simplify_eq. simpl in Hle.
    split_and!; [done|lia|done|]. intros _. exact Hinv.
  - simplify_eq.
    destruct (workflow_type request) eqn:Hty; [|done..].
    split_and!; [done| |done|done].
    rewrite <- Hlen.
    match goal with
    | H1 : tasks request !! _ = Some _, H2 : ws_tasks _ !! _ = None |- _ =>
        apply lookup_lt_Some in H1; apply lookup_ge_None in H2; lia
    end.
  - by destruct (_ && _).
Qed.

(** X4.  The only exception a strategy lets escape is the IndexError of
    [workflow.tasks[i]], and only when the record has fewer tasks than
    the request; never in Graph mode.  In Parallel mode no task has run
    by then, in Sequential mode every task of the record has already
    ended.  So on a record with at least as many tasks as the request
    the exception handler of [execute_workflow] never runs, whatever the
    agents do. *)
Theorem strategy_raises_only_index_error schedule e :
  phase (execution run_agent request w0 schedule) = Trying (Raised e) →
  e = IndexError ∧
  length (ws_tasks w0) < length (tasks request) ∧
  workflow_type request ≠ Graph ∧
  (workflow_type request = Parallel →
   ws_tasks (workflow (execution run_agent request w0 schedule))
     = ws_tasks w0) ∧
  (workflow_type request = Sequential →
   ∀ t, t ∈ ws_tasks (workflow (execution run_agent request w0 schedule)) →
        terminal (ts_status t)).
Proof.
  intros Hph.
  assert (e = IndexError ∧
          length (ws_tasks w0) < length (tasks request) ∧
          workflow_type request ≠ Graph ∧
          (workflow_type request = Parallel →
           ws_tasks (workflow (execution run_agent request w0 schedule))
             = ws_tasks w0)) as (He & Hlt & Hg & Hpar).
  { revert e Hph.
    apply (execution_invariant run_agent request w0
             (λ m, ∀ e, phase m = Trying (Raised e) →
                e = IndexError ∧
                length (ws_tasks w0) < length (tasks request) ∧
                workflow_type request ≠ Graph ∧
                (workflow_type request = Parallel →
                 ws_tasks (workflow m) = ws_tasks w0))); [done|].
    intros pick m m' Hinv HP Htr e Hph.
    by eapply raised_cause. }
  split_and!; [done..|].
  intros Hseq.
  pose proof (inv_execution run_agent request w0 schedule) as (_ & _ & Hinv).
  rewrite Hseq in Hinv. unfold sequential_inv in Hinv. rewrite Hph in Hinv.
  by destruct Hinv.
Qed.

(** X5.  When the strategy has returned with a task that is not
    Completed and no task Failed, the job ends without assigning the
    workflow status: the workflow is left Running although the job is
    over. *)
Theorem unfinished_workflow_stays_running schedule pick m' :
  phase (execution run_agent request w0 schedule) = Trying Returned →
  step run_agent request pick (execution run_agent request w0 schedule)
    = Some m' →
  (∃ t, t ∈ ws_tasks (workflow (execution run_agent request w0 schedule)) ∧
        ts_status t ≠ Completed) →
  (∀ t, t ∈ ws_tasks (workflow (execution run_agent request w0 schedule)) →
        ts_status t ≠ Failed) →
  phase m' = Finished ∧
  ws_status (workflow m') = WfRunning ∧
  step run_agent request pick m' = None.
Proof.
  intros Hph Hs (t & Ht & Hnc) Hnf.
  pose proof (inv_execution run_agent request w0 schedule) as (Hrun & _).
  unfold running_inv in Hrun. rewrite Hph in Hrun.
  unfold step in Hs. rewrite Hph in Hs. simplify_eq/=.
  split_and!; [done| |done].
  unfold aggregate.
  destruct (all_completed _) eqn:Hall.
  { pose proof (proj1 (all_completed_spec _) Hall t Ht). done. }
  destruct (any_failed _) eqn:Hany; [|done].
  destruct (proj1 (any_failed_spec _) Hany) as (t' & Ht' & Hf).
  by destruct (Hnf t' Ht').
Qed.

End Faults.

(** * Termination *)

Lemma progress_le c : progress c ≤ 3.
Proof. destruct c; simpl; lia. Qed.

Lemma sum_progress_cons c (coros : list Coroutine) :
  sum_list_with (λ c, 3 - progress c) (c :: coros)
  = (3 - progress c) + sum_list_with (λ c, 3 - progress c) coros.
Proof. reflexivity. Qed.

Lemma sum_progress_replicate n :
  sum_list_with (λ c, 3 - progress c) (replicate n Created) = 3 * n.
Proof.
  induction n as [|n IH]; [done|].
  change (replicate (S n) Created) with (Created :: replicate n Created).
  rewrite sum_progress_cons, IH. cbn [progress]. lia.
Qed.

Lemma run_app run_agent request s1 s2 m :
  run run_agent request (s1 ++ s2) m
  = run run_agent request s2 (run run_agent request s1 m).
Proof.
  revert m. induction s1 as [|pick s1 IH]; intros m; [done|].
  simpl. by destruct (step run_agent request pick m).
Qed.

Lemma sum_progress_insert (coros : list Coroutine) i c c' :
  coros !! i = Some c → progress c < progress c' →
  sum_list_with (λ c, 3 - progress c) (<[i := c']> coros)
  < sum_list_with (λ c, 3 - progress c) coros.
Proof.
  revert i. induction coros as [|c0 coros IH]; intros i Hi Hlt; [done|].
  pose proof (progress_le c') as Hle. destruct i as [|i].
  - cbn in Hi. injection Hi as ->.
    change (<[0 := c']> (c :: coros)) with (c' :: coros).
    rewrite !sum_progress_cons. lia.
  - change ((c0 :: coros) !! S i) with (coros !! i) in Hi.
    change (<[S i := c']> (c0 :: coros)) with (c0 :: <[i := c']> coros).
    rewrite !sum_progress_cons. specialize (IH i Hi Hlt). lia.
Qed.

Lemma remaining_decreases run_agent request pick m m' :
  Transition run_agent request pick m m' →
  remaining request m' < remaining request m.
Proof.
  intros Htr. destruct Htr; unfold remaining; simpl;
    repeat match goal with
           | H : tasks request !! _ = Some _ |- _ => apply lookup_lt_Some in H
           end;
    try lia;
    try (apply Nat.add_lt_mono_r; eapply sum_progress_insert; [done|];
         simpl; lia).
  - unfold enter_strategy.
    destruct (workflow_type request); simpl; [lia| |].
    + case_decide; simpl; [|lia]. rewrite sum_progress_replicate. lia.
    + rewrite sum_progress_replicate. lia.
  - destruct (_ && _); simpl; lia.
  - apply Nat.add_lt_mono_r. eapply sum_progress_insert; [done|].
    match goal with H : _ ∨ _ |- _ =>
      destruct H as [(-> & _)|[(-> & _)|[(-> & _)|(-> & _)]]] end;
      simpl; lia.
Qed.

Lemma remaining_zero request m :
  remaining request m = 0 → phase m = Finished.
Proof.
  unfold remaining. destruct (phase m) as [|s|]; [|destruct s|]; try done;
    try lia.
  destruct (workflow_type request); lia.
Qed.

(** X6.  Every transition uses up part of a budget of three transitions
    per task plus three: however long the schedule, the job makes at
    most [3 * n + 3] transitions, so no agent outcome and no schedule
    makes it loop. *)
Theorem job_transitions_bounded run_agent request w0 schedule :
  transitions run_agent request schedule (job w0)
  + remaining request (execution run_agent request w0 schedule)
  ≤ 3 * length (tasks request) + 3.
Proof.
  unfold execution.
  assert (∀ m, transitions run_agent request schedule m
               + remaining request (run run_agent request schedule m)
               ≤ remaining request m) as Hall.
  { induction schedule as [|pick schedule IH]; intros m; simpl; [lia|].
    destruct (step run_agent request pick m) as [m'|] eqn:Hs; [|apply IH].
    apply step_Transition, remaining_decreases in Hs.
    specialize (IH m'). lia. }
  specialize (Hall (job w0)).
  assert (remaining request (job w0) ≤ 3 * length (tasks request) + 3);
    [|lia].
  unfold remaining; simpl. destruct (workflow_type request); lia.
Qed.

Section SequentialRuns.

Variable run_agent : AgentTask → Value → Value + string.
Variable request : WorkflowRequest.
Variable w0 : WorkflowStatus.

Hypothesis sequential_mode : workflow_type request = Sequential.

Lemma sequential_inv_execution schedule :
  sequential_inv request w0 (execution run_agent request w0 schedule).
Proof.
  pose proof (inv_execution run_agent request w0 schedule) as (_ & _ & Hinv).
  by rewrite sequential_mode in Hinv.
Qed.

(** While a task is awaited the request does hold that task, and the
    result handed on is that of the task before. *)
Lemma sequential_await schedule :
  match phase (execution run_agent request w0 schedule) with
  | Trying (SeqLoop i previous_result) =>
      chained (ws_tasks (workflow (execution run_agent request w0 schedule)))
        i previous_result
  | Trying (SeqAwait i previous_result) =>
      chained (ws_tasks (workflow (execution run_agent request w0 schedule)))
        i previous_result ∧
      is_Some (tasks request !! i)
  | _ => True
  end.
Proof.
  apply (execution_invariant run_agent request w0
           (λ m, match phase m with
                 | Trying (SeqLoop i previous_result) =>
                     chained (ws_tasks (workflow m)) i previous_result
                 | Trying (SeqAwait i previous_result) =>
                     chained (ws_tasks (workflow m)) i previous_result ∧
                     is_Some (tasks request !! i)
                 | _ => True
                 end)); [done|].
  intros pick m m' _ HP Htr.
  inversion Htr; subst; simpl in *; try done.
  - unfold enter_strategy. rewrite sequential_mode. done.
  - split; [|by eauto].
    destruct i as [|k]; [done|]. simpl in *.
    by rewrite list_lookup_insert_ne by lia.
  - destruct (_ && _); [done|]. simpl.
    match goal with
    | Ht : ws_tasks _ !! _ = Some _,
      Hfin : execute_task_finish _ _ _ _ = _ |- _ =>
        apply lookup_lt_Some in Ht;
        apply execute_task_finish_terminal in Hfin
    end.
    eexists. split; [by apply list_lookup_insert_eq|].
    match goal with H : _ ∨ _ |- _ => destruct H as [[? <-]|[? ->]] end;
      auto.
Qed.

Lemma sequential_enabled schedule pick :
  phase (execution run_agent request w0 schedule) ≠ Finished →
  is_Some (step run_agent request pick
             (execution run_agent request w0 schedule)).
Proof.
  intros Hnf.
  pose proof (sequential_inv_execution schedule) as Hinv.
  pose proof (sequential_await schedule) as Haw.
  destruct (execution run_agent request w0 schedule) as [w ph].
  unfold sequential_inv, step in *. simpl in *.
  destruct ph as [|s|]; [by eauto| |done].
  destruct s as [i prev|i prev|coros|coros completed events| |e];
    try done; try by eauto.
  - destruct (execute_sequential_loop _ _ _ _). eauto.
  - destruct Hinv as (_ & (t & Ht & _) & _). destruct Haw as [_ [d Hd]].
    unfold execute_sequential_resume. rewrite Hd, Ht.
    destruct (execute_task_finish _ _ _ _). simpl. eauto.
Qed.

(** X7.  In Sequential mode the job always ends: after
    [2 * n + 3] picks of any schedule it is over, whatever the agents
    return, and until then every pick makes a transition. *)
Theorem sequential_terminates schedule :
  (2 * length (tasks request) + 3 ≤ length schedule →
   phase (execution run_agent request w0 schedule) = Finished) ∧
  (∀ pick,
     phase (execution run_agent request w0 schedule) ≠ Finished →
     is_Some (step run_agent request pick
                (execution run_agent request w0 schedule))).
Proof.
  split; [|intros pick; apply sequential_enabled].
  assert (∀ done todo,
            remaining request (execution run_agent request w0 done)
              ≤ length todo →
            phase (execution run_agent request w0 (done ++ todo)) = Finished)
    as Hall.
  { intros done todo. revert done.
    induction todo as [|pick todo IH]; intros done Hle.
    - rewrite app_nil_r. apply (remaining_zero request). simpl in Hle. lia.
    - assert (phase (execution run_agent request w0 done) = Finished ∨
              phase (execution run_agent request w0 done) ≠ Finished)
        as [Hfin|Hnf].
      { destruct (phase (execution run_agent request w0 done));
          [by right|by right|by left]. }
      + unfold execution in *. rewrite run_app.
        by rewrite run_finished.
      + destruct (sequential_enabled done pick Hnf) as [m' Hs].
        replace (done ++ pick :: todo) with ((done ++ [pick]) ++ todo)
          by (by rewrite <- app_assoc).
        apply IH.
        assert (execution run_agent request w0 (done ++ [pick]) = m') as ->.
        { unfold execution in *. rewrite run_app. simpl. by rewrite Hs. }
        apply step_Transition, remaining_decreases in Hs.
        simpl in Hle. lia. }
  intros Hlen. apply (Hall [] schedule).
  unfold execution, remaining; simpl. rewrite sequential_mode. lia.
Qed.

(** X8.  In Sequential mode, while task [i] is awaited: it is the task
    [i] of the request, its record is Running, the context it executes
    with is nothing for the first task and else what the task before it
    returned (its recorded result when it Completed, nothing when it
    Failed), and the next transition writes into record [i] what
    [execute_task] makes of the agent's answer to that context. *)
Theorem sequential_chaining schedule i previous_result :
  phase (execution run_agent request w0 schedule)
    = Trying (SeqAwait i previous_result) →
  chained (ws_tasks (workflow (execution run_agent request w0 schedule)))
    i previous_result ∧
  ∃ task_def t,
    tasks request !! i = Some task_def ∧
    ws_tasks (workflow (execution run_agent request w0 schedule)) !! i
      = Some t ∧
    ts_status t = Running ∧
    ∀ pick, ∃ m',
      step run_agent request pick (execution run_agent request w0 schedule)
        = Some m' ∧
      ws_tasks (workflow m') !! i
        = Some (execute_task_finish run_agent t task_def previous_result).1.
Proof.
  intros Hph.
  pose proof (sequential_inv_execution schedule) as Hinv.
  pose proof (sequential_await schedule) as Haw.
  rewrite Hph in Haw. destruct Haw as [Hch [task_def Hdef]].
  unfold sequential_inv in Hinv. rewrite Hph in Hinv.
  destruct Hinv as (_ & (t & Ht & Hrun) & _).
  split; [done|]. exists task_def, t. split_and!; [done..|].
  intros pick.
  destruct (execution run_agent request w0 schedule) as [w ph].
  simpl in *. subst ph. unfold step; simpl.
  unfold execute_sequential_resume. rewrite Hdef, Ht.
  destruct (execute_task_finish _ _ _ _) as [t' result]. simpl.
  eexists. split; [done|]. simpl.
  apply list_lookup_insert_eq. by eapply lookup_lt_Some.
Qed.

End SequentialRuns.

(** * Results and errors of the records *)

Section Records.

Variable run_agent : AgentTask → Value → Value + string.
Variable request : WorkflowRequest.
Variable w0 : WorkflowStatus.









End Records.

(** * Driving a job to its end *)

Lemma phase_finished_dec m : phase m = Finished ∨ phase m ≠ Finished.
Proof. destruct (phase m); [by right|by right|by left]. Qed.

(** When every state that satisfies [Q] and is not the end has a
    transition that keeps [Q], some schedule leads from any such state
    to the end. *)
Lemma drive_to_end run_agent request (Q : Machine → Prop) :
  (∀ m, Q m → phase m ≠ Finished →
     ∃ pick m', step run_agent request pick m = Some m' ∧ Q m') →
  ∀ m, Q m →
    ∃ schedule,
      phase (run run_agent request schedule m) = Finished ∧
      Q (run run_agent request schedule m).
Proof.
  intros Hlive m.
  remember (remaining request m) as k eqn:Hk.
  revert m Hk. induction k as [k IH] using lt_wf_ind. intros m -> HQ.
  destruct (phase_finished_dec m) as [Hfin|Hnf].
  - by exists [].
  - destruct (Hlive m HQ Hnf) as (pick & m' & Hs & HQ').
    pose proof Hs as Hlt. apply step_Transition, remaining_decreases in Hlt.
    destruct (IH _ Hlt m' eq_refl HQ') as (schedule & Hend & HQend).
    exists (pick :: schedule). simpl. by rewrite Hs.
Qed.

Lemma outcome_of_finish run_agent t task_def context t' result :
  execute_task_finish run_agent t task_def context = (t', result) →
  outcome_of run_agent task_def context t'.
Proof.
  unfold execute_task_finish, outcome_of.
  destruct (run_agent task_def context); by intros [= <- <-].
Qed.

Lemma outcome_of_terminal run_agent task_def context t :
  outcome_of run_agent task_def context t → terminal (ts_status t).
Proof.
  unfold outcome_of, terminal.
  destruct (run_agent task_def context); intros [-> _]; auto.
Qed.

(** * Parallel mode *)

Section ParallelMode.

Variable run_agent : AgentTask → Value → Value + string.
Variable request : WorkflowRequest.
Variable w0 : WorkflowStatus.

Hypothesis parallel_mode : workflow_type request = Parallel.
Hypothesis enough_records : length (tasks request) ≤ length (ws_tasks w0).

Lemma parallel_inv_execution schedule :
  parallel_inv request w0 (execution run_agent request w0 schedule).
Proof.
  pose proof (inv_execution run_agent request w0 schedule) as (_ & _ & Hinv).
  by rewrite parallel_mode in Hinv.
Qed.

Lemma parallel_outcomes_step pick m m' :
  inv request w0 m → parallel_outcomes run_agent request m →
  Transition run_agent request pick m m' →
  parallel_outcomes run_agent request m'.
Proof.
  intros (_ & Hlen & Hinv) HP Htr. rewrite parallel_mode in Hinv.
  unfold parallel_outcomes, parallel_inv in *.
  inversion Htr; subst; simpl in *; try done.
  - (* the job starts *)
    unfold enter_strategy. rewrite parallel_mode. simpl.
    rewrite decide_True by lia. split; [lia|].
    intros i c Hc. by apply lookup_replicate in Hc as [-> _].
  - (* the gather returns *)
    destruct HP as [Hle HP]. destruct Hinv as [Hco _].
    intros i task_def Hdef.
    destruct (lookup_lt_is_Some_2 coros i) as [c Hc].
    { rewrite Hco. by eapply lookup_lt_Some. }
    specialize (HP i c Hc).
    assert (finished c = true) as Hfin.
    { match goal with H : forallb finished coros = true |- _ =>
        rewrite forallb_forall in H; apply H end.
      apply list_elem_of_In, list_elem_of_lookup. eauto. }
    destruct c; try done.
    destruct HP as (task_def' & t & Hdef' & Ht & Hout). simplify_eq. eauto.
  - (* a coroutine enters [execute_task] *)
    destruct HP as [Hle HP]. rewrite length_insert. split; [done|].
    intros i c Hc.
    destruct (decide (i = pick)) as [->|Hne].
    + rewrite list_lookup_insert_eq in Hc by (by eapply lookup_lt_Some).
      by simplify_eq.
    + rewrite list_lookup_insert_ne in Hc by done.
      specialize (HP i c Hc). destruct c; try done.
      by rewrite list_lookup_insert_ne.
  - (* a coroutine returns from [execute_task] *)
    destruct HP as [Hle HP]. rewrite length_insert. split; [done|].
    intros i c Hc.
    destruct (decide (i = pick)) as [->|Hne].
    + rewrite list_lookup_insert_eq in Hc by (by eapply lookup_lt_Some).
      simplify_eq.
      match goal with
      | Hp : coros !! pick = Some (Executing ?ctx),
        Hfin : execute_task_finish _ _ _ _ = _ |- _ =>
          pose proof (HP pick _ Hp) as Hctx; simpl in Hctx; subst ctx;
          apply outcome_of_finish in Hfin
      end.
      eexists _, _. split_and!; [done| |done].
      apply list_lookup_insert_eq. by eapply lookup_lt_Some.
    + rewrite list_lookup_insert_ne in Hc by done.
      specialize (HP i c Hc). destruct c; try done.
      by rewrite list_lookup_insert_ne.
  - (* the strategy returned *)
    intros i task_def Hdef. rewrite ws_tasks_aggregate. eauto.
Qed.

Lemma parallel_outcomes_execution schedule :
  parallel_outcomes run_agent request (execution run_agent request w0 schedule).
Proof.
  apply (execution_invariant run_agent request w0
           (parallel_outcomes run_agent request)); [done|].
  intros pick m m' Hinv HP Htr. by eapply parallel_outcomes_step.
Qed.

(** X10.  In Parallel mode, on a record that has a task for every task
    of the request and all Pending: every task executes with no context;
    a record that is Completed or Failed holds what the task's own agent
    answered to no context (the result when it answered, the message
    when it raised), whatever the other tasks did and in whatever order;
    and when the job is over every task of the request has such a
    record. *)
Theorem parallel_isolation schedule :
  pristine w0 →
  (∀ i context,
     context_of (execution run_agent request w0 schedule) i = Some context →
     context = VNone) ∧
  (∀ i task_def t,
     tasks request !! i = Some task_def →
     ws_tasks (workflow (execution run_agent request w0 schedule)) !! i
       = Some t →
     terminal (ts_status t) →
     outcome_of run_agent task_def VNone t) ∧
  (phase (execution run_agent request w0 schedule) = Finished →
   ∀ i task_def,
     tasks request !! i = Some task_def →
     ∃ t,
       ws_tasks (workflow (execution run_agent request w0 schedule)) !! i
         = Some t ∧
       terminal (ts_status t)).
Proof.
  intros Hp.
  pose proof (parallel_outcomes_execution schedule) as HP.
  pose proof (parallel_inv_execution schedule) as Hinv.
  destruct (execution run_agent request w0 schedule) as [w ph].
  unfold parallel_outcomes, parallel_inv, context_of in *. simpl in *.
  split_and!.
  - intros i context Hctx.
    destruct ph as [|s|]; [done| |done].
    destruct s as [| |coros| | |]; try done.
    destruct (coros !! i) as [c|] eqn:Hc; [|done].
    destruct c; try done. simplify_eq.
    destruct HP as [_ HP]. exact (HP i _ Hc).
  - intros i task_def t Hdef Ht Hterm.
    destruct ph as [|s|].
    + rewrite Hinv in Ht. rewrite (pristine_lookup _ _ _ Hp Ht) in Hterm.
      by destruct Hterm.
    + destruct s as [| |coros| | |]; try done.
      * destruct Hinv as [Hco Htr]. destruct HP as [_ HP].
        destruct (Htr i t Ht) as (t0 & Ht0 & Hag).
        destruct (coros !! i) as [c|] eqn:Hc.
        -- specialize (HP i c Hc).
           destruct c; simpl in *; try done.
           ++ subst. rewrite (pristine_lookup _ _ _ Hp Ht0) in Hterm.
              by destruct Hterm.
           ++ rewrite Hag in Hterm. by destruct Hterm.
           ++ destruct HP as (task_def' & t' & ? & ? & ?). by simplify_eq.
        -- apply lookup_ge_None in Hc. apply lookup_lt_Some in Hdef. lia.
      * destruct (HP i task_def Hdef) as (t' & ? & ?). by simplify_eq.
    + destruct (HP i task_def Hdef) as (t' & ? & ?). by simplify_eq.
  - intros -> i task_def Hdef.
    destruct (HP i task_def Hdef) as (t & Ht & Hout).
    exists t. split; [done|]. by eapply outcome_of_terminal.
Qed.

Lemma parallel_enabled schedule :
  phase (execution run_agent request w0 schedule) ≠ Finished →
  (∀ coros pick c,
     phase (execution run_agent request w0 schedule)
       = Trying (ParGather coros) →
     coros !! pick = Some c → finished c = false →
     is_Some (step run_agent request pick
                (execution run_agent request w0 schedule))) ∧
  ∃ pick, is_Some (step run_agent request pick
                     (execution run_agent request w0 schedule)).
Proof.
  intros Hnf.
  pose proof (parallel_outcomes_execution schedule) as HP.
  pose proof (parallel_inv_execution schedule) as Hinv.
  destruct (execution run_agent request w0 schedule) as [w ph].
  unfold parallel_outcomes, parallel_inv in *. simpl in *.
  assert (∀ coros pick c,
            ph = Trying (ParGather coros) →
            coros !! pick = Some c → finished c = false →
            is_Some (step run_agent request pick (mkMachine w ph))) as Hen.
  { intros coros pick c -> Hc Hfin.
    destruct Hinv as [Hco _]. destruct HP as [Hle HP].
    pose proof (lookup_lt_Some _ _ _ Hc) as Hlt.
    destruct (lookup_lt_is_Some_2 (tasks request) pick) as [task_def Hdef];
      [lia|].
    destruct (lookup_lt_is_Some_2 (ws_tasks w) pick) as [t Ht]; [lia|].
    unfold step; simpl.
    rewrite (forallb_finished_false _ _ _ Hc Hfin).
    unfold execute_parallel_coroutine. rewrite Hc, Hdef, Ht.
    specialize (HP pick c Hc).
    destruct c; try done; simpl; try (by eauto).
    destruct (execute_task_finish _ _ _ _). simpl. eauto. }
  split; [done|].
  destruct ph as [|s|]; [exists 0; unfold step; simpl; eauto| |done].
  destruct s as [| |coros| | |]; try done;
    try (exists 0; unfold step; simpl; by eauto).
  destruct (forallb finished coros) eqn:Hall.
  - exists 0. unfold step; simpl. rewrite Hall. eauto.
  - assert (∃ pick c, coros !! pick = Some c ∧ finished c = false)
      as (pick & c & Hc & Hfin).
    { clear -Hall. induction coros as [|c coros IH]; [done|].
      simpl in Hall. destruct (finished c) eqn:Hf.
      - destruct (IH Hall) as (pick & c' & ? & ?). by exists (S pick), c'.
      - by exists 0, c. }
    exists pick. by eapply Hen.
Qed.

(** X11.  In Parallel mode, on a record that has a task for every task
    of the request, the job cannot get stuck: until it is over some pick
    makes a transition, and inside the gather every coroutine that has
    not ended can be resumed.  So whatever the schedule did so far, it
    can be continued to the end of the job. *)
Theorem parallel_never_stuck schedule :
  (phase (execution run_agent request w0 schedule) ≠ Finished →
   ∃ pick, is_Some (step run_agent request pick
                      (execution run_agent request w0 schedule))) ∧
  (∀ coros pick c,
     phase (execution run_agent request w0 schedule)
       = Trying (ParGather coros) →
     coros !! pick = Some c → finished c = false →
     is_Some (step run_agent request pick
                (execution run_agent request w0 schedule))) ∧
  ∃ more,
    phase (execution run_agent request w0 (schedule ++ more)) = Finished.
Proof.
  split_and!.
  - intros Hnf. by destruct (parallel_enabled schedule Hnf).
  - intros coros pick c Hph Hc Hfin.
    assert (phase (execution run_agent request w0 schedule) ≠ Finished)
      as Hnf by (by rewrite Hph).
    destruct (parallel_enabled schedule Hnf) as [Hen _]. by eapply Hen.
  - destruct (drive_to_end run_agent request
                (λ m, ∃ done, m = execution run_agent request w0 done))
      with (m := execution run_agent request w0 schedule)
      as (more & Hend & _).
    + intros m [done ->] Hnf.
      destruct (parallel_enabled done Hnf) as [_ (pick & m' & Hs)].
      exists pick, m'. split; [done|]. exists (done ++ [pick]).
      unfold execution in *. rewrite run_app. simpl. by rewrite Hs.
    + by exists schedule.
    + exists more. unfold execution in *. by rewrite run_app.
Qed.

End ParallelMode.

(** * Graph mode: signals, deadlock and progress *)

Lemma dep_results_defined (completed_tasks : gmap string Value) deps acc :
  (∀ dep_id, dep_id ∈ deps → is_Some (completed_tasks !! dep_id)) →
  ∃ d, dep_results completed_tasks deps acc = inr d.
Proof.
  revert acc. induction deps as [|dep deps IH]; intros acc Hall; simpl;
    [by eauto|].
  destruct (Hall dep) as [r ->]; [apply list_elem_of_here|].
  apply IH. intros dep_id Hin. apply Hall. by apply list_elem_of_further.
Qed.

Lemma lookup_events_some_unset (task_events : gmap string bool) deps flags :
  lookup_events task_events deps = inr flags →
  forallb id flags = false →
  ∃ dep_id, dep_id ∈ deps ∧ task_events !! dep_id = Some false.
Proof.
  intros Hl Hall.
  destruct (decide (Forall (λ d, task_events !! d = Some true) deps))
    as [Hset|Hunset].
  - destruct (lookup_events_set task_events deps) as (flags' & Hl' & Hall').
    { intros dep_id Hin. by eapply Forall_forall in Hset. }
    congruence.
  - apply not_Forall_Exists in Hunset; [|apply _].
    apply Exists_exists in Hunset as (dep_id & Hin & Hne).
    exists dep_id. split; [done|].
    destruct (lookup_events_keys _ _ _ _ Hl Hin) as [[|] Hb]; [done|done].
Qed.

Lemma lookup_events_resolved (task_events : gmap string bool) deps :
  (∀ dep_id, dep_id ∈ deps → is_Some (task_events !! dep_id)) →
  ∃ flags, lookup_events task_events deps = inr flags.
Proof.
  intros Hall. pose proof (lookup_events_spec task_events deps) as Hs.
  destruct (lookup_events task_events deps) as [e|flags]; [|by eauto].
  destruct Hs as (dep_id & _ & Hin & Hnone).
  destruct (Hall dep_id Hin) as [b Hb]. congruence.
Qed.

Section GraphRuns.

Variable run_agent : AgentTask → Value → Value + string.
Variable request : WorkflowRequest.
Variable w0 : WorkflowStatus.

Hypothesis graph_mode : workflow_type request = Graph.

Lemma graph_inv_execution schedule :
  graph_inv request w0 (execution run_agent request w0 schedule).
Proof.
  pose proof (inv_execution run_agent request w0 schedule) as (_ & _ & Hinv).
  by rewrite graph_mode in Hinv.
Qed.

Lemma event_stays_set (task_events : gmap string bool) key dep_id :
  task_events !! dep_id = Some true →
  <[key := true]> task_events !! dep_id = Some true.
Proof.
  intros Hd. destruct (decide (dep_id = key)) as [->|Hne].
  - by rewrite lookup_insert_eq.
  - by rewrite lookup_insert_ne.
Qed.

Lemma fired_when_done_execution schedule :
  fired_when_done request (execution run_agent request w0 schedule).
Proof.
  apply (execution_invariant run_agent request w0 (fired_when_done request));
    [done|].
  intros pick m m' _ HP Htr. unfold fired_when_done in *.
  inversion Htr; subst; simpl in *; try done;
    try (by destruct (_ && _)).
  - unfold enter_strategy. destruct (workflow_type request); [done| |].
    + by case_decide.
    + intros i task_def' v _ Hc. by apply lookup_replicate in Hc as [? _].
  - intros i task_def' v Hd Hc. destruct (decide (i = pick)) as [->|Hne].
    + rewrite list_lookup_insert_eq in Hc by (by eapply lookup_lt_Some).
      done.
    + rewrite list_lookup_insert_ne in Hc by done. eauto.
  - intros i task_def' v Hd Hc. destruct (decide (i = pick)) as [->|Hne].
    + rewrite list_lookup_insert_eq in Hc by (by eapply lookup_lt_Some).
      done.
    + rewrite list_lookup_insert_ne in Hc by done. eauto.
  - intros i task_def' v Hd Hc. destruct (decide (i = pick)) as [->|Hne].
    + rewrite list_lookup_insert_eq in Hc by (by eapply lookup_lt_Some).
      done.
    + rewrite list_lookup_insert_ne in Hc by done. eauto.
  - intros i task_def' v Hd Hc. destruct (decide (i = pick)) as [->|Hne].
    + rewrite list_lookup_insert_eq in Hc by (by eapply lookup_lt_Some).
      done.
    + rewrite list_lookup_insert_ne in Hc by done. eauto.
  - intros i task_def' v Hd Hc. destruct (decide (i = pick)) as [->|Hne].
    + simplify_eq. by rewrite lookup_insert_eq.
    + rewrite list_lookup_insert_ne in Hc by done.
      apply event_stays_set. eauto.
Qed.

(** X12.  In Graph mode, on a record whose tasks are all Pending, while
    the gather runs: a task whose record is Completed or Failed has set
    the event of its agent id, so a failed task unblocks its dependents
    like a completed one; and the event of an agent id is set only if
    some task carrying it has such a record. *)
Theorem ended_task_has_fired schedule task_events :
  pristine w0 →
  graph_events (execution run_agent request w0 schedule) = Some task_events →
  (∀ i task_def t,
     tasks request !! i = Some task_def →
     ws_tasks (workflow (execution run_agent request w0 schedule)) !! i
       = Some t →
     terminal (ts_status t) →
     task_events !! agent_id task_def = Some true) ∧
  (∀ dep_id,
     task_events !! dep_id = Some true →
     ∃ i task_def t,
       tasks request !! i = Some task_def ∧ agent_id task_def = dep_id ∧
       ws_tasks (workflow (execution run_agent request w0 schedule)) !! i
         = Some t ∧
       terminal (ts_status t)).
Proof.
  intros Hp Hev.
  pose proof (graph_inv_execution schedule) as Hg.
  pose proof (fired_when_done_execution schedule) as Hf.
  destruct (execution run_agent request w0 schedule) as [w ph].
  unfold graph_events, fired_when_done in *. simpl in *.
  destruct ph as [|s|]; [done| |done].
  destruct s as [| | |coros completed events| |]; try done. simplify_eq.
  split.
  - intros i task_def t Hdef Ht Hterm.
    pose proof Hg as (Hlen & Htr & _). simpl in *.
    destruct (Htr i t Ht) as (t0 & Ht0 & Hag).
    destruct (coros !! i) as [c|] eqn:Hc.
    + destruct c; simpl in Hag; subst;
        try (rewrite (pristine_lookup _ _ _ Hp Ht0) in Hterm;
             by destruct Hterm).
      * rewrite Hag in Hterm. by destruct Hterm.
      * by eapply Hf.
    + apply lookup_ge_None in Hc. apply lookup_lt_Some in Hdef. lia.
  - intros dep_id Hset.
    destruct (fired_terminal request w0 _ _ _ _ _ Hg Hset)
      as (j & dep_def & tj & v & Hj & Hid & _ & _ & Htj & Hst).
    exists j, dep_def, tj. split_and!; [done..|].
    unfold terminal. destruct Hst as [[? _]|[? _]]; auto.
Qed.

End GraphRuns.

Section GraphDeadlock.

Variable run_agent : AgentTask → Value → Value + string.
Variable request : WorkflowRequest.
Variable w0 : WorkflowStatus.
Variable blocked : gset string.

Hypothesis graph_mode : workflow_type request = Graph.
Hypothesis closed : blocked_closed (tasks request) blocked.

Lemma graph_inv_here schedule :
  graph_inv request w0 (execution run_agent request w0 schedule).
Proof.
  pose proof (inv_execution run_agent request w0 schedule) as (_ & _ & Hinv).
  by rewrite graph_mode in Hinv.
Qed.

(** A task of the blocked set cannot find all its events set. *)
Lemma blocked_not_woken (task_events : gmap string bool) j task_def :
  (∀ dep_id, is_Some (task_events !! dep_id) ↔
             dep_id ∈ agent_id <$> tasks request) →
  (∀ dep_id, dep_id ∈ blocked → task_events !! dep_id ≠ Some true) →
  tasks request !! j = Some task_def → agent_id task_def ∈ blocked →
  ¬ ∀ dep_id, dep_id ∈ depends_on task_def →
      task_events !! dep_id = Some true.
Proof.
  intros Hkeys Hunset Hdef Hin Hall.
  destruct (closed j task_def Hdef Hin) as (dep_id & Hdep & [Hb|Hmiss]).
  - by apply (Hunset dep_id Hb), Hall.
  - apply Hmiss, Hkeys. rewrite (Hall dep_id Hdep). eauto.
Qed.

Lemma blocked_inv_step pick m m' :
  inv request w0 m → blocked_inv request w0 blocked m →
  Transition run_agent request pick m m' →
  blocked_inv request w0 blocked m'.
Proof.
  intros (_ & Hlen & Hinv) HB Htr. rewrite graph_mode in Hinv.
  unfold blocked_inv in *.
  inversion Htr; subst; simpl in *; try done.
  - (* the job starts *)
    unfold enter_strategy. rewrite graph_mode. simpl. split.
    + intros dep_id _. rewrite new_task_events_lookup. by case_decide.
    + intros j task_def c _ _ Hc. apply lookup_replicate in Hc as [-> _].
      split; [by intros []|]. auto.
  - (* the gather returns *)
    destruct HB as [Hunset HB]. intros j task_def Hdef Hin.
    pose proof Hinv as (Hco & Htr' & _). simpl in *.
    destruct (lookup_lt_is_Some_2 coros j) as [c Hc].
    { rewrite Hco. by eapply lookup_lt_Some. }
    destruct (HB j task_def c Hdef Hin Hc) as [Hns Hres].
    assert (finished c = true) as Hfin.
    { match goal with H : forallb finished coros = true |- _ =>
        rewrite forallb_forall in H; apply H end.
      apply list_elem_of_In, list_elem_of_lookup. eauto. }
    split.
    + intros Hr. destruct (Hres Hr) as [-> | ->]; done.
    + destruct (ws_tasks w !! j) as [t|] eqn:Ht.
      * destruct (Htr' j t Ht) as (t0 & Ht0 & Hag). rewrite Hc in Hag.
        rewrite Ht0. destruct c; simpl in *; by subst.
      * symmetry. apply lookup_ge_None. apply lookup_ge_None in Ht. lia.
  - (* a task without dependencies starts *)
    destruct HB as [Hunset HB]. split; [done|].
    intros j task_def' c Hdef Hin Hc.
    destruct (decide (j = pick)) as [->|Hne].
    + assert (task_def' = task_def) as -> by congruence.
      destruct (closed pick task_def Hdef Hin) as (dep_id & Hdep & _).
      match goal with H : depends_on _ = [] |- _ => rewrite H in Hdep end.
      by apply elem_of_nil in Hdep.
    + rewrite list_lookup_insert_ne in Hc by done. eauto.
  - (* a coroutine raises *)
    destruct HB as [Hunset HB]. split; [done|].
    pose proof Hinv as (_ & _ & _ & Hkeys & _). simpl in Hkeys.
    intros j task_def' c' Hdef Hin Hc.
    destruct (decide (j = pick)) as [->|Hne].
    + rewrite list_lookup_insert_eq in Hc by (by eapply lookup_lt_Some).
      assert (task_def' = task_def) as -> by congruence.
      injection Hc as <-. split; [by intros []|]. intros Hres. exfalso.
      match goal with H : _ ∨ _ |- _ =>
        destruct H as [(-> & Hd & _)|[(-> & Hd & Hl)|
                      [(-> & Hs & _)|(-> & Hs & _)]]] end.
      * destruct (closed pick task_def Hdef Hin) as (dep_id & Hdep & _).
        rewrite Hd in Hdep. by apply elem_of_nil in Hdep.
      * destruct (lookup_events_resolved task_events (depends_on task_def))
          as [flags Hf]; [|congruence].
        intros dep_id Hdep. by apply Hkeys, Hres.
      * by eapply blocked_not_woken.
      * by eapply blocked_not_woken.
    + rewrite list_lookup_insert_ne in Hc by done. eauto.
  - (* a coroutine starts to wait *)
    destruct HB as [Hunset HB]. split; [done|].
    intros j task_def' c Hdef Hin Hc.
    destruct (decide (j = pick)) as [->|Hne].
    + rewrite list_lookup_insert_eq in Hc by (by eapply lookup_lt_Some).
      injection Hc as <-. split; [by intros []|]. auto.
    + rewrite list_lookup_insert_ne in Hc by done. eauto.
  - (* a coroutine is woken up *)
    destruct HB as [Hunset HB]. split; [done|].
    pose proof Hinv as (_ & _ & _ & Hkeys & _). simpl in Hkeys.
    intros j task_def' c Hdef Hin Hc.
    destruct (decide (j = pick)) as [->|Hne].
    + assert (task_def' = task_def) as -> by congruence.
      exfalso. by eapply blocked_not_woken.
    + rewrite list_lookup_insert_ne in Hc by done. eauto.
  - (* a coroutine returns from [execute_task] *)
    destruct HB as [Hunset HB].
    assert (agent_id task_def ∉ blocked) as Hfree.
    { intros Hin.
      match goal with H : coros !! pick = Some (Executing _) |- _ =>
        destruct (HB pick task_def _ ltac:(done) Hin H) as [Hns _] end.
      by apply Hns. }
    split.
    + intros dep_id Hin. rewrite lookup_insert_ne; [by apply Hunset|].
      intros Heq. apply Hfree. by rewrite Heq.
    + intros j task_def' c Hdef Hin Hc.
      destruct (decide (j = pick)) as [->|Hne]; [congruence|].
      rewrite list_lookup_insert_ne in Hc by done. eauto.
  - (* the strategy returned *)
    intros j task_def Hdef Hin. rewrite ws_tasks_aggregate. eauto.
Qed.

Lemma blocked_inv_execution schedule :
  blocked_inv request w0 blocked (execution run_agent request w0 schedule).
Proof.
  apply (execution_invariant run_agent request w0
           (blocked_inv request w0 blocked)); [done|].
  intros pick m m' Hinv HB Htr. by eapply blocked_inv_step.
Qed.

(** X13.  In Graph mode, for a set of agent ids in which every task
    declares a dependency that is in the set or that no task carries
    (a dependency cycle, a task depending on itself, the dependents of
    a task with an unknown dependency): no task of the set is ever
    executed, its record is never written; and when one of them has
    only known dependencies, the strategy never returns and the job
    never ends, under any schedule. *)
Theorem blocked_tasks_never_run schedule :
  (∀ j task_def,
     tasks request !! j = Some task_def → agent_id task_def ∈ blocked →
     ws_tasks (workflow (execution run_agent request w0 schedule)) !! j
       = ws_tasks w0 !! j) ∧
  ((∃ j task_def,
      tasks request !! j = Some task_def ∧ agent_id task_def ∈ blocked ∧
      resolvable (tasks request) task_def) →
   phase (execution run_agent request w0 schedule) ≠ Trying Returned ∧
   phase (execution run_agent request w0 schedule) ≠ Finished).
Proof.
  pose proof (blocked_inv_execution schedule) as HB.
  pose proof (graph_inv_here schedule) as Hg.
  pose proof (inv_execution run_agent request w0 schedule) as (_ & Hlen & _).
  destruct (execution run_agent request w0 schedule) as [w ph].
  unfold blocked_inv in HB. simpl in *. split.
  - intros j task_def Hdef Hin.
    destruct ph as [|s|]; [by rewrite Hg| |by apply (HB j task_def)].
    destruct s as [| | |coros completed events| |]; try done;
      [|by apply (HB j task_def)].
    destruct HB as [_ HB]. pose proof Hg as (Hco & Htr & _). simpl in *.
    destruct (lookup_lt_is_Some_2 coros j) as [c Hc].
    { rewrite Hco. by eapply lookup_lt_Some. }
    destruct (HB j task_def c Hdef Hin Hc) as [Hns _].
    destruct (ws_tasks w !! j) as [t|] eqn:Ht.
    + destruct (Htr j t Ht) as (t0 & Ht0 & Hag). rewrite Hc in Hag.
      rewrite Ht0. destruct c; simpl in *; by subst.
    + symmetry. apply lookup_ge_None. apply lookup_ge_None in Ht. lia.
  - intros (j & task_def & Hdef & Hin & Hres).
    destruct ph as [|s|]; [done| |].
    + destruct s; try done. by destruct (HB j task_def Hdef Hin).
    + by destruct (HB j task_def Hdef Hin).
Qed.

End GraphDeadlock.

Section GraphProgress.

Variable run_agent : AgentTask → Value → Value + string.
Variable request : WorkflowRequest.
Variable w0 : WorkflowStatus.
Variable rank : string → nat.

Hypothesis graph_mode : workflow_type request = Graph.
Hypothesis enough_records : length (tasks request) ≤ length (ws_tasks w0).
Hypothesis ranked : well_founded_graph (tasks request) rank.

Lemma graph_live_step pick m m' :
  inv request w0 m → graph_live request m →
  Transition run_agent request pick m m' →
  graph_live request m'.
Proof.
  intros (_ & Hlen & Hinv) HL Htr. rewrite graph_mode in Hinv.
  unfold graph_live in *.
  inversion Htr; subst; simpl in *; try done;
    try (by destruct (_ && _)).
  - (* the job starts *)
    unfold enter_strategy. rewrite graph_mode. simpl. split; [lia|].
    intros i c Hc e. by apply lookup_replicate in Hc as [-> _].
  - (* the gather returns *)
    destruct HL as [Hle HL]. intros i task_def Hdef.
    pose proof Hinv as (Hco & Htr' & Hrec & _). simpl in *.
    destruct (lookup_lt_is_Some_2 coros i) as [c Hc].
    { rewrite Hco. by eapply lookup_lt_Some. }
    assert (finished c = true) as Hfin.
    { match goal with H : forallb finished coros = true |- _ =>
        rewrite forallb_forall in H; apply H end.
      apply list_elem_of_In, list_elem_of_lookup. eauto. }
    destruct c as [| | |v|e]; try done; [|by destruct (HL i _ Hc e)].
    destruct (Hrec i _ Hc I) as [t Ht]. exists t. split; [done|].
    destruct (Htr' i t Ht) as (t0 & _ & Hag). rewrite Hc in Hag.
    unfold terminal. destruct Hag as [[? _]|[? _]]; auto.
  - (* a task without dependencies starts *)
    destruct HL as [Hle HL]. rewrite length_insert. split; [done|].
    intros i c Hc e. destruct (decide (i = pick)) as [->|Hne].
    + rewrite list_lookup_insert_eq in Hc by (by eapply lookup_lt_Some).
      by injection Hc as <-.
    + rewrite list_lookup_insert_ne in Hc by done. eauto.
  - (* a coroutine raises: excluded *)
    exfalso. destruct HL as [Hle HL].
    pose proof Hinv as (Hco & _ & _ & Hkeys & Hset & _). simpl in *.
    match goal with
    | Hc : coros !! pick = Some _, Hdef : tasks request !! pick = Some _ |- _ =>
        pose proof (lookup_lt_Some _ _ _ Hc) as Hlt;
        destruct (ranked pick _ Hdef) as [Hres _]
    end.
    match goal with H : _ ∨ _ |- _ =>
      destruct H as [(-> & _ & Hr & _)|[(-> & _ & Hl)|
                    [(-> & Hs & Hr)|(-> & _ & _ & Hr & _)]]] end.
    + apply lookup_ge_None in Hr. lia.
    + destruct (lookup_events_resolved task_events (depends_on task_def))
        as [flags Hf]; [|congruence].
      intros dep_id Hdep. by apply Hkeys, Hres.
    + destruct (dep_results_defined completed_tasks (depends_on task_def) ∅)
        as [d Hd]; [|congruence].
      intros dep_id Hdep. by apply Hset, Hs.
    + apply lookup_ge_None in Hr. lia.
  - (* a coroutine starts to wait *)
    destruct HL as [Hle HL]. split; [done|].
    intros i c Hc e. destruct (decide (i = pick)) as [->|Hne].
    + rewrite list_lookup_insert_eq in Hc by (by eapply lookup_lt_Some).
      by injection Hc as <-.
    + rewrite list_lookup_insert_ne in Hc by done. eauto.
  - (* a coroutine is woken up *)
    destruct HL as [Hle HL]. rewrite length_insert. split; [done|].
    intros i c Hc e. destruct (decide (i = pick)) as [->|Hne].
    + rewrite list_lookup_insert_eq in Hc by (by eapply lookup_lt_Some).
      by injection Hc as <-.
    + rewrite list_lookup_insert_ne in Hc by done. eauto.
  - (* a coroutine returns from [execute_task] *)
    destruct HL as [Hle HL]. rewrite length_insert. split; [done|].
    intros i c Hc e. destruct (decide (i = pick)) as [->|Hne].
    + rewrite list_lookup_insert_eq in Hc by (by eapply lookup_lt_Some).
      by injection Hc as <-.
    + rewrite list_lookup_insert_ne in Hc by done. eauto.
  - (* the strategy returned *)
    intros i task_def Hdef. rewrite ws_tasks_aggregate. eauto.
Qed.

Lemma graph_live_execution schedule :
  graph_live request (execution run_agent request w0 schedule).
Proof.
  apply (execution_invariant run_agent request w0 (graph_live request));
    [done|].
  intros pick m m' Hinv HL Htr. by eapply graph_live_step.
Qed.

Lemma graph_inv_now schedule :
  graph_inv request w0 (execution run_agent request w0 schedule).
Proof.
  pose proof (inv_execution run_agent request w0 schedule) as (_ & _ & Hinv).
  by rewrite graph_mode in Hinv.
Qed.

Lemma fired_now schedule :
  fired_when_done request (execution run_agent request w0 schedule).
Proof.
  apply (execution_invariant run_agent request w0 (fired_when_done request));
    [done|].
  intros pick m m' _ HP Htr. unfold fired_when_done in *.
  inversion Htr; subst; simpl in *; try done;
    try (by destruct (_ && _)).
  - unfold enter_strategy. destruct (workflow_type request); [done| |].
    + by case_decide.
    + intros i task_def' v _ Hc. by apply lookup_replicate in Hc as [? _].
  - intros i task_def' v Hd Hc. destruct (decide (i = pick)) as [->|Hne].
    + rewrite list_lookup_insert_eq in Hc by (by eapply lookup_lt_Some).
      done.
    + rewrite list_lookup_insert_ne in Hc by done. eauto.
  - intros i task_def' v Hd Hc. destruct (decide (i = pick)) as [->|Hne].
    + rewrite list_lookup_insert_eq in Hc by (by eapply lookup_lt_Some).
      done.
    + rewrite list_lookup_insert_ne in Hc by done. eauto.
  - intros i task_def' v Hd Hc. destruct (decide (i = pick)) as [->|Hne].
    + rewrite list_lookup_insert_eq in Hc by (by eapply lookup_lt_Some).
      done.
    + rewrite list_lookup_insert_ne in Hc by done. eauto.
  - intros i task_def' v Hd Hc. destruct (decide (i = pick)) as [->|Hne].
    + rewrite list_lookup_insert_eq in Hc by (by eapply lookup_lt_Some).
      done.
    + rewrite list_lookup_insert_ne in Hc by done. eauto.
  - intros i task_def' v Hd Hc. destruct (decide (i = pick)) as [->|Hne].
    + simplify_eq. by rewrite lookup_insert_eq.
    + rewrite list_lookup_insert_ne in Hc by done.
      apply event_stays_set. eauto.
Qed.

(** Among the coroutines that have not ended, one of least rank can be
    resumed; the induction is on a bound of the rank. *)
Lemma graph_some_enabled schedule coros bound j task_def c :
  graph_coroutines (execution run_agent request w0 schedule) = Some coros →
  tasks request !! j = Some task_def → coros !! j = Some c →
  finished c = false → rank (agent_id task_def) < bound →
  ∃ pick, is_Some (step run_agent request pick
                     (execution run_agent request w0 schedule)).
Proof.
  intros Hco. pose proof (graph_inv_now schedule) as Hg.
  pose proof (graph_live_execution schedule) as HL.
  pose proof (fired_now schedule) as Hf.
  destruct (execution run_agent request w0 schedule) as [w ph].
  unfold graph_coroutines, graph_live, fired_when_done in *. simpl in *.
  destruct ph as [|s|]; [done| |done].
  destruct s as [| | |coros' completed events| |]; try done.
  injection Hco as ->.
  pose proof Hg as (Hlen & Htr & Hrec & Hkeys & Hset & _). simpl in *.
  destruct HL as [Hle HL].
  revert j task_def c.
  induction bound as [|bound IH]; intros j task_def c Hdef Hc Hfin Hrank;
    [lia|].
  pose proof (lookup_lt_Some _ _ _ Hc) as Hlt.
  destruct (lookup_lt_is_Some_2 (ws_tasks w) j) as [t Ht]; [lia|].
  destruct (ranked j task_def Hdef) as [Hres Hlower].
  destruct c as [| |context| |]; try done.
  - (* made: its first run is always possible *)
    exists j. unfold step; simpl.
    rewrite (forallb_finished_false _ _ _ Hc) by done.
    unfold execute_with_deps, call_execute_task. rewrite Hc, Hdef, Ht.
    destruct (depends_on task_def); [by eauto|].
    destruct (lookup_events _ _); by eauto.
  - (* waiting *)
    destruct (lookup_events_resolved events (depends_on task_def))
      as [flags Hflags].
    { intros dep_id Hdep. by apply Hkeys, Hres. }
    destruct (forallb id flags) eqn:Hall.
    + exists j. unfold step; simpl.
      rewrite (forallb_finished_false _ _ _ Hc) by done.
      unfold execute_with_deps, call_execute_task.
      rewrite Hc, Hdef, Hflags, Hall, Ht.
      destruct (dep_results _ _ _); by eauto.
    + destruct (lookup_events_some_unset _ _ _ Hflags Hall)
        as (dep_id & Hdep & Hunset).
      pose proof (Hres dep_id Hdep) as Hid.
      apply list_elem_of_fmap in Hid as (dep_def & -> & Hin).
      apply list_elem_of_lookup in Hin as [k Hk].
      destruct (lookup_lt_is_Some_2 coros k) as [ck Hck].
      { rewrite Hlen. by eapply lookup_lt_Some. }
      destruct (finished ck) eqn:Hfk.
      * destruct ck as [| | |v|e]; try done.
        -- rewrite (Hf k dep_def v Hk Hck) in Hunset. done.
        -- by destruct (HL k _ Hck e).
      * apply (IH k dep_def ck Hk Hck Hfk).
        specialize (Hlower _ Hdep). lia.
  - (* executing: it can return *)
    exists j. unfold step; simpl.
    rewrite (forallb_finished_false _ _ _ Hc) by done.
    unfold execute_with_deps. rewrite Hc, Hdef, Ht.
    destruct (execute_task_finish _ _ _ _). simpl. by eauto.
Qed.

Lemma graph_enabled schedule :
  phase (execution run_agent request w0 schedule) ≠ Finished →
  ∃ pick, is_Some (step run_agent request pick
                     (execution run_agent request w0 schedule)).
Proof.
  intros Hnf.
  destruct (phase (execution run_agent request w0 schedule)) as [|s|] eqn:Hph;
    [| |done].
  { exists 0. unfold step. rewrite Hph. eauto. }
  pose proof (graph_inv_now schedule) as Hg.
  destruct s as [i prev|i prev|coros|coros completed events| |e];
    try (unfold graph_inv in Hg; rewrite Hph in Hg; done);
    try (exists 0; unfold step; rewrite Hph; by eauto).
  destruct (forallb finished coros) eqn:Hall.
  { exists 0. unfold step. rewrite Hph, Hall. eauto. }
  assert (∃ j c, coros !! j = Some c ∧ finished c = false)
    as (j & c & Hc & Hfin).
  { clear -Hall. induction coros as [|c coros IH]; [done|].
    simpl in Hall. destruct (finished c) eqn:Hf.
    - destruct (IH Hall) as (j & c' & ? & ?). by exists (S j), c'.
    - by exists 0, c. }
  destruct (lookup_lt_is_Some_2 (tasks request) j) as [task_def Hdef].
  { unfold graph_inv in Hg. rewrite Hph in Hg. destruct Hg as (<- & _).
    by eapply lookup_lt_Some. }
  eapply (graph_some_enabled schedule coros (S (rank (agent_id task_def))));
    [|done|done|done|lia].
  unfold graph_coroutines. by rewrite Hph.
Qed.

(** X14.  In Graph mode, when the record has a task for every task of
    the request, every declared dependency is the agent id of a task and
    the dependencies follow a ranking of the agent ids (no cycle): no
    coroutine ever raises; until the job is over some pick makes a
    transition, so the job cannot deadlock and every schedule can be
    continued to its end; and when the job is over every task of the
    request has ended, Completed or Failed. *)
Theorem acyclic_graph_never_stuck schedule :
  (∀ coros i e,
     graph_coroutines (execution run_agent request w0 schedule)
       = Some coros →
     coros !! i ≠ Some (Faulted e)) ∧
  (phase (execution run_agent request w0 schedule) ≠ Finished →
   ∃ pick, is_Some (step run_agent request pick
                      (execution run_agent request w0 schedule))) ∧
  (∃ more,
     phase (execution run_agent request w0 (schedule ++ more)) = Finished) ∧
  (phase (execution run_agent request w0 schedule) = Finished →
   ∀ i task_def,
     tasks request !! i = Some task_def →
     ∃ t,
       ws_tasks (workflow (execution run_agent request w0 schedule)) !! i
         = Some t ∧
       terminal (ts_status t)).
Proof.
  split_and!.
  - intros coros i e Hco Hc.
    pose proof (graph_live_execution schedule) as HL.
    unfold graph_coroutines, graph_live in *.
    destruct (phase (execution run_agent request w0 schedule)) as [|s|];
      [done| |done].
    destruct s; try done. injection Hco as ->.
    destruct HL as [_ HL]. by destruct (HL i _ Hc e).
  - apply graph_enabled.
  - destruct (drive_to_end run_agent request
                (λ m, ∃ done, m = execution run_agent request w0 done))
      with (m := execution run_agent request w0 schedule)
      as (more & Hend & _).
    + intros m [done ->] Hnf.
      destruct (graph_enabled done Hnf) as (pick & m' & Hs).
      exists pick, m'. split; [done|]. exists (done ++ [pick]).
      unfold execution in *. rewrite run_app. simpl. by rewrite Hs.
    + by exists schedule.
    + exists more. unfold execution in *. by rewrite run_app.
  - intros Hph.
    pose proof (graph_live_execution schedule) as HL.
    unfold graph_live in HL. by rewrite Hph in HL.
Qed.

End GraphProgress.

(** * The Swarms executor: runs *)

Lemma dependencies_met_spec results deps :
  dependencies_met results deps = true ↔
  ∀ dep_id, dep_id ∈ deps → is_Some (results !! dep_id).
Proof.
  unfold dependencies_met. rewrite forallb_forall. split.
  - intros H dep_id Hin. apply list_elem_of_In, H in Hin.
    by apply bool_decide_eq_true in Hin.
  - intros H dep_id Hin. apply bool_decide_eq_true, H.
    by apply list_elem_of_In.
Qed.

(** What a transition of the Swarms executor is: the coroutine sleeps
    once more, or it is past its wait with every dependency recorded and
    ends, recording its result when the agent returned one. *)
Lemma swarms_step_cases run_task defs i s s' :
  swarms_step run_task defs i s = Some s' →
  ∃ task_def,
    defs !! i = Some task_def ∧
    (sw_coros s !! i = Some PollCreated ∨ sw_coros s !! i = Some PollSleeping) ∧
    ((depends_on task_def ≠ [] ∧
      dependencies_met (sw_results s) (depends_on task_def) = false ∧
      s' = mkSwarmsState (<[i := PollSleeping]> (sw_coros s)) (sw_results s)) ∨
     (dependencies_met (sw_results s) (depends_on task_def) = true ∧
      ∃ result, run_task task_def (sw_results s) = inl result ∧
        s' = mkSwarmsState (<[i := PollDone result]> (sw_coros s))
               (<[agent_id task_def := result]> (sw_results s))) ∨
     (dependencies_met (sw_results s) (depends_on task_def) = true ∧
      ∃ msg, run_task task_def (sw_results s) = inr msg ∧
        s' = mkSwarmsState (<[i := PollFaulted msg]> (sw_coros s))
               (sw_results s))).
Proof.
  unfold swarms_step. intros Hs.
  destruct (sw_coros s !! i) as [c|] eqn:Hc; [|done].
  destruct (defs !! i) as [task_def|] eqn:Hdef; [|by destruct c].
  exists task_def. split; [done|].
  assert (c = PollCreated ∨ c = PollSleeping) as Hcs
    by (destruct c; by eauto).
  split; [by destruct Hcs as [->| ->]; eauto|].
  assert (match depends_on task_def with
          | _ :: _ =>
              if negb (dependencies_met (sw_results s) (depends_on task_def))
              then Some (mkSwarmsState (<[i := PollSleeping]> (sw_coros s))
                           (sw_results s))
              else
                match run_task task_def (sw_results s) with
                | inl result =>
                    Some (mkSwarmsState (<[i := PollDone result]> (sw_coros s))
                            (<[agent_id task_def := result]> (sw_results s)))
                | inr msg =>
                    Some (mkSwarmsState (<[i := PollFaulted msg]> (sw_coros s))
                            (sw_results s))
                end
          | [] =>
              match run_task task_def (sw_results s) with
              | inl result =>
                  Some (mkSwarmsState (<[i := PollDone result]> (sw_coros s))
                          (<[agent_id task_def := result]> (sw_results s)))
              | inr msg =>
                  Some (mkSwarmsState (<[i := PollFaulted msg]> (sw_coros s))
                          (sw_results s))
              end
          end = Some s') as Hs'
    by (by destruct Hcs as [->| ->]).
  clear Hs. destruct (depends_on task_def) as [|dep deps] eqn:Hdeps.
  - right. destruct (run_task task_def (sw_results s)) as [result|msg];
      simplify_eq; [left|right]; (split; [done|]); eauto.
  - destruct (dependencies_met (sw_results s) (dep :: deps)) eqn:Hmet;
      simpl in Hs'.
    + right. destruct (run_task task_def (sw_results s)) as [result|msg];
        simplify_eq; [left|right]; (split; [done|]); eauto.
    + left. by simplify_eq.
Qed.

Lemma swarms_inv_initial defs : swarms_inv defs (swarms_initial defs).
Proof.
  unfold swarms_inv, swarms_initial; simpl. split_and!.
  - apply length_replicate.
  - intros dep_id v H. by rewrite lookup_empty in H.
  - intros j task_def c _ Hc. apply lookup_replicate in Hc as [-> _]. done.
Qed.

Lemma swarms_inv_step run_task defs i s s' :
  swarms_inv defs s → swarms_step run_task defs i s = Some s' →
  swarms_inv defs s'.
Proof.
  intros (Hlen & Hres & Hdeps) Hs.
  apply swarms_step_cases in Hs as (task_def & Hdef & Hc & Hs).
  assert (i < length (sw_coros s)) as Hlt
    by (destruct Hc as [Hc|Hc]; by eapply lookup_lt_Some).
  assert (∀ v, sw_coros s !! i ≠ Some (PollDone v)) as Hnd
    by (intros v; destruct Hc as [Hc|Hc]; by rewrite Hc).
  destruct Hs as [(_ & _ & ->)|[(Hmet & result & _ & ->)|(Hmet & msg & _ & ->)]];
    unfold swarms_inv; simpl; rewrite length_insert; (split; [done|]).
  - split.
    + intros dep_id v Hv. destruct (Hres _ _ Hv) as (j & dep_def & ? & ? & Hj).
      exists j, dep_def. split_and!; [done..|].
      rewrite list_lookup_insert_ne; [done|]. intros <-. by eapply Hnd.
    + intros j task_def' c Hdef' Hc' Hend.
      destruct (decide (j = i)) as [->|Hne].
      * rewrite list_lookup_insert_eq in Hc' by done. by simplify_eq.
      * rewrite list_lookup_insert_ne in Hc' by done. eauto.
  - split.
    + intros dep_id v Hv.
      destruct (decide (dep_id = agent_id task_def)) as [->|Hne].
      * rewrite lookup_insert_eq in Hv. simplify_eq.
        exists i, task_def. by rewrite list_lookup_insert_eq.
      * rewrite lookup_insert_ne in Hv by done.
        destruct (Hres _ _ Hv) as (j & dep_def & ? & ? & Hj).
        exists j, dep_def. split_and!; [done..|].
        rewrite list_lookup_insert_ne; [done|]. intros <-. by eapply Hnd.
    + intros j task_def' c Hdef' Hc' Hend dep_id Hin.
      assert (is_Some (sw_results s !! dep_id)) as Hsome.
      { destruct (decide (j = i)) as [->|Hne].
        - simplify_eq. by eapply dependencies_met_spec.
        - rewrite list_lookup_insert_ne in Hc' by done. eauto. }
      destruct (decide (dep_id = agent_id task_def)) as [->|Hne].
      * rewrite lookup_insert_eq. eauto.
      * by rewrite lookup_insert_ne.
  - split.
    + intros dep_id v Hv. destruct (Hres _ _ Hv) as (j & dep_def & ? & ? & Hj).
      exists j, dep_def. split_and!; [done..|].
      rewrite list_lookup_insert_ne; [done|]. intros <-. by eapply Hnd.
    + intros j task_def' c Hdef' Hc' Hend dep_id Hin.
      destruct (decide (j = i)) as [->|Hne].
      * simplify_eq. by eapply dependencies_met_spec.
      * rewrite list_lookup_insert_ne in Hc' by done. eauto.
Qed.

Lemma swarms_inv_run run_task defs schedule s :
  swarms_inv defs s → swarms_inv defs (swarms_run run_task defs schedule s).
Proof.
  revert s. induction schedule as [|i schedule IH]; intros s Hinv; [done|].
  simpl. destruct (swarms_step run_task defs i s) as [s'|] eqn:Hs; [|by auto].
  eapply IH, swarms_inv_step; eauto.
Qed.

Lemma swarms_run_app run_task defs schedule more s :
  swarms_run run_task defs (schedule ++ more) s
  = swarms_run run_task defs more (swarms_run run_task defs schedule s).
Proof.
  revert s. induction schedule as [|i schedule IH]; intros s; [done|].
  simpl. by destruct (swarms_step run_task defs i s).
Qed.

(** X15.  In the Swarms graph executor, under every schedule: a recorded
    result is what some task carrying that agent id returned, and a task
    that is past its wait (its agent returned or raised) has a recorded
    result for each dependency it declares, so some task carrying the
    dependency's id returned before it ran. *)
Theorem swarms_dependencies_first run_task defs schedule :
  (∀ dep_id v,
     sw_results (swarms_run run_task defs schedule (swarms_initial defs))
       !! dep_id = Some v →
     ∃ j dep_def,
       defs !! j = Some dep_def ∧ agent_id dep_def = dep_id ∧
       sw_coros (swarms_run run_task defs schedule (swarms_initial defs)) !! j
         = Some (PollDone v)) ∧
  (∀ i task_def c,
     defs !! i = Some task_def →
     sw_coros (swarms_run run_task defs schedule (swarms_initial defs)) !! i
       = Some c →
     poll_ended c →
     ∀ dep_id, dep_id ∈ depends_on task_def →
       ∃ j dep_def v,
         defs !! j = Some dep_def ∧ agent_id dep_def = dep_id ∧
         sw_coros (swarms_run run_task defs schedule (swarms_initial defs)) !! j
           = Some (PollDone v)).
Proof.
  pose proof (swarms_inv_run run_task defs schedule _ (swarms_inv_initial defs))
    as (_ & Hres & Hdeps).
  split; [done|].
  intros i task_def c Hdef Hc Hend dep_id Hin.
  destruct (Hdeps i task_def c Hdef Hc Hend dep_id Hin) as [v Hv].
  destruct (Hres _ _ Hv) as (j & dep_def & ? & ? & ?). by exists j, dep_def, v.
Qed.

Section SwarmsBlocked.

Variable run_task : AgentTask → gmap string string → string + string.
Variable defs : list AgentTask.
Variable blocked : gset string.

Hypothesis closed : swarms_blocked run_task defs blocked.

Lemma swarms_blocked_step i s s' :
  swarms_inv defs s →
  (∀ dep_id, dep_id ∈ blocked → sw_results s !! dep_id = None) →
  swarms_step run_task defs i s = Some s' →
  ∀ dep_id, dep_id ∈ blocked → sw_results s' !! dep_id = None.
Proof.
  intros (_ & Hres & _) Hb Hs dep_id Hin.
  apply swarms_step_cases in Hs as (task_def & Hdef & _ & Hs).
  destruct Hs as [(_ & _ & ->)|[(Hmet & result & Hrun & ->)|(_ & msg & _ & ->)]];
    simpl; [by auto| |by auto].
  rewrite lookup_insert_ne; [by auto|]. intros <-.
  destruct (closed i task_def Hdef Hin) as [(dep & Hdep & Hbad)|Hraise].
  - pose proof (proj1 (dependencies_met_spec _ _) Hmet dep Hdep) as [v Hv].
    destruct Hbad as [Hbl|Hunk].
    + by rewrite (Hb dep Hbl) in Hv.
    + destruct (Hres _ _ Hv) as (j & dep_def & Hj & <- & _).
      apply Hunk, list_elem_of_fmap. exists dep_def. split; [done|].
      by eapply list_elem_of_lookup_2.
  - destruct (Hraise (sw_results s)) as [msg Hmsg]. congruence.
Qed.

Lemma swarms_blocked_run schedule s :
  swarms_inv defs s →
  (∀ dep_id, dep_id ∈ blocked → sw_results s !! dep_id = None) →
  ∀ dep_id, dep_id ∈ blocked →
    sw_results (swarms_run run_task defs schedule s) !! dep_id = None.
Proof.
  revert s. induction schedule as [|i schedule IH]; intros s Hinv Hb; [done|].
  simpl. destruct (swarms_step run_task defs i s) as [s'|] eqn:Hs; [|by auto].
  apply IH; [by eapply swarms_inv_step|by eapply swarms_blocked_step].
Qed.

(** X16.  In the Swarms graph executor, for a set of agent ids in which
    every task declares a dependency that is in the set or that no task
    carries, or has an agent that always raises: no result is ever
    recorded under an id of the set, and a task that declares a
    dependency in the set, or one no task carries, never gets past its
    wait loop.  It can always be resumed, and resuming it only makes it
    sleep again: a failed or missing dependency keeps its dependents
    polling for ever. *)
Theorem swarms_blocked_poll_forever schedule :
  (∀ dep_id, dep_id ∈ blocked →
     sw_results (swarms_run run_task defs schedule (swarms_initial defs))
       !! dep_id = None) ∧
  (∀ i task_def dep_id,
     defs !! i = Some task_def →
     dep_id ∈ depends_on task_def →
     dep_id ∈ blocked ∨ dep_id ∉ agent_id <$> defs →
     (sw_coros (swarms_run run_task defs schedule (swarms_initial defs)) !! i
        = Some PollCreated ∨
      sw_coros (swarms_run run_task defs schedule (swarms_initial defs)) !! i
        = Some PollSleeping) ∧
     ∃ s',
       swarms_step run_task defs i
         (swarms_run run_task defs schedule (swarms_initial defs)) = Some s' ∧
       sw_results s'
         = sw_results (swarms_run run_task defs schedule (swarms_initial defs)) ∧
       sw_coros s' !! i = Some PollSleeping).
Proof.
  pose proof (swarms_inv_run run_task defs schedule _ (swarms_inv_initial defs))
    as Hinv.
  assert (∀ dep_id, dep_id ∈ blocked →
            sw_results (swarms_run run_task defs schedule (swarms_initial defs))
              !! dep_id = None) as Hb.
  { apply swarms_blocked_run; [apply swarms_inv_initial|].
    intros dep_id _. apply lookup_empty. }
  split; [done|].
  intros i task_def dep_id Hdef Hin Hbad.
  destruct Hinv as (Hlen & Hres & Hdeps).
  set (s := swarms_run run_task defs schedule (swarms_initial defs)) in *.
  assert (sw_results s !! dep_id = None) as Hnone.
  { destruct Hbad as [Hbl|Hunk]; [by auto|].
    destruct (sw_results s !! dep_id) as [v|] eqn:Hv; [|done].
    destruct (Hres _ _ Hv) as (j & dep_def & Hj & <- & _).
    destruct Hunk. apply list_elem_of_fmap. exists dep_def. split; [done|].
    by eapply list_elem_of_lookup_2. }
  destruct (lookup_lt_is_Some_2 (sw_coros s) i) as [c Hc].
  { rewrite Hlen. by eapply lookup_lt_Some. }
  assert (c = PollCreated ∨ c = PollSleeping) as Hcs.
  { destruct c as [| |r|msg]; [by auto..| |].
    - destruct (Hdeps i task_def _ Hdef Hc I dep_id Hin) as [v Hv]. congruence.
    - destruct (Hdeps i task_def _ Hdef Hc I dep_id Hin) as [v Hv]. congruence. }
  split; [by destruct Hcs as [->| ->]; auto|].
  assert (dependencies_met (sw_results s) (depends_on task_def) = false)
    as Hmet.
  { destruct (dependencies_met _ _) eqn:Hmet; [|done].
    destruct (proj1 (dependencies_met_spec _ _) Hmet dep_id Hin) as [v Hv].
    congruence. }
  exists (mkSwarmsState (<[i := PollSleeping]> (sw_coros s)) (sw_results s)).
  split_and!; [|done|].
  - unfold swarms_step. rewrite Hc, Hdef.
    destruct (depends_on task_def) as [|dep deps] eqn:Hd;
      [by apply elem_of_nil in Hin|].
    rewrite Hmet. by destruct Hcs as [->| ->].
  - simpl. apply list_lookup_insert_eq. by eapply lookup_lt_Some.
Qed.

End SwarmsBlocked.

(** * The listing endpoint *)

Lemma insert_newest_perm x l : insert_newest x l ≡ₚ x :: l.
Proof.
  induction l as [|y l IH]; [done|]. simpl.
  case_decide; [done|]. rewrite IH. apply Permutation_swap.
Qed.

Lemma sort_newest_first_perm l : sort_newest_first l ≡ₚ l.
Proof.
  induction l as [|x l IH]; [done|]. simpl.
  by rewrite insert_newest_perm, IH.
Qed.

Lemma insert_newest_sorted x l :
  StronglySorted newest_first l → StronglySorted newest_first (insert_newest x l).
Proof.
  induction 1 as [|y l Hs IH Hall]; simpl.
  - by repeat constructor.
  - case_decide as Hle.
    + constructor; [by constructor|]. constructor; [done|].
      eapply Forall_impl; [exact Hall|]. unfold newest_first. intros z ?. lia.
    + constructor; [done|]. rewrite insert_newest_perm.
      constructor; [|done]. unfold newest_first. lia.
Qed.

Lemma sort_newest_first_sorted l :
  StronglySorted newest_first (sort_newest_first l).
Proof.
  induction l as [|x l IH]; [constructor|]. by apply insert_newest_sorted.
Qed.

Lemma slice_to_take {A} (l : list A) limit :
  ∃ n, slice_to l limit = take n l ∧
       ((0 ≤ limit)%Z → n = Z.to_nat limit) ∧
       ((limit < 0)%Z → n = length l - Z.to_nat (- limit)).
Proof.
  unfold slice_to. case_decide; eexists; (split_and!; [done|lia..]).
Qed.

Lemma status_filter_spec status l w :
  w ∈ status_filter status l ↔
  w ∈ l ∧ ∀ s, status = Some s → s ≠ "" → status_name (ws_status w.2) = s.
Proof.
  unfold status_filter. destruct status as [s|].
  - case_decide as Hs.
    + split; [|by intros []]. intros ?. split; [done|]. intros ? [= <-]. done.
    + rewrite list_elem_of_filter. split.
      * intros [? ?]. split; [done|]. by intros ? [= <-].
      * intros [? H]. split; [|done]. by apply H.
  - split; [|by intros []]. intros ?. split; [done|]. by intros.
Qed.

Lemma insert_newest_stable (k : Z) x l :
  filter (λ w : Stamped, w.1 = k) (insert_newest x l)
  = filter (λ w : Stamped, w.1 = k) (x :: l).
Proof.
  induction l as [|y l IH]; [done|]. simpl. case_decide as Hle; [done|].
  rewrite filter_cons, IH, !filter_cons.
  destruct (decide (y.1 = k)), (decide (x.1 = k)); try done; lia.
Qed.

Lemma sort_newest_first_stable (k : Z) l :
  filter (λ w : Stamped, w.1 = k) (sort_newest_first l)
  = filter (λ w : Stamped, w.1 = k) l.
Proof.
  induction l as [|x l IH]; [done|]. simpl.
  by rewrite insert_newest_stable, !filter_cons, IH.
Qed.

(** X17.  What [list_workflows] returns is sorted newest first, entries
    created at the same time coming in the store's order; every entry is
    one of the store's; when a status that is not the empty string is
    asked for, every entry has that status; and with a limit that is not
    negative there are at most [limit] entries. *)
Theorem list_workflows_sound workflows status limit :
  StronglySorted newest_first (list_workflows workflows status limit) ∧
  (∀ k : Z,
     filter (λ w : Stamped, w.1 = k) (list_workflows workflows status limit)
     `prefix_of`
     filter (λ w : Stamped, w.1 = k) (status_filter status workflows)) ∧
  list_workflows workflows status limit ⊆+ workflows ∧
  (∀ s w, status = Some s → s ≠ "" →
     w ∈ list_workflows workflows status limit →
     status_name (ws_status w.2) = s) ∧
  ((0 ≤ limit)%Z →
   length (list_workflows workflows status limit) ≤ Z.to_nat limit).
Proof.
  unfold list_workflows.
  destruct (slice_to_take (sort_newest_first (status_filter status workflows))
              limit) as (n & -> & Hpos & _).
  assert (take n (sort_newest_first (status_filter status workflows))
            ⊆+ status_filter status workflows) as Hsub.
  { rewrite <- (sort_newest_first_perm (status_filter status workflows)) at 2.
    apply sublist_submseteq, sublist_take. }
  split_and!.
  - pose proof (sort_newest_first_sorted (status_filter status workflows)) as Hs.
    rewrite <- (take_drop n) in Hs. by apply StronglySorted_app_1_l in Hs.
  - intros k. rewrite <- (sort_newest_first_stable k (status_filter _ _)).
    rewrite <- (take_drop n (sort_newest_first _)) at 2.
    rewrite filter_app. by apply prefix_app_r.
  - etrans; [exact Hsub|]. unfold status_filter.
    destruct status as [s|]; [|done]. case_decide; [done|].
    apply sublist_submseteq, sublist_filter.
  - intros s w -> Hs Hw.
    eapply elem_of_submseteq in Hw; [|exact Hsub].
    apply status_filter_spec in Hw as [_ Hw]. by apply Hw.
  - intros Hl. rewrite length_take, (Hpos Hl). lia.
Qed.

(** X18.  [list_workflows] leaves out only the oldest: a workflow that
    matches and is not returned is no newer than any that is returned,
    and when no more than [limit] workflows match, all of them are
    returned.  No status and the empty
    string both match every workflow.  A negative limit is not refused:
    it leaves out the [-limit] oldest of the matching workflows. *)
Theorem list_workflows_complete workflows status limit :
  (∀ w r,
     w ∈ status_filter status workflows →
     w ∉ list_workflows workflows status limit →
     r ∈ list_workflows workflows status limit →
     newest_first r w) ∧
  ((Z.of_nat (length (status_filter status workflows)) ≤ limit)%Z →
   list_workflows workflows status limit ≡ₚ status_filter status workflows) ∧
  (status = None ∨ status = Some "" →
   status_filter status workflows = workflows) ∧
  ((limit < 0)%Z →
   length (list_workflows workflows status limit)
   = length (status_filter status workflows) - Z.to_nat (- limit)).
Proof.
  unfold list_workflows.
  destruct (slice_to_take (sort_newest_first (status_filter status workflows))
              limit) as (n & -> & Hpos & Hneg).
  pose proof (sort_newest_first_perm (status_filter status workflows)) as Hperm.
  split_and!.
  - intros w r Hw Hnot Hr.
    pose proof (sort_newest_first_sorted (status_filter status workflows)) as Hs.
    rewrite <- Hperm in Hw.
    rewrite <- (take_drop n (sort_newest_first _)) in Hw, Hs.
    apply elem_of_app in Hw as [Hw|Hw]; [done|].
    apply StronglySorted_app in Hs as (Hs & _ & _). by apply Hs.
  - intros Hle. rewrite take_ge; [done|].
    rewrite Hperm. rewrite Hpos by lia. lia.
  - intros [->| ->]; [done|]. unfold status_filter. by case_decide.
  - intros Hl. rewrite length_take, (Hneg Hl), Hperm. lia.
Qed.

(** * The theorems above at example workflows *)

Lemma strategy_raises_only_index_error_witness :
  phase (execution (mock_agent "t0")
           (workflow_of Sequential [task "A" "backend" []; task "B" "qa" []])
           (submitted (workflow_of Sequential [task "A" "backend" []]))
           [0; 0; 0; 0]) = Trying (Raised IndexError) ∧
  length (ws_tasks (submitted (workflow_of Sequential [task "A" "backend" []])))
  < length (tasks (workflow_of Sequential
                     [task "A" "backend" []; task "B" "qa" []])).
Proof.
  split; [vm_compute; reflexivity|].
  destruct (strategy_raises_only_index_error (mock_agent "t0")
              (workflow_of Sequential [task "A" "backend" []; task "B" "qa" []])
              (submitted (workflow_of Sequential [task "A" "backend" []]))
              [0; 0; 0; 0] IndexError) as (_ & Hlt & _);
    [vm_compute; reflexivity|exact Hlt].
Defined.

Lemma unfinished_workflow_stays_running_witness :
  phase (execution (mock_agent "t0")
           (workflow_of Graph [task "G" "qa" ["ghost"]; task "A" "backend" []])
           (submitted (workflow_of Graph
              [task "G" "qa" ["ghost"]; task "A" "backend" []]))
           [0; 0; 1; 1; 0]) = Trying Returned ∧
  statuses (execution (mock_agent "t0")
           (workflow_of Graph [task "G" "qa" ["ghost"]; task "A" "backend" []])
           (submitted (workflow_of Graph
              [task "G" "qa" ["ghost"]; task "A" "backend" []]))
           [0; 0; 1; 1; 0]) = [Pending; Completed] ∧
  ∃ m',
    step (mock_agent "t0")
      (workflow_of Graph [task "G" "qa" ["ghost"]; task "A" "backend" []]) 0
      (execution (mock_agent "t0")
         (workflow_of Graph [task "G" "qa" ["ghost"]; task "A" "backend" []])
         (submitted (workflow_of Graph
            [task "G" "qa" ["ghost"]; task "A" "backend" []]))
         [0; 0; 1; 1; 0]) = Some m' ∧
    phase m' = Finished ∧ ws_status (workflow m') = WfRunning.
Proof.
  split; [vm_compute; reflexivity|].
  split; [vm_compute; reflexivity|].
  eexists. split; [vm_compute; reflexivity|].
  destruct (unfinished_workflow_stays_running (mock_agent "t0")
              (workflow_of Graph
                 [task "G" "qa" ["ghost"]; task "A" "backend" []])
              (submitted (workflow_of Graph
                 [task "G" "qa" ["ghost"]; task "A" "backend" []]))
              [0; 0; 1; 1; 0] 0 _
              ltac:(vm_compute; reflexivity) ltac:(vm_compute; reflexivity))
    as (Hph & Hst & _).
  - eexists. split; [apply (list_elem_of_lookup_2 _ 0); vm_compute; reflexivity|].
    vm_compute. discriminate.
  - apply Forall_forall. vm_compute.
    repeat (apply Forall_cons_2; [discriminate|]). apply Forall_nil_2.
  - exact (conj Hph Hst).
Defined.

Lemma sequential_terminates_witness :
  workflow_type (workflow_of Sequential
                   [task "A" "backend" []; task "B" "qa" []]) = Sequential ∧
  phase (execution (flaky_agent ["B"] "t0")
           (workflow_of Sequential [task "A" "backend" []; task "B" "qa" []])
           (submitted (workflow_of Sequential
              [task "A" "backend" []; task "B" "qa" []]))
           [4; 0; 2; 7; 1; 1; 3]) = Finished.
Proof.
  split; [reflexivity|].
  apply (sequential_terminates (flaky_agent ["B"] "t0")
           (workflow_of Sequential [task "A" "backend" []; task "B" "qa" []])
           (submitted (workflow_of Sequential
              [task "A" "backend" []; task "B" "qa" []]))
           eq_refl [4; 0; 2; 7; 1; 1; 3]).
  simpl. lia.
Defined.

Lemma sequential_chaining_witness :
  workflow_type (workflow_of Sequential
                   [task "A" "backend" []; task "B" "qa" []]) = Sequential ∧
  ∃ previous_result,
    phase (execution (mock_agent "t0")
             (workflow_of Sequential [task "A" "backend" []; task "B" "qa" []])
             (submitted (workflow_of Sequential
                [task "A" "backend" []; task "B" "qa" []]))
             [0; 0; 0; 0]) = Trying (SeqAwait 1 previous_result) ∧
    chained (ws_tasks (workflow (execution (mock_agent "t0")
               (workflow_of Sequential
                  [task "A" "backend" []; task "B" "qa" []])
               (submitted (workflow_of Sequential
                  [task "A" "backend" []; task "B" "qa" []]))
               [0; 0; 0; 0]))) 1 previous_result.
Proof.
  split; [reflexivity|].
  eexists. split; [vm_compute; reflexivity|].
  apply (sequential_chaining (mock_agent "t0")
           (workflow_of Sequential [task "A" "backend" []; task "B" "qa" []])
           (submitted (workflow_of Sequential
              [task "A" "backend" []; task "B" "qa" []]))
           eq_refl [0; 0; 0; 0] 1).
  vm_compute; reflexivity.
Defined.


Lemma parallel_isolation_witness :
  workflow_type (workflow_of Parallel
                   [task "A" "backend" []; task "B" "qa" []]) = Parallel ∧
  length (tasks (workflow_of Parallel
                   [task "A" "backend" []; task "B" "qa" []]))
  ≤ length (ws_tasks (submitted (workflow_of Parallel
                        [task "A" "backend" []; task "B" "qa" []]))) ∧
  pristine (submitted (workflow_of Parallel
              [task "A" "backend" []; task "B" "qa" []])) ∧
  ∃ t,
    ws_tasks (workflow (execution (flaky_agent ["B"] "t0")
       (workflow_of Parallel [task "A" "backend" []; task "B" "qa" []])
       (submitted (workflow_of Parallel
          [task "A" "backend" []; task "B" "qa" []]))
       [0; 0; 1; 1; 0])) !! 1 = Some t ∧
    outcome_of (flaky_agent ["B"] "t0") (task "B" "qa" []) VNone t.
Proof.
  split; [reflexivity|].
  split; [vm_compute; lia|].
  split; [apply run_graph_pristine|].
  eexists. split; [vm_compute; reflexivity|].
  destruct (parallel_isolation (flaky_agent ["B"] "t0")
              (workflow_of Parallel [task "A" "backend" []; task "B" "qa" []])
              (submitted (workflow_of Parallel
                 [task "A" "backend" []; task "B" "qa" []]))
              eq_refl ltac:(vm_compute; lia) [0; 0; 1; 1; 0]
              (run_graph_pristine _ _ _)) as (_ & Hout & _).
  apply (Hout 1).
  - reflexivity.
  - vm_compute; reflexivity.
  - right. vm_compute; reflexivity.
Defined.

Lemma parallel_never_stuck_witness :
  workflow_type (workflow_of Parallel
                   [task "A" "backend" []; task "B" "qa" []]) = Parallel ∧
  length (tasks (workflow_of Parallel
                   [task "A" "backend" []; task "B" "qa" []]))
  ≤ length (ws_tasks (submitted (workflow_of Parallel
                        [task "A" "backend" []; task "B" "qa" []]))) ∧
  ∃ more,
    phase (execution (flaky_agent ["B"] "t0")
       (workflow_of Parallel [task "A" "backend" []; task "B" "qa" []])
       (submitted (workflow_of Parallel
          [task "A" "backend" []; task "B" "qa" []]))
       ([0; 1; 1] ++ more)) = Finished.
Proof.
  split; [reflexivity|].
  split; [vm_compute; lia|].
  apply (parallel_never_stuck (flaky_agent ["B"] "t0")
           (workflow_of Parallel [task "A" "backend" []; task "B" "qa" []])
           (submitted (workflow_of Parallel
              [task "A" "backend" []; task "B" "qa" []]))
           eq_refl ltac:(vm_compute; lia) [0; 1; 1]).
Defined.

Lemma ended_task_has_fired_witness :
  workflow_type (workflow_of Graph
                   [task "A" "backend" []; task "B" "qa" ["A"]]) = Graph ∧
  pristine (submitted (workflow_of Graph
              [task "A" "backend" []; task "B" "qa" ["A"]])) ∧
  statuses (execution (flaky_agent ["A"] "t0")
     (workflow_of Graph [task "A" "backend" []; task "B" "qa" ["A"]])
     (submitted (workflow_of Graph
        [task "A" "backend" []; task "B" "qa" ["A"]]))
     [0; 0; 0]) = [Failed; Pending] ∧
  ∃ task_events,
    graph_events (execution (flaky_agent ["A"] "t0")
       (workflow_of Graph [task "A" "backend" []; task "B" "qa" ["A"]])
       (submitted (workflow_of Graph
          [task "A" "backend" []; task "B" "qa" ["A"]]))
       [0; 0; 0]) = Some task_events ∧
    task_events !! agent_id (task "A" "backend" []) = Some true.
Proof.
  split; [reflexivity|].
  split; [apply run_graph_pristine|].
  split; [vm_compute; reflexivity|].
  eexists. split; [vm_compute; reflexivity|].
  destruct (ended_task_has_fired (flaky_agent ["A"] "t0")
              (workflow_of Graph [task "A" "backend" []; task "B" "qa" ["A"]])
              (submitted (workflow_of Graph
                 [task "A" "backend" []; task "B" "qa" ["A"]]))
              eq_refl [0; 0; 0] _
              (run_graph_pristine _ _ _) ltac:(vm_compute; reflexivity))
    as (Hfired & _).
  eapply (Hfired 0).
  - reflexivity.
  - vm_compute; reflexivity.
  - right. vm_compute; reflexivity.
Defined.

Lemma cycle_blocked_closed :
  blocked_closed [task "A" "backend" ["B"]; task "B" "qa" ["A"]] {["A"; "B"]}.
Proof.
  intros j task_def Hj _. destruct j as [|[|j]]; simplify_eq/=.
  - exists "B". split; [apply list_elem_of_here|]. left. set_solver.
  - exists "A". split; [apply list_elem_of_here|]. left. set_solver.
Qed.

Lemma blocked_tasks_never_run_witness :
  workflow_type (workflow_of Graph
                   [task "A" "backend" ["B"]; task "B" "qa" ["A"]]) = Graph ∧
  blocked_closed (tasks (workflow_of Graph
                    [task "A" "backend" ["B"]; task "B" "qa" ["A"]]))
    {["A"; "B"]} ∧
  phase (execution (mock_agent "t0")
     (workflow_of Graph [task "A" "backend" ["B"]; task "B" "qa" ["A"]])
     (submitted (workflow_of Graph
        [task "A" "backend" ["B"]; task "B" "qa" ["A"]]))
     [0; 0; 1; 1; 0; 0]) ≠ Finished.
Proof.
  split; [reflexivity|].
  split; [exact cycle_blocked_closed|].
  destruct (blocked_tasks_never_run (mock_agent "t0")
              (workflow_of Graph
                 [task "A" "backend" ["B"]; task "B" "qa" ["A"]])
              (submitted (workflow_of Graph
                 [task "A" "backend" ["B"]; task "B" "qa" ["A"]]))
              {["A"; "B"]} eq_refl cycle_blocked_closed
              [0; 0; 1; 1; 0; 0]) as (_ & Hstuck).
  apply Hstuck. exists 0, (task "A" "backend" ["B"]).
  split; [reflexivity|].
  split; [apply elem_of_union_l, elem_of_singleton; reflexivity|].
  intros dep_id Hin. apply list_elem_of_singleton in Hin as ->.
  simpl. apply list_elem_of_further, list_elem_of_here.
Defined.

Lemma chain_well_founded :
  well_founded_graph [task "A" "backend" []; task "B" "qa" ["A"]]
    rank_by_letter.
Proof.
  intros j task_def Hj. destruct j as [|[|j]]; simplify_eq/=.
  - split; [by intros dep_id Hin; apply elem_of_nil in Hin|].
    by intros dep_id Hin; apply elem_of_nil in Hin.
  - split.
    + intros dep_id Hin. apply list_elem_of_singleton in Hin as ->.
      simpl. apply list_elem_of_here.
    + intros dep_id Hin. apply list_elem_of_singleton in Hin as ->.
      vm_compute. lia.
Qed.

Lemma acyclic_graph_never_stuck_witness :
  workflow_type (workflow_of Graph
                   [task "A" "backend" []; task "B" "qa" ["A"]]) = Graph ∧
  length (tasks (workflow_of Graph
                   [task "A" "backend" []; task "B" "qa" ["A"]]))
  ≤ length (ws_tasks (submitted (workflow_of Graph
                        [task "A" "backend" []; task "B" "qa" ["A"]]))) ∧
  well_founded_graph (tasks (workflow_of Graph
                        [task "A" "backend" []; task "B" "qa" ["A"]]))
    rank_by_letter ∧
  ∃ more,
    phase (execution (flaky_agent ["A"] "t0")
       (workflow_of Graph [task "A" "backend" []; task "B" "qa" ["A"]])
       (submitted (workflow_of Graph
          [task "A" "backend" []; task "B" "qa" ["A"]]))
       ([0; 1; 0] ++ more)) = Finished.
Proof.
  split; [reflexivity|].
  split; [vm_compute; lia|].
  split; [exact chain_well_founded|].
  apply (acyclic_graph_never_stuck (flaky_agent ["A"] "t0")
           (workflow_of Graph [task "A" "backend" []; task "B" "qa" ["A"]])
           (submitted (workflow_of Graph
              [task "A" "backend" []; task "B" "qa" ["A"]]))
           rank_by_letter eq_refl ltac:(vm_compute; lia) chain_well_founded
           [0; 1; 0]).
Defined.

Lemma failed_agent_blocked :
  swarms_blocked (echo_task ["A"])
    [task "A" "backend" []; task "B" "qa" ["A"]] {["A"]}.
Proof.
  intros j task_def Hj Hin. destruct j as [|[|j]]; simplify_eq/=.
  - right. intros results. by exists "agent unreachable".
  - exfalso. set_solver.
Qed.

Lemma swarms_blocked_poll_forever_witness :
  swarms_blocked (echo_task ["A"])
    [task "A" "backend" []; task "B" "qa" ["A"]] {["A"]} ∧
  sw_coros (swarms_run (echo_task ["A"])
              [task "A" "backend" []; task "B" "qa" ["A"]] [0; 1; 1; 1]
              (swarms_initial [task "A" "backend" []; task "B" "qa" ["A"]]))
    = [PollFaulted "agent unreachable"; PollSleeping] ∧
  ∃ s',
    swarms_step (echo_task ["A"])
      [task "A" "backend" []; task "B" "qa" ["A"]] 1
      (swarms_run (echo_task ["A"])
         [task "A" "backend" []; task "B" "qa" ["A"]] [0; 1; 1; 1]
         (swarms_initial [task "A" "backend" []; task "B" "qa" ["A"]]))
    = Some s' ∧
    sw_coros s' !! 1 = Some PollSleeping.
Proof.
  split; [exact failed_agent_blocked|].
  split; [vm_compute; reflexivity|].
  destruct (swarms_blocked_poll_forever (echo_task ["A"])
              [task "A" "backend" []; task "B" "qa" ["A"]] {["A"]}
              failed_agent_blocked [0; 1; 1; 1]) as (_ & Hpoll).
  destruct (Hpoll 1 (task "B" "qa" ["A"]) "A") as (_ & s' & Hs & _ & Hc).
  - reflexivity.
  - apply list_elem_of_here.
  - left. set_solver.
  - exists s'. exact (conj Hs Hc).
Defined.
